(** * LAN file transfer: receiver and sender engines

    A shallow embedding of [receiver.py], [sender.py] and the helpers of
    [utils.py] they call.  Python code that threads a socket, the
    filesystem and exceptions is written in a small state / exception /
    trace monad [Py]; the operating system (sockets, files, temporary
    names, free disk space) is an explicit [world].

    Conventions of the model

    - [bytes] is [list byte]; text is [string].
    - The filesystem is a finite map from path strings to nodes (regular
      file with its content, or directory).  Parent directories and
      permissions are not tracked: an operation fails only for the reasons
      the map determines (missing entry, wrong kind of node, name taken).
    - A socket carries the script of what the peer will deliver
      ([sk_inbox]) and of which writes will fail ([sk_tx_faults]); every
      run of the real program against a real peer corresponds to one such
      script.
    - Every primitive appends an [event] to the trace of the run, so that
      the order of operations can be stated.
    - Screen output is reduced to the constant part of each message; the
      curses calls never influence control flow. *)

From Stdlib Require Import ZArith List String Ascii Strings.Byte Bool Lia.
From Stdlib Require Import Floats.SpecFloat.
From stdpp Require Import base gmap strings list pretty.

Local Open Scope Z_scope.

(** ** Byte strings *)

Definition bytes := list byte.

#[global] Instance byte_eq_dec : EqDecision byte := Byte.byte_eq_dec.

(** [b"..."] literals. *)
Definition b_ (s : string) : bytes := list_byte_of_string s.

Definition ACK1 : bytes := b_ "ACK1".
Definition ACK2 : bytes := b_ "ACK2".
Definition DONE : bytes := b_ "DONE".
Definition MISMATCH : bytes := b_ "MISMATCH".
Definition SPACE_ERROR : bytes := b_ "SPACE_ERROR".
Definition TIMEOUT : bytes := b_ "TIMEOUT".

(** [len(x)] as a Python integer. *)
Definition len {A} (l : list A) : Z := Z.of_nat (length l).

(** [data.startswith(prefix)]. *)
Definition startswith (data pre : bytes) : bool :=
  bool_decide (take (length pre) data = pre).

(** [not x] for a byte string: the empty string is falsy. *)
Definition is_empty {A} (l : list A) : bool :=
  match l with [] => true | _ => false end.

Definition byte_of_Z (z : Z) : byte :=
  default "000"%byte (Byte.of_N (Z.to_N (z mod 256))).

(** [struct.pack('!I', n)]: four bytes, big endian; [None] stands for
    [struct.error] when [n] does not fit 32 bits. *)
Definition struct_pack_I (n : Z) : option bytes :=
  if (0 <=? n) && (n <? 2 ^ 32)
  then Some [byte_of_Z (n / 2 ^ 24); byte_of_Z (n / 2 ^ 16);
             byte_of_Z (n / 2 ^ 8); byte_of_Z n]
  else None.

(** [struct.unpack('!I', data)[0]]. *)
Definition struct_unpack_I (data : bytes) : Z :=
  fold_left (fun acc c => acc * 256 + Z.of_N (Byte.to_N c)) data 0.

(** ** Text helpers *)

Definition lower_ascii (c : ascii) : ascii :=
  let n := nat_of_ascii c in
  if (Nat.leb 65 n && Nat.leb n 90)%bool then ascii_of_nat (n + 32) else c.

(** [s.lower()] on ASCII letters. *)
Fixpoint lower (s : string) : string :=
  match s with
  | EmptyString => EmptyString
  | String c rest => String (lower_ascii c) (lower rest)
  end.

(** [s[:n]]. *)
Definition str_prefix (n : nat) (s : string) : string := String.substring 0 n s.

Fixpoint has_slash (s : string) : bool :=
  match s with
  | EmptyString => false
  | String c rest => if Ascii.eqb c "/" then true else has_slash rest
  end.

(** [os.path.basename]: what follows the last slash. *)
Fixpoint basename (s : string) : string :=
  match s with
  | EmptyString => EmptyString
  | String c rest =>
      if has_slash rest then basename rest
      else if Ascii.eqb c "/" then rest else s
  end.

(** [os.path.dirname]: what precedes the last slash. *)
Fixpoint dirname (s : string) : string :=
  match s with
  | EmptyString => EmptyString
  | String c rest =>
      if has_slash rest then String c (dirname rest) else EmptyString
  end.

Definition ends_with_slash (s : string) : bool :=
  match String.get (Nat.pred (String.length s)) s with
  | Some c => Ascii.eqb c "/"
  | None => false
  end.

(** [os.path.join(d, n)] on POSIX: an absolute [n] replaces [d]. *)
Definition path_join (d n : string) : string :=
  if String.prefix "/" n then n
  else if String.eqb d "" then n
  else if ends_with_slash d then d +:+ n
  else d +:+ "/" +:+ n.

(** ** Double precision arithmetic of the disk space check

    [required_space * 1.1] multiplies a Python integer by a float: the
    integer is converted to binary64 (round to nearest, ties to even;
    [OverflowError] when it does not fit) and the product is rounded the
    same way.  [free_space < product] then compares an integer with a float
    exactly.  The operations are those of the Standard Library's
    [SpecFloat] at precision 53 and maximal exponent 1024. *)

Definition float_of_int (z : Z) : spec_float := binary_normalize 53 1024 z 0 false.

(** The binary64 nearest to 1.1, [0x3FF199999999999A]. *)
Definition float_1_1 : spec_float := S754_finite false 4953959590107546 (-52).

Definition float_mul (x y : spec_float) : spec_float := SFmul 53 1024 x y.

(** [a < f] for an integer [a] and a float [f], without rounding [a]. *)
Definition int_lt_float (a : Z) (f : spec_float) : bool :=
  match f with
  | S754_zero _ => a <? 0
  | S754_infinity s => negb s
  | S754_nan => false
  | S754_finite s m e =>
      let v := if s then Z.neg m else Z.pos m in
      if 0 <=? e then a <? v * 2 ^ e else a * 2 ^ (- e) <? v
  end.

(** [required_space * 1.1]; [None] is the [OverflowError] of the
    conversion of a too large integer. *)
Definition times_1_1 (required_space : Z) : option spec_float :=
  match float_of_int required_space with
  | S754_infinity _ | S754_nan => None
  | f => Some (float_mul f float_1_1)
  end.

(** ** Exceptions *)

Inductive exn_class :=
| SocketTimeout          (* socket.timeout, a subclass of OSError *)
| ConnectionRefused      (* ConnectionRefusedError, a subclass of OSError *)
| OSError                (* socket.error, IOError, shutil.Error, ... *)
| ValueError             (* also struct.error, OverflowError, JSON errors *)
| PlainException.        (* raise Exception(...) *)

Record exn := Exn {
  exn_class_of : exn_class;
  exn_errno : option Z;
  exn_text : string        (* str(e) *)
}.

Definition Exception (msg : string) : exn := Exn PlainException None msg.

(** [except socket.timeout]. *)
Definition is_socket_timeout (e : exn) : bool :=
  match exn_class_of e with SocketTimeout => true | _ => false end.

(** [except ConnectionRefusedError]. *)
Definition is_connection_refused (e : exn) : bool :=
  match exn_class_of e with ConnectionRefused => true | _ => false end.

(** [except socket.error], [except OSError], [except IOError]. *)
Definition is_os_error (e : exn) : bool :=
  match exn_class_of e with
  | SocketTimeout | ConnectionRefused | OSError => true
  | _ => false
  end.

(** [getattr(e, 'winerror', getattr(e, 'errno', 'unknown'))] rendered in an
    f-string. *)
Definition error_code_text (e : exn) : string :=
  match exn_errno e with Some c => pretty c | None => "None" end.

(** ** Filesystem *)

Inductive node := File (content : bytes) | Dir.

Definition is_file (o : option node) : bool :=
  match o with Some (File _) => true | _ => false end.

Definition is_dir (o : option node) : bool :=
  match o with Some Dir => true | _ => false end.

(** The entries below directory [d]: keys of the form [d/...]. *)
Definition under (d k : string) : bool := String.prefix (d +:+ "/") k.

Definition rekey (src dst k : string) : string :=
  if String.eqb k src then dst
  else if under src k
       then dst +:+ String.substring (String.length src) (String.length k) k
       else k.

(** ** Sockets *)

Inductive rx_item :=
| RxSeg (data : bytes)      (* bytes that arrive together *)
| RxFault (e : exn).        (* the next recv raises *)

Record socket := Socket {
  sk_timeout : option Z;            (* None: blocking mode *)
  sk_inbox : list rx_item;          (* what the peer delivers; then it closes *)
  sk_tx_faults : list (option exn); (* outcome of the successive writes *)
  sk_outbox : list bytes;           (* what has been written *)
  sk_create_fault : option exn;     (* create_socket raises *)
  sk_connect_fault : option exn;    (* connect raises *)
  sk_closed : bool
}.

(** ** Trace of a run *)

Inductive event :=
| EvCreateSocket
| EvSetTimeout (t : option Z)
| EvConnect
| EvRecv (entry : option nat) (n : Z) (tmo : option Z) (data : bytes)
| EvRecvFault (entry : option nat) (n : Z) (tmo : option Z) (e : exn)
| EvSend (entry : option nat) (data : bytes) (ok : bool)
| EvClose
| EvHash (path : string)
| EvMkstemp (path : string)
| EvMkdtemp (path : string)
| EvOpen (entry : option nat) (path : string)
| EvWrite (path : string) (data : bytes)
| EvGetsize (entry : option nat) (path : string) (size : Z)
| EvMove (src dst : string)
| EvRemove (path : string)
| EvRmtree (path : string)
| EvFs (snapshot : gmap string node)    (* the filesystem after a change *)
| EvUi (msg : string).

(** ** The world of one connection handler or one sender invocation *)

Record failure := Failure {
  failure_file : string;
  failure_expected : string;
  failure_received : string
}.

(** The local variables that [except] and [finally] blocks read after the
    guarded block has assigned them. *)
Record frame := Frame {
  temp_fd : option Z;             (* receive_file *)
  temp_filepath : option string;  (* receive_file *)
  temp_dir : option string;       (* receive_directory *)
  sock : bool                     (* send_file, send_directory: sock is not None *)
}.

Record world := World {
  w_fs : gmap string node;
  w_disk_free : Z;              (* bytes that can still be written *)
  w_disk_usage_ok : bool;       (* shutil.disk_usage succeeds *)
  w_tmp_names : list string;    (* random parts tried by mkstemp/mkdtemp *)
  w_clock : Z;                  (* time.time() *)
  w_sock : socket;
  w_failed : list failure;      (* failed_validations *)
  w_frame : frame
}.

Definition set_fs (fs : gmap string node) (w : world) : world :=
  World fs (w_disk_free w) (w_disk_usage_ok w) (w_tmp_names w) (w_clock w)
        (w_sock w) (w_failed w) (w_frame w).

Definition set_disk_free (n : Z) (w : world) : world :=
  World (w_fs w) n (w_disk_usage_ok w) (w_tmp_names w) (w_clock w)
        (w_sock w) (w_failed w) (w_frame w).

Definition set_tmp_names (l : list string) (w : world) : world :=
  World (w_fs w) (w_disk_free w) (w_disk_usage_ok w) l (w_clock w)
        (w_sock w) (w_failed w) (w_frame w).

Definition set_sock (s : socket) (w : world) : world :=
  World (w_fs w) (w_disk_free w) (w_disk_usage_ok w) (w_tmp_names w)
        (w_clock w) s (w_failed w) (w_frame w).

Definition set_failed (l : list failure) (w : world) : world :=
  World (w_fs w) (w_disk_free w) (w_disk_usage_ok w) (w_tmp_names w)
        (w_clock w) (w_sock w) l (w_frame w).

Definition set_frame (f : frame) (w : world) : world :=
  World (w_fs w) (w_disk_free w) (w_disk_usage_ok w) (w_tmp_names w)
        (w_clock w) (w_sock w) (w_failed w) f.

Definition set_temp_fd (v : option Z) (w : world) : world :=
  let f := w_frame w in
  set_frame (Frame v (temp_filepath f) (temp_dir f) (sock f)) w.

Definition set_temp_filepath (v : option string) (w : world) : world :=
  let f := w_frame w in
  set_frame (Frame (temp_fd f) v (temp_dir f) (sock f)) w.

Definition set_temp_dir (v : option string) (w : world) : world :=
  let f := w_frame w in
  set_frame (Frame (temp_fd f) (temp_filepath f) v (sock f)) w.

Definition set_local_sock (v : bool) (w : world) : world :=
  let f := w_frame w in
  set_frame (Frame (temp_fd f) (temp_filepath f) (temp_dir f) v) w.

Definition set_timeout (t : option Z) (s : socket) : socket :=
  Socket t (sk_inbox s) (sk_tx_faults s) (sk_outbox s) (sk_create_fault s)
         (sk_connect_fault s) (sk_closed s).

Definition set_inbox (l : list rx_item) (s : socket) : socket :=
  Socket (sk_timeout s) l (sk_tx_faults s) (sk_outbox s) (sk_create_fault s)
         (sk_connect_fault s) (sk_closed s).

Definition set_tx (faults : list (option exn)) (out : list bytes) (s : socket) : socket :=
  Socket (sk_timeout s) (sk_inbox s) faults out (sk_create_fault s)
         (sk_connect_fault s) (sk_closed s).

Definition set_closed (s : socket) : socket :=
  Socket (sk_timeout s) (sk_inbox s) (sk_tx_faults s) (sk_outbox s)
         (sk_create_fault s) (sk_connect_fault s) true.

(** ** The monad of Python computations

    A computation maps a world to a result, the world it leaves and the
    events it produced.  [Fuel] marks a loop of the model that ran out of
    its iteration budget; the loops below are given budgets under which
    this does not happen. *)

Inductive result (A : Type) :=
| Ret (a : A)
| Raise (e : exn)
| Fuel.
Arguments Ret {A} a.
Arguments Raise {A} e.
Arguments Fuel {A}.

Record outcome (A : Type) := Outcome {
  res : result A;
  st : world;
  tr : list event
}.
Arguments Outcome {A} res st tr.
Arguments res {A} o.
Arguments st {A} o.
Arguments tr {A} o.

Definition Py (A : Type) : Type := world -> outcome A.

Definition ret {A} (a : A) : Py A := fun w => Outcome (Ret a) w [].

Definition raise {A} (e : exn) : Py A := fun w => Outcome (Raise e) w [].

Definition out_of_fuel {A} : Py A := fun w => Outcome Fuel w [].

(** [prepend t o]: the outcome [o] reached after the events [t]. *)
Definition prepend {A} (t : list event) (o : outcome A) : outcome A :=
  match o with
  | Outcome r w t' => Outcome r w (t ++ t')
  end.

Definition bind {A B} (m : Py A) (k : A -> Py B) : Py B := fun w =>
  match m w with
  | Outcome (Ret a) w1 t1 => prepend t1 (k a w1)
  | Outcome (Raise e) w1 t1 => Outcome (Raise e) w1 t1
  | Outcome Fuel w1 t1 => Outcome Fuel w1 t1
  end.

(** [try: m  except Exception as e: h e].  A handler that does not match
    the exception re-raises it. *)
Definition try_except {A} (m : Py A) (h : exn -> Py A) : Py A := fun w =>
  match m w with
  | Outcome (Raise e) w1 t1 => prepend t1 (h e w1)
  | o => o
  end.

(** [try: m  except: pass]. *)
Definition ignore_errors (m : Py unit) : Py unit :=
  try_except m (fun _ => ret tt).

(** [try: m  finally: f].  An exception of [f] replaces the result. *)
Definition try_finally {A} (m : Py A) (f : Py unit) : Py A := fun w =>
  match m w with
  | Outcome r w1 t1 =>
      prepend t1
        match f w1 with
        | Outcome (Ret _) w2 t2 => Outcome r w2 t2
        | Outcome (Raise e) w2 t2 => Outcome (Raise e) w2 t2
        | Outcome Fuel w2 t2 => Outcome Fuel w2 t2
        end
  end.

Definition gets {A} (f : world -> A) : Py A := fun w => Outcome (Ret (f w)) w [].

Definition modify (f : world -> world) : Py unit := fun w => Outcome (Ret tt) (f w) [].

Definition emit (e : event) : Py unit := fun w => Outcome (Ret tt) w [e].

Declare Scope py_scope.
Delimit Scope py_scope with py.
Notation "x <- m ;; k" := (bind m (fun x => k))
  (at level 100, m at next level, right associativity) : py_scope.
Notation "m ;; k" := (bind m (fun _ => k))
  (at level 100, right associativity) : py_scope.
Local Open Scope py_scope.

(** [when c m]: [if c: m]. *)
Definition when (c : bool) (m : Py unit) : Py unit := if c then m else ret tt.

(** The screen. *)
Definition ui (msg : string) : Py unit := emit (EvUi msg).

(** ** Socket primitives *)

Definition sock_gettimeout : Py (option Z) := gets (fun w => sk_timeout (w_sock w)).

Definition sock_settimeout (t : option Z) : Py unit :=
  modify (fun w => set_sock (set_timeout t (w_sock w)) w) ;;
  emit (EvSetTimeout t).

(** What [recv(n)] returns from the script: at most [n] bytes of the next
    segment, [b''] once the peer has closed, or the scripted exception. *)
Fixpoint rx_take (n : nat) (inbox : list rx_item) : (exn + bytes) * list rx_item :=
  match inbox with
  | [] => (inr [], [])
  | RxFault e :: rest => (inl e, rest)
  | RxSeg [] :: rest => rx_take n rest
  | RxSeg data :: rest =>
      if Nat.leb (length data) n then (inr data, rest)
      else (inr (take n data), RxSeg (drop n data) :: rest)
  end.

(** [sock.recv(n)] inside directory entry [entry] (if any). *)
Definition sock_recv (entry : option nat) (n : Z) : Py bytes := fun w =>
  let s := w_sock w in
  if n <? 0
  then Outcome (Raise (Exn ValueError None "negative buffersize in recv")) w []
  else
    let '(r, inbox') := rx_take (Z.to_nat n) (sk_inbox s) in
    let w' := set_sock (set_inbox inbox' s) w in
    match r with
    | inr data => Outcome (Ret data) w' [EvRecv entry n (sk_timeout s) data]
    | inl e => Outcome (Raise e) w' [EvRecvFault entry n (sk_timeout s) e]
    end.

(** [sock.send(data)] and [sock.sendall(data)]: the next scripted outcome
    decides; a successful write transmits all of [data]. *)
Definition sock_send (entry : option nat) (data : bytes) : Py unit := fun w =>
  let s := w_sock w in
  match sk_tx_faults s with
  | Some e :: rest =>
      Outcome (Raise e) (set_sock (set_tx rest (sk_outbox s) s) w)
              [EvSend entry data false]
  | None :: rest =>
      Outcome (Ret tt) (set_sock (set_tx rest (sk_outbox s ++ [data]) s) w)
              [EvSend entry data true]
  | [] =>
      Outcome (Ret tt) (set_sock (set_tx [] (sk_outbox s ++ [data]) s) w)
              [EvSend entry data true]
  end.

Definition sock_close : Py unit :=
  modify (fun w => set_sock (set_closed (w_sock w)) w) ;;
  emit EvClose.

(** [network.create_socket(local_ip)]: the module is not part of the
    sources; it yields the socket of the world or raises. *)
Definition create_socket : Py unit :=
  fault <- gets (fun w => sk_create_fault (w_sock w)) ;;
  match fault with
  | Some e => raise e
  | None => emit EvCreateSocket
  end.

Definition sock_connect : Py unit :=
  fault <- gets (fun w => sk_connect_fault (w_sock w)) ;;
  match fault with
  | Some e => raise e
  | None => emit EvConnect
  end.

(** ** Filesystem primitives *)

Definition put_fs (fs : gmap string node) : Py unit :=
  modify (set_fs fs) ;; emit (EvFs fs).

Definition os_path_exists (p : string) : Py bool :=
  gets (fun w => bool_decide (is_Some (w_fs w !! p))).

Definition os_path_isdir (p : string) : Py bool :=
  gets (fun w => is_dir (w_fs w !! p)).

Definition ENOENT : exn := Exn OSError (Some 2) "No such file or directory".
Definition EISDIR : exn := Exn OSError (Some 21) "Is a directory".
Definition ENOTDIR : exn := Exn OSError (Some 20) "Not a directory".
Definition EEXIST : exn := Exn OSError (Some 17) "File exists".
Definition ENOSPC : exn := Exn OSError (Some 28) "No space left on device".

(** [os.path.getsize(p)]. *)
Definition os_path_getsize (entry : option nat) (p : string) : Py Z :=
  fs <- gets w_fs ;;
  match fs !! p with
  | Some (File c) => emit (EvGetsize entry p (len c)) ;; ret (len c)
  | Some Dir => emit (EvGetsize entry p 4096) ;; ret 4096
  | None => raise ENOENT
  end.

(** [os.remove(p)]. *)
Definition os_remove (p : string) : Py unit :=
  fs <- gets w_fs ;;
  match fs !! p with
  | Some (File c) =>
      modify (fun w => set_disk_free (w_disk_free w + len c) w) ;;
      emit (EvRemove p) ;; put_fs (delete p fs)
  | Some Dir => raise EISDIR
  | None => raise ENOENT
  end.

(** [open(p, 'wb')]: create or truncate. *)
Definition open_wb (entry : option nat) (p : string) : Py unit :=
  fs <- gets w_fs ;;
  match fs !! p with
  | Some Dir => raise EISDIR
  | Some (File c) =>
      modify (fun w => set_disk_free (w_disk_free w + len c) w) ;;
      emit (EvOpen entry p) ;; put_fs (<[p := File []]> fs)
  | None => emit (EvOpen entry p) ;; put_fs (<[p := File []]> fs)
  end.

(** [f.write(chunk)] on the file opened at [p]. *)
Definition file_write (p : string) (chunk : bytes) : Py unit :=
  fs <- gets w_fs ;;
  free <- gets w_disk_free ;;
  match fs !! p with
  | Some (File c) =>
      if free <? len chunk then raise ENOSPC
      else modify (set_disk_free (free - len chunk)) ;;
           emit (EvWrite p chunk) ;;
           put_fs (<[p := File (c ++ chunk)]> fs)
  | _ => raise ENOENT
  end.

(** The content [open(p, 'rb')] gives access to. *)
Definition open_rb (p : string) : Py bytes :=
  fs <- gets w_fs ;;
  match fs !! p with
  | Some (File c) => ret c
  | Some Dir => raise EISDIR
  | None => raise ENOENT
  end.

(** The first candidate [dir/prefix<random>suffix] that is free, and the
    random parts left. *)
Fixpoint fresh_name (fs : gmap string node) (dir pre suf : string)
    (names : list string) : option (string * list string) :=
  match names with
  | [] => None
  | r :: rest =>
      let p := path_join dir (pre +:+ r +:+ suf) in
      match fs !! p with
      | None => Some (p, rest)
      | Some _ => fresh_name fs dir pre suf rest
      end
  end.

(** [tempfile.mkstemp(dir=, prefix=, suffix=)]: creates an empty file under
    a name that was free; [FileExistsError] when no candidate is. *)
Definition mkstemp (dir pre suf : string) : Py (Z * string) :=
  fs <- gets w_fs ;;
  names <- gets w_tmp_names ;;
  match fresh_name fs dir pre suf names with
  | None => modify (set_tmp_names []) ;; raise EEXIST
  | Some (p, rest) =>
      modify (set_tmp_names rest) ;;
      emit (EvMkstemp p) ;;
      put_fs (<[p := File []]> fs) ;;
      ret (3, p)
  end.

(** [tempfile.mkdtemp(dir=, prefix=, suffix=)]. *)
Definition mkdtemp (dir pre suf : string) : Py string :=
  fs <- gets w_fs ;;
  names <- gets w_tmp_names ;;
  match fresh_name fs dir pre suf names with
  | None => modify (set_tmp_names []) ;; raise EEXIST
  | Some (p, rest) =>
      modify (set_tmp_names rest) ;;
      emit (EvMkdtemp p) ;;
      put_fs (<[p := Dir]> fs) ;;
      ret p
  end.

Definition node_size (n : node) : Z :=
  match n with File c => len c | Dir => 0 end.

(** The bytes stored below directory [p]. *)
Definition tree_size (p : string) (fs : gmap string node) : Z :=
  fold_right Z.add 0
    (map (fun kv => if under p (fst kv) then node_size (snd kv) else 0)
         (map_to_list fs)).

(** Renaming a directory moves everything below it. *)
Definition rename_tree (src dst : string) (fs : gmap string node) : gmap string node :=
  list_to_map (map (fun kv => (rekey src dst (fst kv), snd kv)) (map_to_list fs)).

(** [shutil.move(src, dst)] within one filesystem: a rename.  When [dst]
    is an existing directory the source is moved inside it. *)
Definition shutil_move (src dst : string) : Py unit :=
  fs <- gets w_fs ;;
  let real_dst := if is_dir (fs !! dst) then path_join dst (basename src) else dst in
  match fs !! src with
  | None => raise ENOENT
  | Some n =>
      if is_dir (fs !! dst) && bool_decide (is_Some (fs !! real_dst))
      then raise EEXIST
      else
        match n, fs !! real_dst with
        | File c, _ =>
            emit (EvMove src real_dst) ;;
            put_fs (<[real_dst := File c]> (delete src fs))
        | Dir, None =>
            emit (EvMove src real_dst) ;;
            put_fs (rename_tree src real_dst fs)
        | Dir, Some _ => raise ENOTDIR
        end
  end.

(** [shutil.rmtree(p)]. *)
Definition shutil_rmtree (p : string) : Py unit :=
  fs <- gets w_fs ;;
  match fs !! p with
  | Some Dir =>
      modify (fun w => set_disk_free (w_disk_free w + tree_size p fs) w) ;;
      emit (EvRmtree p) ;;
      put_fs (filter (fun kv => negb (under p (fst kv)) = true) (delete p fs))
  | Some (File _) => raise ENOTDIR
  | None => raise ENOENT
  end.

(** [shutil.disk_usage(path)]: [(total, used, free)]. *)
Definition shutil_disk_usage : Py (Z * Z * Z) :=
  ok <- gets w_disk_usage_ok ;;
  free <- gets w_disk_free ;;
  if ok then ret (free, 0, free) else raise (Exn OSError None "disk_usage").

(** ** Manifests

    The decoded JSON object.  The keys the engines read unconditionally
    are fields; [hash_algorithm] is read with [.get] and the [hash] of a
    directory entry is tested with [in], so both are optional. *)

Record file_entry := FileEntry {
  fe_path : string;
  fe_full_path : string;
  fe_size : Z;
  fe_hash : option string
}.

Record metadata := Metadata {
  md_type : string;
  md_name : string;
  md_hash_algorithm : option string;
  md_timestamp : Z;
  md_size : Z;                    (* file *)
  md_hash : string;               (* file *)
  md_files : list file_entry;     (* directory *)
  md_total_files : Z;             (* directory *)
  md_total_size : Z               (* directory *)
}.

(** ** Configuration and libraries *)

(** The values read from [config.json]. *)
Class Config := {
  BUFFER_SIZE : Z;
  RECEIVED_DIR : string;
  HASH_ALGORITHM : string;
  SKIP_HASH_VERIFICATION : bool;
  TRANSFER_TYPES_FILE : string;
  TRANSFER_TYPES_DIRECTORY : string
}.

(** [hashlib] and [json]: [hashlib_new a] is [None] when the algorithm is
    not supported ([ValueError]); [json_loads] is [None] on malformed
    input. *)
Class Libs := {
  hashlib_new : string -> option (bytes -> string);
  json_dumps : metadata -> bytes;
  json_loads : bytes -> option metadata
}.

(** ** utils.py *)

Section Utils.
Context `{cfg : Config} `{libs : Libs}.

(** [calculate_file_hash(filepath)].  The digest is fed in chunks of
    [HASH_CHUNK_SIZE] (taken positive); the result is the digest of the
    whole content. *)
Definition calculate_file_hash (filepath : string) : Py string :=
  match hashlib_new HASH_ALGORITHM with
  | None => raise (Exn ValueError None ("Unsupported hash algorithm: " +:+ HASH_ALGORITHM))
  | Some h =>
      content <- open_rb filepath ;;
      emit (EvHash filepath) ;;
      ret (h content)
  end.

(** [os.makedirs(path, exist_ok=True)]. *)
Definition os_makedirs (path : string) : Py unit :=
  fs <- gets w_fs ;;
  match fs !! path with
  | None => put_fs (<[path := Dir]> fs)
  | Some Dir => ret tt
  | Some (File _) => raise EEXIST
  end.

(** [except FileExistsError]. *)
Definition is_file_exists_error (e : exn) : bool :=
  is_os_error e && bool_decide (exn_errno e = Some 17).

(** [ensure_directory(path)]; [os.path.normpath] is the identity on the
    paths of the model.  The budget bounds the recursion on parents. *)
Fixpoint ensure_directory_rec (fuel : nat) (path : string) : Py unit :=
  if String.eqb path "" then ret tt
  else
    try_except
      (ex <- os_path_exists path ;;
       when (negb ex) (os_makedirs path) ;;
       isd <- os_path_isdir path ;;
       if negb isd
       then raise (Exn OSError None ("Path exists but is not a directory: " +:+ path))
       else
         let test_file := path_join path ".write_test" in
         try_except
           (open_wb None test_file ;;
            file_write test_file (b_ "test") ;;
            os_remove test_file)
           (fun e =>
              if is_os_error e
              then raise (Exn OSError None ("Directory not writable: " +:+ path))
              else raise e))
      (fun e =>
         if is_file_exists_error e then ret tt
         else if is_os_error e then
           if bool_decide (exn_errno e = Some 3) then
             let parent := dirname path in
             if negb (String.eqb parent "") && negb (String.eqb parent path)
             then match fuel with
                  | O => out_of_fuel
                  | S fuel' => ensure_directory_rec fuel' parent ;; os_makedirs path
                  end
             else raise (Exn OSError None ("Cannot create directory: " +:+ path))
           else raise (Exn OSError None ("Cannot create directory: " +:+ path))
         else raise (Exception ("Unexpected error creating directory " +:+ path))).

Definition ensure_directory (path : string) : Py unit :=
  ensure_directory_rec (String.length path) path.

(** [get_disk_usage(path)]: [None] when the usage cannot be determined. *)
Definition get_disk_usage (path : string) : Py (option (Z * Z * Z)) :=
  try_except (ensure_directory path) (fun _ => ret tt) ;;
  try_except (u <- shutil_disk_usage ;; ret (Some u)) (fun _ => ret None).

(** [collect_directory_files(dir_path)]: the regular files below
    [dir_path], in the order the filesystem enumerates them. *)
Definition collect_directory_files (dir_path : string) : Py (list file_entry * Z) :=
  fs <- gets w_fs ;;
  let files_info :=
    omap (fun kv =>
            match snd kv with
            | File c =>
                if under dir_path (fst kv)
                then Some (FileEntry
                             (String.substring (S (String.length dir_path))
                                               (String.length (fst kv)) (fst kv))
                             (fst kv) (len c) None)
                else None
            | Dir => None
            end)
         (map_to_list fs) in
  ret (files_info, fold_right Z.add 0 (map fe_size files_info)).

End Utils.

(** ** receiver.py *)

Section Receiver.
Context `{cfg : Config} `{libs : Libs}.

(** [recv_exact(sock, size)].  Every iteration but the last appends at
    least one byte, so [size] iterations suffice. *)
Fixpoint recv_exact_loop (fuel : nat) (size : Z) (data : bytes) : Py (option bytes) :=
  if len data <? size then
    match fuel with
    | O => out_of_fuel
    | S fuel' =>
        chunk <- sock_recv None (size - len data) ;;
        if is_empty chunk then ret None
        else recv_exact_loop fuel' size (data ++ chunk)
    end
  else ret (Some data).

Definition recv_exact (size : Z) : Py (option bytes) :=
  recv_exact_loop (Z.to_nat size) size [].

(** [_verify_file_hash(filepath, expected_hash, failed_validations,
    validation_lock, ui)]. *)
Definition _verify_file_hash (filepath expected_hash : string) : Py bool :=
  if SKIP_HASH_VERIFICATION then ret true
  else
    ui "Verifying file integrity..." ;;
    received_hash <- calculate_file_hash filepath ;;
    if String.eqb received_hash expected_hash then ret true
    else
      modify (fun w =>
        set_failed (w_failed w ++
                    [Failure filepath
                             (str_prefix 16 expected_hash +:+ "...")
                             (str_prefix 16 received_hash +:+ "...")]) w) ;;
      ret false.

(** The [while received < file_info['size']] loop of [receive_file]. *)
Fixpoint receive_file_loop (fuel : nat) (size : Z) (temp : string) (received : Z) : Py unit :=
  if received <? size then
    match fuel with
    | O => out_of_fuel
    | S fuel' =>
        chunk <- sock_recv None (Z.min BUFFER_SIZE (size - received)) ;;
        if is_empty chunk
        then raise (Exception "Connection lost during file transfer")
        else
          file_write temp chunk ;;
          receive_file_loop fuel' size temp (received + len chunk)
    end
  else ret tt.

(** The [except Exception] block of [receive_file]. *)
Definition receive_file_cleanup (final_filepath : string) (e : exn) : Py unit :=
  ui ("Error receiving file: " +:+ exn_text e) ;;
  tp <- gets (fun w => temp_filepath (w_frame w)) ;;
  match tp with
  | Some p =>
      ex <- os_path_exists p ;;
      when (negb (String.eqb p "") && ex) (ignore_errors (os_remove p))
  | None => ret tt
  end ;;
  ex <- os_path_exists final_filepath ;;
  when ex (ignore_errors (os_remove final_filepath)).

(** The [try] block of [receive_file]. *)
Definition receive_file_guarded (file_info : metadata) (final_filepath : string) : Py unit :=
  r <- mkstemp RECEIVED_DIR ("." +:+ md_name file_info +:+ "_") ".tmp" ;;
  modify (set_temp_fd (Some (fst r))) ;;
  modify (set_temp_filepath (Some (snd r))) ;;
  (* with os.fdopen(temp_fd, 'wb') as f: temp_fd = None *)
  modify (set_temp_fd None) ;;
  receive_file_loop (Z.to_nat (md_size file_info)) (md_size file_info) (snd r) 0 ;;
  hash_valid <- _verify_file_hash (snd r) (md_hash file_info) ;;
  shutil_move (snd r) final_filepath ;;
  modify (set_temp_filepath None) ;;
  (if hash_valid : bool
   then ui ("File received and verified: " +:+ final_filepath)
   else ui ("File received but integrity check failed: " +:+ final_filepath)) ;;
  sock_send None DONE.

(** Lines 330-385 of [receive_file]: the guarded block, its handler and
    its [finally] clause. *)
Definition receive_file_flow (file_info : metadata) (final_filepath : string) : Py unit :=
  try_finally
    (try_except
       (receive_file_guarded file_info final_filepath)
       (receive_file_cleanup final_filepath))
    (fd <- gets (fun w => temp_fd (w_frame w)) ;;
     match fd with
     | Some _ => modify (set_temp_fd None)     (* os.close(temp_fd) *)
     | None => ret tt
     end).

(** [receive_file(client_socket, file_info, ui, failed_validations,
    validation_lock)]. *)
Definition receive_file (file_info : metadata) : Py unit :=
  ensure_directory RECEIVED_DIR ;;
  let final_filepath := path_join RECEIVED_DIR (md_name file_info) in
  modify (set_temp_fd None) ;;
  modify (set_temp_filepath None) ;;
  ui ("Receiving: " +:+ md_name file_info) ;;
  receive_file_flow file_info final_filepath.

(** [x in s] for strings. *)
Definition contains (needle s : string) : bool :=
  match String.index 0 needle s with Some _ => true | None => false end.

(** The [while file_received < file_size] loop of [receive_directory],
    with the classification of the exceptions of one iteration. *)
Fixpoint receive_entry_loop (fuel : nat) (i : nat) (file_info : file_entry)
    (file_path : string) (file_received : Z) : Py unit :=
  let file_size := fe_size file_info in
  if file_received <? file_size then
    match fuel with
    | O => out_of_fuel
    | S fuel' =>
        let remaining := file_size - file_received in
        let chunk_size := Z.min BUFFER_SIZE remaining in
        data <- try_except
          (sock_settimeout (Some 30) ;;
           data <- sock_recv (Some i) chunk_size ;;
           if is_empty data
           then raise (Exception ("Connection lost during " +:+ fe_path file_info
                                  +:+ " transfer at " +:+ pretty file_received
                                  +:+ "/" +:+ pretty file_size +:+ " bytes"))
           else file_write file_path data ;; ret data)
          (fun e =>
             if is_socket_timeout e
             then raise (Exn SocketTimeout None
                           ("Timeout receiving " +:+ fe_path file_info))
             else if is_os_error e
             then
               if bool_decide (exn_errno e = Some 10054)
               then raise (Exception ("Sender forcibly closed connection during "
                                      +:+ fe_path file_info))
               else raise (Exn OSError None
                             ("Network error receiving " +:+ fe_path file_info
                              +:+ " (error " +:+ error_code_text e +:+ "): "
                              +:+ exn_text e))
             else raise e) ;;
        receive_entry_loop fuel' i file_info file_path (file_received + len data)
    end
  else ret tt.

(** One iteration of [for i, file_info in enumerate(dir_info['files'], 1)].
    The counters [received_total] and [files_completed] only feed the
    screen and are not kept. *)
Definition receive_entry (tmp : string) (i : nat) (file_info : file_entry) : Py unit :=
  ui ("[" +:+ pretty i +:+ "] " +:+ fe_path file_info) ;;
  let file_path := path_join tmp (fe_path file_info) in
  try_except
    (ensure_directory (dirname file_path))
    (fun e => raise (Exception ("Failed to create directory structure for "
                                +:+ fe_path file_info +:+ ": " +:+ exn_text e))) ;;
  try_except
    (open_wb (Some i) file_path ;;
     receive_entry_loop (Z.to_nat (fe_size file_info)) i file_info file_path 0 ;;
     actual_size <- os_path_getsize (Some i) file_path ;;
     if negb (actual_size =? fe_size file_info)
     then raise (Exception ("Size mismatch for " +:+ fe_path file_info))
     else
       hash_valid <-
         match fe_hash file_info with
         | Some h =>
             if negb SKIP_HASH_VERIFICATION then _verify_file_hash file_path h
             else ret true
         | None => ret true
         end ;;
       (if hash_valid : bool
        then ui ("Hash Verified: " +:+ fe_path file_info)
        else ui ("Failed hash check: " +:+ fe_path file_info)) ;;
       try_except
         (sock_settimeout (Some 10) ;;
          sock_send (Some i) ACK2)
         (fun e => raise (Exception ("Failed to send acknowledgment for "
                                     +:+ fe_path file_info +:+ ": " +:+ exn_text e))))
    (fun e =>
       ui ("Error receiving " +:+ fe_path file_info +:+ ": " +:+ exn_text e) ;;
       raise e).

(** The [for] loop over the manifest's entries, numbered from [i]. *)
Fixpoint receive_entries (tmp : string) (i : nat) (files : list file_entry) : Py unit :=
  match files with
  | [] => ret tt
  | file_info :: rest =>
      receive_entry tmp i file_info ;;
      receive_entries tmp (S i) rest
  end.

(** The disk space check of [receive_directory]: [false] when the
    transfer is refused. *)
Definition check_disk_space (dir_info : metadata) : Py bool :=
  try_except
    (ensure_directory RECEIVED_DIR ;;
     disk_usage <- get_disk_usage RECEIVED_DIR ;;
     match disk_usage with
     | Some (_, _, free_space) =>
         let required_space := md_total_size dir_info in
         match times_1_1 required_space with
         | None => raise (Exn ValueError None "int too large to convert to float")
         | Some needed =>
             if int_lt_float free_space needed
             then
               ui "Insufficient disk space" ;;
               ignore_errors (sock_send None SPACE_ERROR) ;;
               ret false
             else ui "Available space" ;; ret true
         end
     | None => ui "Warning: Could not verify disk space" ;; ret true
     end)
    (fun e => ui ("Warning: Could not verify disk space: " +:+ exn_text e) ;; ret true).

(** [receive_directory(client_socket, dir_info, ui, failed_validations,
    validation_lock)]. *)
Definition receive_directory (dir_info : metadata) : Py unit :=
  let download_dir := path_join RECEIVED_DIR (md_name dir_info) in
  modify (set_temp_dir None) ;;
  ui ("Receiving Directory: " +:+ md_name dir_info) ;;
  proceed <- check_disk_space dir_info ;;
  if negb proceed then ret tt
  else
    try_finally
      (try_except
         (tmp <- mkdtemp RECEIVED_DIR ("." +:+ md_name dir_info +:+ "_") ".tmp" ;;
          modify (set_temp_dir (Some tmp)) ;;
          receive_entries tmp 1 (md_files dir_info) ;;
          try_except
            (ex <- os_path_exists download_dir ;;
             when ex (shutil_rmtree download_dir) ;;
             shutil_move tmp download_dir ;;
             modify (set_temp_dir None))
            (fun e => raise (Exception ("Failed to finalize directory move: "
                                        +:+ exn_text e))) ;;
          sent <- try_except
            (sock_settimeout (Some 10) ;; sock_send None DONE ;; ret true)
            (fun e =>
               ui "Directory received successfully but failed to send final acknowledgment" ;;
               ret false) ;;
          when sent (ui ("Directory received successfully: " +:+ download_dir)))
         (fun e =>
            if is_socket_timeout e
            then ui ("Timeout during directory transfer: " +:+ exn_text e)
            else if is_os_error e
            then
              if contains "No space left on device" (exn_text e)
                 || bool_decide (exn_errno e = Some 28)
              then ui "Transfer failed: Not enough disk space"
              else ui ("File system error: " +:+ exn_text e)
            else ui ("Error receiving directory: " +:+ exn_text e)))
      (tmp <- gets (fun w => temp_dir (w_frame w)) ;;
       match tmp with
       | Some p =>
           ex <- os_path_exists p ;;
           when (negb (String.eqb p "") && ex)
                (ignore_errors (shutil_rmtree p ;; ui "Cleaned up temporary files"))
       | None => ret tt
       end).

(** [_handle_hash_mismatch_non_blocking(ui, sender_algo)]: screen only. *)
Definition _handle_hash_mismatch_non_blocking (sender_algo : string) : Py unit :=
  ui ("Hash Algorithm Mismatch: sender is using " +:+ sender_algo).

(** The reply to the manifest (lines 217-241 of [handle_client]): [true]
    when the transfer goes on, [false] for the [return] after [MISMATCH]. *)
Definition negotiate (metadata : metadata) : Py bool :=
  let sender_algo := md_hash_algorithm metadata in
  match sender_algo with
  | Some algo =>
      if negb (String.eqb algo "")
         && negb (String.eqb (lower algo) (lower HASH_ALGORITHM))
      then
        if SKIP_HASH_VERIFICATION
        then
          ui "Hash algorithm mismatch. Skipping verification." ;;
          try_except
            (sock_send None ACK1)
            (fun e => raise (Exception ("Failed to send ACK1 after hash mismatch warning: "
                                        +:+ exn_text e))) ;;
          ret true
        else
          ignore_errors (sock_send None MISMATCH) ;;
          _handle_hash_mismatch_non_blocking algo ;;
          ret false
      else
        try_except
          (sock_send None ACK1)
          (fun e => raise (Exception ("Failed to send metadata acknowledgment: "
                                      +:+ exn_text e))) ;;
        ret true
  | None =>
      try_except
        (sock_send None ACK1)
        (fun e => raise (Exception ("Failed to send metadata acknowledgment: "
                                    +:+ exn_text e))) ;;
      ret true
  end.

(** The manifest phase of [handle_client] (lines 184-206): the length
    prefix, the body, the decoding. *)
Definition receive_metadata : Py metadata :=
  sock_settimeout (Some 30) ;;
  ui "Connected" ;;
  metadata_size_data <- recv_exact 4 ;;
  match metadata_size_data with
  | None | Some [] => raise (Exception "Failed to receive metadata size")
  | Some size_data =>
      let metadata_size := struct_unpack_I size_data in
      if 10 * 1024 * 1024 <? metadata_size
      then raise (Exception ("Metadata too large: " +:+ pretty metadata_size +:+ " bytes"))
      else
        metadata_data <- recv_exact metadata_size ;;
        match metadata_data with
        | None | Some [] => raise (Exception "Failed to receive metadata")
        | Some body =>
            match json_loads body with
            | None => raise (Exception "Invalid metadata JSON")
            | Some metadata => ret metadata
            end
        end
  end.

(** The transfer phase of [handle_client] (lines 243-260). *)
Definition dispatch (metadata : metadata) : Py unit :=
  try_except
    ((if String.eqb (md_type metadata) TRANSFER_TYPES_FILE
      then receive_file metadata
      else if String.eqb (md_type metadata) TRANSFER_TYPES_DIRECTORY
      then receive_directory metadata
      else raise (Exception ("Unknown transfer type: " +:+ md_type metadata))) ;;
     ui "Transfer completed")
    (fun e =>
       ui ("Transfer failed: " +:+ exn_text e) ;;
       raise e).

(** The [except] clauses of [handle_client]. *)
Definition handle_client_errors (e : exn) : Py unit :=
  if is_socket_timeout e
  then ui ("Timeout from client: " +:+ exn_text e)
  else if is_os_error e
  then
    if bool_decide (exn_errno e = Some 10054)
    then ui "Client forcibly closed connection"
    else ui ("Network error (code " +:+ error_code_text e +:+ "): " +:+ exn_text e)
  else ui ("Error handling client: " +:+ exn_text e).

(** [handle_client(client_socket, ui, failed_validations, validation_lock,
    addr)]. *)
Definition handle_client : Py unit :=
  try_finally
    (try_except
       (metadata <- receive_metadata ;;
        ui ("Receiving: " +:+ md_name metadata) ;;
        proceed <- negotiate metadata ;;
        if proceed : bool then dispatch metadata else ret tt)
       handle_client_errors)
    (ignore_errors sock_close).

End Receiver.

(** ** sender.py *)

Section Sender.
Context `{cfg : Config} `{libs : Libs}.

(** [_handle_hash_mismatch(ui, sock)]: screen only. *)
Definition _handle_hash_mismatch : Py unit := ui "Hash Algorithm Mismatch".

(** [if original_timeout is not None: sock.settimeout(original_timeout)]. *)
Definition restore_timeout (original_timeout : option Z) : Py unit :=
  match original_timeout with
  | Some t => sock_settimeout (Some t)
  | None => ret tt
  end.

(** [max(len(resp) for resp in expected_responses)] of a non-empty list. *)
Definition max_len (expected_responses : list bytes) : Z :=
  fold_right Z.max 0 (map len expected_responses).

(** [_receive_acknowledgment(sock, expected_responses, timeout=30)].  The
    module defines the function twice; the second definition (line 348)
    replaces the first when the module is loaded and is the one every call
    reaches. *)
Definition _receive_acknowledgment (entry : option nat)
    (expected_responses : list bytes) (timeout : Z) : Py (bool * bytes) :=
  original_timeout <- sock_gettimeout ;;
  try_finally
    (try_except
       (sock_settimeout (Some timeout) ;;
        match expected_responses with
        | [] => raise (Exn ValueError None "max() arg is an empty sequence")
        | _ =>
            let max_length := Z.min (max_len expected_responses) 1024 in
            response <- sock_recv entry max_length ;;
            restore_timeout original_timeout ;;
            match find (startswith response) expected_responses with
            | Some expected => ret (true, expected)
            | None => ret (false, response)
            end
        end)
       (fun e =>
          if is_socket_timeout e then ret (false, TIMEOUT)
          else if is_os_error e
          then ret (false, b_ ("SOCKET_ERROR_" +:+ error_code_text e +:+ "_" +:+ exn_text e))
          else ret (false, b_ (exn_text e))))
    (ignore_errors (restore_timeout original_timeout)).

(** [f.read(n)] at offset [pos] of [content]. *)
Definition file_read (content : bytes) (pos n : Z) : bytes :=
  if n <? 0 then drop (Z.to_nat pos) content
  else take (Z.to_nat n) (drop (Z.to_nat pos) content).

Definition bytes_eqb (x y : bytes) : bool := bool_decide (x = y).

(** The [while sent < file_size] loop of [send_file]. *)
Fixpoint send_file_loop (fuel : nat) (content : bytes) (file_size sent : Z) : Py unit :=
  if sent <? file_size then
    match fuel with
    | O => out_of_fuel
    | S fuel' =>
        let chunk := file_read content sent (Z.min BUFFER_SIZE (file_size - sent)) in
        if is_empty chunk then ret tt
        else
          try_except
            (sock_send None chunk)
            (fun e =>
               if is_socket_timeout e
               then raise (Exn SocketTimeout None "Timeout during file transfer")
               else if is_os_error e
               then raise (Exn OSError None ("Network error during transfer: " +:+ exn_text e))
               else raise e) ;;
          send_file_loop fuel' content file_size (sent + len chunk)
    end
  else ret tt.

(** [finally: if sock: sock.close()]. *)
Definition close_if_created : Py unit :=
  created <- gets (fun w => sock (w_frame w)) ;;
  when created (ignore_errors sock_close).

(** [struct.pack('!I', n)] as a computation. *)
Definition pack_length (n : Z) : Py bytes :=
  match struct_pack_I n with
  | Some hdr => ret hdr
  | None => raise (Exn ValueError None "'I' format requires 0 <= number <= 4294967295")
  end.

(** [send_file(filepath, target_ip, port, local_ip, ui)]. *)
Definition send_file (filepath : string) : Py bool :=
  ex <- os_path_exists filepath ;;
  if negb ex then ui ("File not found: " +:+ filepath) ;; ret false
  else
    let filename := basename filepath in
    file_size <- os_path_getsize None filepath ;;
    ui ("Sending File: " +:+ filename) ;;
    modify (set_local_sock false) ;;
    try_finally
      (try_except
         (create_socket ;;
          modify (set_local_sock true) ;;
          sock_settimeout (Some 30) ;;
          ui "Connecting..." ;;
          sock_connect ;;
          ui "Connected to receiver" ;;
          ui "Calculating file hash..." ;;
          file_hash <- calculate_file_hash filepath ;;
          now <- gets w_clock ;;
          let file_info :=
            Metadata TRANSFER_TYPES_FILE filename (Some HASH_ALGORITHM) now
                     file_size file_hash [] 0 0 in
          let metadata := json_dumps file_info in
          hdr <- pack_length (len metadata) ;;
          sock_send None hdr ;;
          sock_send None metadata ;;
          ack <- _receive_acknowledgment None [ACK1; MISMATCH] 30 ;;
          if negb (fst ack) then
            if bytes_eqb (snd ack) TIMEOUT
            then raise (Exn SocketTimeout None "Timeout waiting for metadata acknowledgment")
            else raise (Exception "Failed to receive metadata acknowledgment")
          else if bytes_eqb (snd ack) MISMATCH then
            _handle_hash_mismatch ;; ret false
          else
            content <- open_rb filepath ;;
            send_file_loop (Z.to_nat file_size) content file_size 0 ;;
            fin <- _receive_acknowledgment None [DONE] 30 ;;
            if negb (fst fin) then
              if bytes_eqb (snd fin) TIMEOUT
              then raise (Exn SocketTimeout None "Timeout waiting for completion acknowledgment")
              else raise (Exception "Failed to receive completion acknowledgment")
            else ui "File sent successfully!" ;; ret true)
         (fun e =>
            if is_socket_timeout e then ui ("Connection timeout: " +:+ exn_text e) ;; ret false
            else if is_connection_refused e then ui "Connection refused" ;; ret false
            else if is_os_error e then ui ("Network error: " +:+ exn_text e) ;; ret false
            else ui ("Error sending file: " +:+ exn_text e) ;; ret false))
      close_if_created.

(** The [while file_sent < file_info['size']] loop of [send_directory]. *)
Fixpoint send_entry_loop (fuel : nat) (i : nat) (file_info : file_entry)
    (content : bytes) (file_sent chunk_count : Z) : Py unit :=
  if file_sent <? fe_size file_info then
    match fuel with
    | O => out_of_fuel
    | S fuel' =>
        let chunk := file_read content file_sent
                       (Z.min BUFFER_SIZE (fe_size file_info - file_sent)) in
        if is_empty chunk then ret tt
        else
          try_except
            (sock_send (Some i) chunk ;;
             when ((chunk_count + 1) mod 100 =? 0)
                  (try_except
                     (sock_send (Some i) [])
                     (fun e =>
                        if is_os_error e
                        then raise (Exn OSError None
                                      ("Connection lost during " +:+ fe_path file_info))
                        else raise e)))
            (fun e =>
               if is_socket_timeout e
               then raise (Exn SocketTimeout None
                             ("Timeout during transfer of " +:+ fe_path file_info))
               else if is_os_error e
               then raise (Exn OSError None
                             ("Network error during transfer of " +:+ fe_path file_info
                              +:+ " (error " +:+ error_code_text e +:+ "): " +:+ exn_text e))
               else raise e) ;;
          send_entry_loop fuel' i file_info content (file_sent + len chunk) (chunk_count + 1)
    end
  else ret tt.

(** One iteration of [for i, file_info in enumerate(files_info, 1)] of
    [send_directory]. *)
Definition send_entry (i : nat) (file_info : file_entry) : Py unit :=
  ui ("[" +:+ pretty i +:+ "] " +:+ fe_path file_info) ;;
  try_except
    (try_except
       (sock_send (Some i) [])
       (fun e =>
          if is_os_error e
          then raise (Exn OSError None
                        ("Connection lost before sending " +:+ fe_path file_info
                         +:+ ": " +:+ exn_text e))
          else raise e) ;;
     content <- open_rb (fe_full_path file_info) ;;
     send_entry_loop (Z.to_nat (fe_size file_info)) i file_info content 0 0)
    (fun e =>
       if is_os_error e
       then raise (Exn OSError None
                     ("Error reading file " +:+ fe_path file_info +:+ ": " +:+ exn_text e))
       else raise e) ;;
  try_except
    (ack <- _receive_acknowledgment (Some i) [ACK2] 60 ;;
     if negb (fst ack) then
       if bytes_eqb (snd ack) TIMEOUT
       then raise (Exn SocketTimeout None
                     ("Timeout waiting for acknowledgment of " +:+ fe_path file_info))
       else raise (Exception ("Failed to receive acknowledgment for " +:+ fe_path file_info))
     else ret tt)
    (fun e =>
       raise (Exception ("Acknowledgment failed for " +:+ fe_path file_info
                         +:+ ". Error: " +:+ exn_text e))).

Fixpoint send_entries (i : nat) (files_info : list file_entry) : Py unit :=
  match files_info with
  | [] => ret tt
  | file_info :: rest => send_entry i file_info ;; send_entries (S i) rest
  end.

(** [send_directory(dir_path, target_ip, port, local_ip, ui)]. *)
Definition send_directory (dir_path : string) : Py bool :=
  isd <- os_path_isdir dir_path ;;
  if negb isd then ui ("Directory not found: " +:+ dir_path) ;; ret false
  else
    let dirname := basename dir_path in
    ui ("Sending Directory: " +:+ dirname) ;;
    modify (set_local_sock false) ;;
    try_finally
      (try_except
         (create_socket ;;
          modify (set_local_sock true) ;;
          sock_settimeout (Some 120) ;;
          (* sock.setsockopt(SOL_SOCKET, SO_KEEPALIVE, 1) *)
          ui "Connecting..." ;;
          sock_connect ;;
          ui "Scanning directory..." ;;
          scan <- collect_directory_files dir_path ;;
          let files_info := fst scan in
          let total_size := snd scan in
          if is_empty files_info
          then ui "No files found in directory" ;; ret false
          else
            now <- gets w_clock ;;
            let dir_info :=
              Metadata TRANSFER_TYPES_DIRECTORY dirname (Some HASH_ALGORITHM) now
                       0 "" files_info (len files_info) total_size in
            let metadata := json_dumps dir_info in
            hdr <- pack_length (len metadata) ;;
            sock_send None hdr ;;
            sock_send None metadata ;;
            ack <- _receive_acknowledgment None [ACK1; MISMATCH] 30 ;;
            if negb (fst ack) then
              if bytes_eqb (snd ack) TIMEOUT
              then raise (Exn SocketTimeout None "Timeout waiting for metadata acknowledgment")
              else raise (Exception "Failed to receive metadata acknowledgment")
            else if bytes_eqb (snd ack) MISMATCH then
              _handle_hash_mismatch ;; ret false
            else
              send_entries 1 files_info ;;
              fin <- _receive_acknowledgment None [DONE] 30 ;;
              if negb (fst fin) then
                if bytes_eqb (snd fin) TIMEOUT
                then raise (Exn SocketTimeout None
                              "Timeout waiting for final completion acknowledgment")
                else raise (Exception "Failed to receive final completion acknowledgment")
              else ui "Directory sent successfully!" ;; ret true)
         (fun e =>
            if is_socket_timeout e then ui ("Connection timeout: " +:+ exn_text e) ;; ret false
            else if is_connection_refused e then ui "Connection refused" ;; ret false
            else if is_os_error e then ui ("Network error: " +:+ exn_text e) ;; ret false
            else ui ("Error sending directory: " +:+ exn_text e) ;; ret false))
      close_if_created.

End Sender.

(** ** Observations on traces *)

(** The bytes the [recv] calls of a trace returned, in order. *)
Fixpoint received (t : list event) : bytes :=
  match t with
  | [] => []
  | EvRecv _ _ _ data :: rest => data ++ received rest
  | _ :: rest => received rest
  end.





(** ** Concrete worlds used in examples *)

Definition idle_socket : socket := Socket None [] [] [] None None false.

Definition empty_frame : frame := Frame None None None false.

Definition empty_world : world := World ∅ 0 true [] 0 idle_socket [] empty_frame.

Definition with_socket (t : option Z) (inbox : list rx_item) (w : world) : world :=
  set_sock (Socket t inbox [] [] None None false) w.

(** A socket in blocking mode on which the peer answers [ACK1]. *)
Definition blocking_world : world := with_socket None [RxSeg ACK1] empty_world.



(** ** A concrete configuration

    A toy digest and a toy manifest codec stand for [hashlib] and [json]
    in the examples; the theorems hold for every configuration and every
    such library. *)

Definition example_config : Config := {|
  BUFFER_SIZE := 4;
  RECEIVED_DIR := "received";
  HASH_ALGORITHM := "sha256";
  SKIP_HASH_VERIFICATION := false;
  TRANSFER_TYPES_FILE := "file";
  TRANSFER_TYPES_DIRECTORY := "directory"
|}.

Definition toy_digest (data : bytes) : string :=
  pretty (fold_left (fun acc c => (acc * 31 + Z.of_N (Byte.to_N c)) mod 65521) data 7).

(** The manifest of a file [a.txt] of three bytes, with a digest; the toy
    codec writes a manifest as its name and reads only this one back. *)
Definition example_manifest (algo : option string) (size : Z) (digest : string) : metadata :=
  Metadata "file" "a.txt" algo 0 size digest [] 0 0.

Definition example_libs (decoded : metadata) : Libs := {|
  hashlib_new := fun a => if String.eqb (lower a) "sha256" then Some toy_digest else None;
  json_dumps := fun md => b_ (md_name md);
  json_loads := fun body => if bool_decide (body = b_ "a.txt") then Some decoded else None
|}.

(** A sender whose disk holds [a.txt] and whose peer answers with the
    segments [replies]. *)
Definition sender_world (replies : list rx_item) : world :=
  with_socket None replies
    (set_fs (<["a.txt" := File (b_ "abc")]> ∅) empty_world).


(** A send or a receive on the socket. *)
Definition is_transfer (ev : event) : bool :=
  match ev with
  | EvSend _ _ _ | EvRecv _ _ _ _ | EvRecvFault _ _ _ _ => true
  | _ => false
  end.

Definition is_connect (ev : event) : bool :=
  match ev with EvConnect => true | _ => false end.

(** [calculate_file_hash(path)] has returned. *)
Definition is_hash_of (path : string) (ev : event) : bool :=
  match ev with EvHash p => String.eqb p path | _ => false end.

(** In trace [t], every event satisfying [later] comes after some event
    satisfying [earlier]. *)
Definition preceded_by (earlier later : event -> bool) (t : list event) : Prop :=
  forall pre ev post,
    t = pre ++ ev :: post -> later ev = true ->
    exists ev', In ev' pre /\ earlier ev' = true.


(** Neither a transfer nor the completion of the hash of [path]. *)
Definition calm (path : string) (ev : event) : bool :=
  negb (is_transfer ev) && negb (is_hash_of path ev).


(** Connect, send or receive. *)
Definition is_network_io (ev : event) : bool := is_connect ev || is_transfer ev.

(** [send_file("a.txt", ...)] against a receiver that accepts the file. *)
Definition example_send_run : outcome bool :=
  @send_file example_config (example_libs (example_manifest None 0 ""))
             "a.txt" (sender_world [RxSeg ACK1; RxSeg DONE]).


(** Everything but the socket is as before. *)
Definition only_socket_changed (w w' : world) : Prop :=
  w' = set_sock (w_sock w') w.


Definition is_send (ev : event) : bool :=
  match ev with EvSend _ _ _ => true | _ => false end.




(** The wire image of the toy manifest: the length prefix [5], then the
    five bytes of [a.txt]. *)
Definition manifest_segments : list rx_item :=
  [RxSeg ["000"%byte; "000"%byte; "000"%byte; "005"%byte]; RxSeg (b_ "a.txt")].



(** What may be seen under the final name while a file of [size] bytes is
    received: a regular file there is either the one that was there
    before ([fs0]) or has all the declared bytes. *)
Definition visible_ok (fs0 : gmap string node) (final : string) (size : Z)
    (fs : gmap string node) : Prop :=
  forall d, fs !! final = Some (File d) ->
            fs0 !! final = Some (File d) \/ len d = Z.max 0 size.

(** Every filesystem state a trace went through satisfies [P]. *)
Definition snapshots (P : gmap string node -> Prop) (t : list event) : Prop :=
  forall fs, In (EvFs fs) t -> P fs.


(** The bytes a computation received. *)
Definition received_bytes_of {A} (o : outcome A) : bytes := received (tr o).


(** What holds of a stage of [receive_file]: it ends within its budget,
    every filesystem state it went through and the one it leaves satisfy
    [V], and ending normally means that [DONE] was written last. *)
Definition flow_post (V : gmap string node -> Prop) (o : outcome unit) : Prop :=
  res o <> Fuel /\
  snapshots V (tr o) /\
  V (w_fs (st o)) /\
  (res o = Ret tt -> exists pre, tr o = pre ++ [EvSend None DONE true]).


(** The lines a run showed on the screen, in order. *)
Definition ui_messages (t : list event) : list string :=
  omap (fun ev => match ev with EvUi msg => Some msg | _ => None end) t.

(** A receiver with room on its disk and one staging name to hand out,
    whose peer delivers [segments] and then closes the connection. *)
Definition staged_world (segments : list rx_item) : world :=
  set_tmp_names ["r1"] (set_disk_free 100 (with_socket None segments empty_world)).

(** The manifest of [a.txt] declaring three bytes under [sha256]. *)
Definition three_byte_manifest (digest : string) : metadata :=
  example_manifest (Some "sha256") 3 digest.

(** The peer announces three bytes, sends two, and closes. *)
Definition truncated_transfer : outcome unit :=
  @handle_client example_config (example_libs (three_byte_manifest "x"))
    (staged_world (manifest_segments ++ [RxSeg (b_ "ab")])).


(** The bytes the peer delivers before a fault or the end of the stream. *)
Fixpoint payload_of (inbox : list rx_item) : bytes :=
  match inbox with
  | RxSeg data :: rest => data ++ payload_of rest
  | _ => []
  end.

(** The next write on the socket is not scripted to fail. *)
Definition next_write_ok (s : socket) : bool :=
  match sk_tx_faults s with
  | Some _ :: _ => false
  | _ => true
  end.


(** ** Properties of all the events of a computation *)

(** Whatever the state it starts from, [m] only produces events that
    satisfy [P]. *)
Definition emits {A} (P : event -> Prop) (m : Py A) : Prop :=
  forall w, Forall P (tr (m w)).

Definition is_mkdtemp (ev : event) : bool :=
  match ev with EvMkdtemp _ => true | _ => false end.

(** The directory entry during which a socket or file operation of the
    directory loops happens. *)
Definition entry_of (ev : event) : option nat :=
  match ev with
  | EvRecv e _ _ _ | EvRecvFault e _ _ _ | EvSend e _ _
  | EvOpen e _ | EvGetsize e _ _ => e
  | _ => None
  end.

(** The events of a directory check: files opened outside any entry,
    written, removed. *)
Definition is_probe (ev : event) : bool :=
  match ev with
  | EvOpen None _ | EvWrite _ _ | EvRemove _ | EvFs _ => true
  | _ => false
  end.


(** A write of [SPACE_ERROR]. *)
Definition is_space_error (ev : event) : bool :=
  match ev with
  | EvSend _ data _ => bool_decide (data = SPACE_ERROR)
  | _ => false
  end.

(** The manifest of an empty directory [d] announcing [total] bytes. *)
Definition sized_manifest (total : Z) : metadata :=
  Metadata "directory" "d" (Some "sha256") 0 0 "" [] 0 total.

(** A receiver with [free] bytes left on its disk and one staging name. *)
Definition roomy_world (free : Z) : world :=
  set_tmp_names ["r1"] (set_disk_free free empty_world).

(** [receive_directory] for [total] announced bytes with [free] bytes
    left. *)
Definition boundary_run (total free : Z) : outcome unit :=
  @receive_directory example_config (example_libs (sized_manifest total))
    (sized_manifest total) (roomy_world free).


(** ** The order of a directory transfer *)

(** The bytes read during directory entry [i]. *)
Fixpoint received_in (i : nat) (t : list event) : bytes :=
  match t with
  | [] => []
  | EvRecv (Some j) _ _ data :: rest =>
      if Nat.eqb i j then data ++ received_in i rest else received_in i rest
  | _ :: rest => received_in i rest
  end.

(** An event outside the entries or inside entry [i]. *)
Definition within_entry (i : nat) (ev : event) : Prop :=
  entry_of ev = None \/ entry_of ev = Some i.

(** The receiver has acknowledged entry [i]. *)
Definition ack_sent (i : nat) (ev : event) : Prop :=
  ev = EvSend (Some i) ACK2 true.

(** The sender has read the acknowledgment of entry [i]. *)
Definition ack_read (i : nat) (ev : event) : Prop :=
  exists n tmo data, ev = EvRecv (Some i) n tmo data /\ startswith data ACK2 = true.

(** In the trace [t] of a loop over entries numbered from [lo]: no entry
    below [lo] occurs, and an event of entry [j] comes only after entry
    [i] is [done], for every [i] from [lo] to [j - 1]. *)
Definition in_entry_order (done : nat -> event -> Prop) (lo : nat) (t : list event) : Prop :=
  forall pre ev post j,
    t = pre ++ ev :: post -> entry_of ev = Some j ->
    (lo <= j)%nat /\
    forall i, (lo <= i < j)%nat -> exists ev', In ev' pre /\ done i ev'.

(** In the trace [t] of the receiving loop over [files], numbered from
    [lo] and stored below [tmp]: when [ACK2] is written for entry [i], the
    bytes read for it number its declared size and the size on disk has
    been read and is the declared one. *)
Definition ack_after_validation (tmp : string) (lo : nat) (files : list file_entry)
    (t : list event) : Prop :=
  forall pre data ok post i,
    t = pre ++ EvSend (Some i) data ok :: post ->
    data = ACK2 /\
    exists fi,
      files !! (i - lo)%nat = Some fi /\
      len (received_in i pre) = fe_size fi /\
      In (EvGetsize (Some i) (path_join tmp (fe_path fi)) (fe_size fi)) pre.

(** What the trace [t] of one entry that ended with [r] looks like: either
    nothing was written on the socket and the entry failed, or the only
    write is [ACK2], after the bytes and the size check. *)
Definition entry_shape (tmp : string) (i : nat) (file_info : file_entry)
    (r : result unit) (t : list event) : Prop :=
  (r <> Ret tt /\ Forall (fun ev => is_send ev = false) t) \/
  (exists Q ok tail,
     t = Q ++ EvSend (Some i) ACK2 ok :: tail /\
     Forall (fun ev => is_send ev = false) Q /\
     Forall (fun ev => is_send ev = false) tail /\
     len (received_in i Q) = fe_size file_info /\
     In (EvGetsize (Some i) (path_join tmp (fe_path file_info)) (fe_size file_info)) Q /\
     (r = Ret tt -> ok = true)).


(** ** Computations that let no exception out *)

Definition never_raises {A} (m : Py A) : Prop :=
  forall w e, res (m w) <> Raise e.


(** Computations that end within the budgets of their loops. *)
Definition ends {A} (m : Py A) : Prop :=
  forall w, res (m w) <> Fuel.



(** * Properties *)

(** ** Basic facts *)

Lemma len_app {A} (x y : list A) : len (x ++ y) = len x + len y.
Proof. unfold len. rewrite length_app. lia. Qed.

Lemma len_nonneg {A} (x : list A) : 0 <= len x.
Proof. unfold len. lia. Qed.

Lemma is_empty_false_len {A} (x : list A) : is_empty x = false -> 0 < len x.
Proof. destruct x; [discriminate|]. intros _. unfold len. simpl. lia. Qed.

Lemma is_empty_true {A} (x : list A) : is_empty x = true -> x = [].
Proof. destruct x; [reflexivity|discriminate]. Qed.

Lemma received_app t1 t2 : received (t1 ++ t2) = received t1 ++ received t2.
Proof.
  induction t1 as [|e t1 IH]; simpl; [reflexivity|].
  destruct e; simpl; rewrite ?IH, ?app_assoc; reflexivity.
Qed.

(** What [rx_take] hands out is at most [n] bytes, and it hands out nothing
    only when asked for nothing or when the script is exhausted. *)
Lemma rx_take_data n inbox data rest :
  rx_take n inbox = (inr data, rest) ->
  (length data <= n)%nat /\ (data = [] -> n = 0%nat \/ rest = []).
Proof.
  revert data rest. induction inbox as [|it inbox IH]; simpl; intros data rest H.
  - inversion H; subst. split; [simpl; lia | auto].
  - destruct it as [seg|e]; [|discriminate].
    destruct seg as [|c seg]; [apply IH; exact H|].
    destruct (Nat.leb (length (c :: seg)) n) eqn:E; inversion H; subst.
    + apply Nat.leb_le in E. split; [exact E | discriminate].
    + apply Nat.leb_gt in E. split.
      * rewrite length_take. lia.
      * intros Hnil. left. destruct n; [reflexivity | discriminate].
Qed.

(** The outcomes of [sock.recv]. *)
Lemma sock_recv_cases entry n w :
  (exists data w', sock_recv entry n w =
        Outcome (Ret data) w' [EvRecv entry n (sk_timeout (w_sock w)) data] /\
      len data <= Z.max 0 n /\ 0 <= n /\
      (data = [] -> n = 0 \/ sk_inbox (w_sock w') = [])) \/
  (exists e w', sock_recv entry n w =
        Outcome (Raise e) w' [EvRecvFault entry n (sk_timeout (w_sock w)) e] /\ 0 <= n) \/
  (exists e, sock_recv entry n w = Outcome (Raise e) w [] /\ n < 0).
Proof.
  unfold sock_recv. destruct (n <? 0) eqn:Hn.
  - right. right. eexists. split; [reflexivity|]. apply Z.ltb_lt in Hn. auto.
  - apply Z.ltb_ge in Hn.
    destruct (rx_take (Z.to_nat n) (sk_inbox (w_sock w))) as [[e|data] rest] eqn:E.
    + right. left. eexists _, _. split; [reflexivity|]. exact Hn.
    + left. exists data. eexists. split; [reflexivity|].
      apply rx_take_data in E as [Hl Hnil].
      repeat split; try lia.
      * unfold len. lia.
      * intros Hd. destruct (Hnil Hd) as [H0|Hr]; [left; lia | right; exact Hr].
Qed.

(** ** [recv_exact] *)

Definition recv_exact_post (size : Z) (data : bytes) (o : outcome (option bytes)) : Prop :=
  match res o with
  | Ret (Some d) =>
      d = data ++ received (tr o) /\ len d = Z.max (len data) size
  | Ret None =>
      sk_inbox (w_sock (st o)) = [] /\ len data + len (received (tr o)) < size
  | Raise e =>
      exists pre n t, tr o = pre ++ [EvRecvFault None n t e]
  | Fuel => False
  end.

Lemma recv_exact_loop_spec fuel : forall size data w,
  size - len data <= Z.of_nat fuel ->
  recv_exact_post size data (recv_exact_loop fuel size data w).
Proof.
  induction fuel as [|fuel IH]; intros size data w Hfuel.
  - unfold recv_exact_post. simpl.
    destruct (len data <? size) eqn:E; [apply Z.ltb_lt in E; lia|].
    apply Z.ltb_ge in E. simpl. rewrite app_nil_r. split; [reflexivity | lia].
  - unfold recv_exact_post. simpl.
    destruct (len data <? size) eqn:E.
    2:{ apply Z.ltb_ge in E. simpl. rewrite app_nil_r. split; [reflexivity | lia]. }
    apply Z.ltb_lt in E. unfold bind.
    destruct (sock_recv_cases None (size - len data) w) as
      [(chunk & w' & Hr & Hlen & Hn & Hnil) | [(e & w' & Hr & _) | (e & Hr & Hneg)]].
    + rewrite Hr. destruct (is_empty chunk) eqn:Hc.
      * apply is_empty_true in Hc. subst chunk. simpl.
        destruct (Hnil eq_refl) as [H0|Hin]; [lia|].
        split; [exact Hin | unfold len in *; simpl; lia].
      * apply is_empty_false_len in Hc.
        specialize (IH size (data ++ chunk) w').
        unfold recv_exact_post in IH. rewrite len_app in IH.
        destruct (recv_exact_loop fuel size (data ++ chunk) w') as [[[d|]|e|] w2 t2];
          simpl in *.
        -- destruct IH as [Hd Hl]; [lia|]. rewrite <- app_assoc in Hd.
           split; [exact Hd | lia].
        -- destruct IH as [Hin Hl]; [lia|]. split; [exact Hin|].
           rewrite len_app. lia.
        -- destruct IH as (pre & n & t & Hp); [lia|].
           exists (EvRecv None (size - len data) (sk_timeout (w_sock w)) chunk :: pre), n, t.
           rewrite Hp. reflexivity.
        -- apply IH. lia.
    + rewrite Hr. simpl.
      exists [], (size - len data), (sk_timeout (w_sock w)). reflexivity.
    + lia.
Qed.

(** C9. [recv_exact(sock, size)] is all-or-nothing.  Whatever the peer
    does, the call either raises the exception of a [recv], or returns
    [None], which happens only when the peer has closed the stream after
    fewer than [size] bytes, or returns exactly the bytes read, whose
    number is [size] (none for a negative [size]); it never returns a
    shorter string, and the loop always ends within its budget.  For
    [size <= 0] it returns [b''] and leaves socket and trace untouched. *)
Theorem recv_exact_all_or_nothing (size : Z) (w : world) :
  let o := recv_exact size w in
  match res o with
  | Ret (Some data) => len data = Z.max 0 size /\ data = received (tr o)
  | Ret None => sk_inbox (w_sock (st o)) = [] /\ len (received (tr o)) < size
  | Raise e => exists pre n t, tr o = pre ++ [EvRecvFault None n t e]
  | Fuel => False
  end /\
  (if size <=? 0 then o = Outcome (Ret (Some [])) w [] else True).
Proof.
  intros o. split.
  - pose proof (recv_exact_loop_spec (Z.to_nat size) size [] w) as H.
    unfold recv_exact_post in H. fold (recv_exact size w) in H. fold o in H.
    assert (Hf : size - len (@nil byte) <= Z.of_nat (Z.to_nat size))
      by (unfold len; simpl; lia).
    specialize (H Hf). destruct (res o) as [[d|]|e|]; try exact H.
    destruct H as [Hd Hl]. split; [exact Hl | exact Hd].
  - destruct (size <=? 0) eqn:E; [|exact I].
    apply Z.leb_le in E. subst o. unfold recv_exact.
    destruct (Z.to_nat size) eqn:En; simpl;
      (destruct (len (@nil byte) <? size) eqn:E2;
       [apply Z.ltb_lt in E2; unfold len in E2; simpl in E2; lia | reflexivity]).
Qed.

(** ** The acknowledgment helper of the sender *)

Lemma max_len_nonneg l : 0 <= max_len l.
Proof. unfold max_len. induction l; simpl; lia. Qed.

(** What the helper computes, by the outcome of its single read. *)
Lemma receive_acknowledgment_run (entry : option nat)
    (expected_responses : list bytes) (timeout : Z) (w : world) :
  expected_responses <> [] ->
  let n := Z.min (max_len expected_responses) 1024 in
  let t0 := sk_timeout (w_sock w) in
  let after := match t0 with Some t => Some t | None => Some timeout end in
  _receive_acknowledgment entry expected_responses timeout w =
  match rx_take (Z.to_nat n) (sk_inbox (w_sock w)) with
  | (inl e, rest) =>
      Outcome
        (Ret (false,
              if is_socket_timeout e then TIMEOUT
              else if is_os_error e
              then b_ ("SOCKET_ERROR_" +:+ error_code_text e +:+ "_" +:+ exn_text e)
              else b_ (exn_text e)))
        (set_sock (set_inbox rest (set_timeout after (w_sock w))) w)
        ([EvSetTimeout (Some timeout); EvRecvFault entry n (Some timeout) e] ++
         match t0 with Some t => [EvSetTimeout (Some t)] | None => [] end)
  | (inr data, rest) =>
      Outcome
        (Ret (match find (startswith data) expected_responses with
              | Some expected => (true, expected)
              | None => (false, data)
              end))
        (set_sock (set_inbox rest (set_timeout after (w_sock w))) w)
        ([EvSetTimeout (Some timeout); EvRecv entry n (Some timeout) data] ++
         match t0 with
         | Some t => [EvSetTimeout (Some t); EvSetTimeout (Some t)]
         | None => []
         end)
  end.
Proof.
  intros Hne n t0 after.
  pose proof (max_len_nonneg expected_responses) as Hmax.
  assert (Hn : (n <? 0) = false) by (apply Z.ltb_ge; subst n; lia).
  subst t0 after.
  destruct w as [fs free ok names clock [t0 inbox faults outbox cf nf closed] failed fr].
  destruct expected_responses as [|tok toks] eqn:Hexp; [congruence|].
  unfold _receive_acknowledgment.
  unfold try_finally, try_except, ignore_errors, try_except, restore_timeout,
    sock_gettimeout, sock_settimeout, sock_recv, bind, gets, modify, emit, raise, ret.
  cbn -[find Z.min max_len rx_take startswith].
  change (Z.min (max_len (tok :: toks)) 1024) with n.
  rewrite <- Hexp, Hn.
  destruct (rx_take (Z.to_nat n) inbox) as [[e|data] rest];
    cbn -[find Z.min max_len rx_take startswith].
  - destruct (is_socket_timeout e); [|destruct (is_os_error e)];
      destruct t0; reflexivity.
  - destruct (find (startswith data) expected_responses); destruct t0; reflexivity.
Qed.



(** ** Order of events *)

Lemma preceded_by_none earlier later t :
  Forall (fun ev => later ev = false) t -> preceded_by earlier later t.
Proof.
  intros Hq pre ev post -> Hl.
  apply Forall_app in Hq as [_ Hq]. inversion Hq; subst. congruence.
Qed.

(** Once an [earlier] event has happened in a prefix without [later]
    events, whatever follows is covered. *)
Lemma preceded_by_prefix earlier later q r :
  Forall (fun ev => later ev = false) q ->
  (exists x, In x q /\ earlier x = true) ->
  preceded_by earlier later (q ++ r).
Proof.
  intros Hq (x & Hin & Hx) pre ev post Heq Hl.
  apply app_eq_app in Heq as [l [[-> Hr] | [-> Hr]]].
  - destruct l as [|y l]; simpl in Hr.
    + exists x. rewrite app_nil_r in Hin. auto.
    + exfalso. inversion Hr; subst. apply Forall_app in Hq as [_ Hq].
      inversion Hq; subst. congruence.
  - exists x. split; [|exact Hx]. apply in_or_app. left. exact Hin.
Qed.

(** ** Running computations step by step *)

Lemma run_bind {A B} (m : Py A) (k : A -> Py B) w :
  bind m k w =
  match m w with
  | Outcome (Ret a) w1 t1 => prepend t1 (k a w1)
  | Outcome (Raise e) w1 t1 => Outcome (Raise e) w1 t1
  | Outcome Fuel w1 t1 => Outcome Fuel w1 t1
  end.
Proof. reflexivity. Qed.

Lemma tr_prepend {A} t (o : outcome A) : tr (prepend t o) = t ++ tr o.
Proof. destruct o; reflexivity. Qed.

Lemma res_prepend {A} t (o : outcome A) : res (prepend t o) = res o.
Proof. destruct o; reflexivity. Qed.

Lemma st_prepend {A} t (o : outcome A) : st (prepend t o) = st o.
Proof. destruct o; reflexivity. Qed.

Lemma prepend_nil {A} (o : outcome A) : prepend [] o = o.
Proof. destruct o; reflexivity. Qed.

Lemma prepend_prepend {A} t1 t2 (o : outcome A) :
  prepend t1 (prepend t2 o) = prepend (t1 ++ t2) o.
Proof. destruct o; simpl. rewrite app_assoc. reflexivity. Qed.



Lemma run_gets {A} (f : world -> A) w : gets f w = Outcome (Ret (f w)) w [].
Proof. reflexivity. Qed.

Lemma run_modify f w : modify f w = Outcome (Ret tt) (f w) [].
Proof. reflexivity. Qed.

Lemma run_emit e w : emit e w = Outcome (Ret tt) w [e].
Proof. reflexivity. Qed.

Lemma run_ui msg w : ui msg w = Outcome (Ret tt) w [EvUi msg].
Proof. reflexivity. Qed.

Lemma run_ret {A} (a : A) w : ret a w = Outcome (Ret a) w [].
Proof. reflexivity. Qed.

Lemma run_raise {A} e w : @raise A e w = Outcome (Raise e) w [].
Proof. reflexivity. Qed.

Lemma run_try_except {A} (m : Py A) h w :
  try_except m h w =
  match m w with
  | Outcome (Raise e) w1 t1 => prepend t1 (h e w1)
  | o => o
  end.
Proof. reflexivity. Qed.

Lemma run_try_finally {A} (m : Py A) f w :
  try_finally m f w =
  match m w with
  | Outcome r w1 t1 =>
      prepend t1
        match f w1 with
        | Outcome (Ret _) w2 t2 => Outcome r w2 t2
        | Outcome (Raise e) w2 t2 => Outcome (Raise e) w2 t2
        | Outcome Fuel w2 t2 => Outcome Fuel w2 t2
        end
  end.
Proof. reflexivity. Qed.

Lemma run_os_path_exists p w :
  os_path_exists p w = Outcome (Ret (bool_decide (is_Some (w_fs w !! p)))) w [].
Proof. reflexivity. Qed.

Lemma run_os_path_isdir p w :
  os_path_isdir p w = Outcome (Ret (is_dir (w_fs w !! p))) w [].
Proof. reflexivity. Qed.

Lemma run_sock_gettimeout w :
  sock_gettimeout w = Outcome (Ret (sk_timeout (w_sock w))) w [].
Proof. reflexivity. Qed.

Lemma run_sock_settimeout t w :
  sock_settimeout t w =
  Outcome (Ret tt) (set_sock (set_timeout t (w_sock w)) w) [EvSetTimeout t].
Proof. reflexivity. Qed.

Lemma run_sock_close w :
  sock_close w = Outcome (Ret tt) (set_sock (set_closed (w_sock w)) w) [EvClose].
Proof. reflexivity. Qed.

Lemma run_put_fs fs w : put_fs fs w = Outcome (Ret tt) (set_fs fs w) [EvFs fs].
Proof. reflexivity. Qed.

Create Rewrite HintDb run.
#[local] Hint Rewrite @run_gets run_modify run_emit run_ui @run_ret @run_raise
  run_os_path_exists run_os_path_isdir run_sock_gettimeout run_sock_settimeout
  run_sock_close run_put_fs : run.

(** One step of a sequence whose first action always succeeds. *)
Ltac py_step := rewrite run_bind; autorewrite with run; cbv beta iota.

(** The outcomes of the fallible primitives. *)
Lemma create_socket_cases w :
  create_socket w = Outcome (Ret tt) w [EvCreateSocket] \/
  exists e, create_socket w = Outcome (Raise e) w [].
Proof.
  unfold create_socket. py_step.
  destruct (sk_create_fault (w_sock w)); [right; eexists|left]; reflexivity.
Qed.

Lemma sock_connect_cases w :
  sock_connect w = Outcome (Ret tt) w [EvConnect] \/
  exists e, sock_connect w = Outcome (Raise e) w [].
Proof.
  unfold sock_connect. py_step.
  destruct (sk_connect_fault (w_sock w)); [right; eexists|left]; reflexivity.
Qed.

Lemma open_rb_cases p w :
  (exists c, w_fs w !! p = Some (File c) /\ open_rb p w = Outcome (Ret c) w []) \/
  exists e, open_rb p w = Outcome (Raise e) w [].
Proof.
  unfold open_rb. py_step.
  destruct (w_fs w !! p) as [[c|]|]; [left; exists c; split| right; eexists | right; eexists];
    reflexivity.
Qed.

Section SenderOrder.
Context `{cfg : Config} `{libs : Libs}.

Lemma calculate_file_hash_cases p w :
  (exists d, calculate_file_hash p w = Outcome (Ret d) w [EvHash p]) \/
  exists e, calculate_file_hash p w = Outcome (Raise e) w [].
Proof.
  unfold calculate_file_hash. destruct (hashlib_new HASH_ALGORITHM) as [h|].
  - rewrite run_bind.
    destruct (open_rb_cases p w) as [(c & _ & ->) | (e & ->)].
    + left. exists (h c). py_step. reflexivity.
    + right. exists e. reflexivity.
  - right. eexists. reflexivity.
Qed.


(** The handlers of [send_file] and [send_directory] only write to the
    screen and close the socket. *)
Ltac sender_failure e :=
  unfold close_if_created;
  let E1 := fresh "E" in let E2 := fresh "E" in let E3 := fresh "E" in
  destruct (is_socket_timeout e) eqn:E1;
    [|destruct (is_connection_refused e) eqn:E2; [|destruct (is_os_error e) eqn:E3]];
  cbn; rewrite ?E1, ?E2, ?E3; cbn; left; repeat constructor.

(** The trace of [send_file]: either no transfer and no hash at all, or the
    hash comes after a connect and before everything that transfers. *)
Lemma send_file_trace_shape (filepath : string) (w : world) :
  let t := tr (send_file filepath w) in
  Forall (fun ev => calm filepath ev = true) t \/
  exists q r, t = q ++ EvHash filepath :: r /\
              Forall (fun ev => calm filepath ev = true) q /\ In EvConnect q.
Proof.
  intros t. subst t. unfold send_file.
  py_step.
  destruct (bool_decide (is_Some (w_fs w !! filepath))); cbn [negb].
  2:{ py_step. cbn. left. repeat constructor. }
  rewrite run_bind. unfold os_path_getsize. py_step.
  destruct (w_fs w !! filepath) as [[c|]|].
  3:{ autorewrite with run. cbn. left. repeat constructor. }
  all: py_step; cbn [prepend]; py_step; py_step.
  all: match goal with
       | |- context [bind (calculate_file_hash _) ?k] => set (K := k)
       end.
  all: rewrite run_try_finally, run_try_except, run_bind.
  all: match goal with
       | |- context [create_socket ?w0] =>
           let e := fresh "e" in
           destruct (create_socket_cases w0) as [-> | [e ->]]; [|sender_failure e]
       end.
  all: py_step; py_step; py_step; rewrite run_bind.
  all: match goal with
       | |- context [sock_connect ?w0] =>
           let e := fresh "e" in
           destruct (sock_connect_cases w0) as [-> | [e ->]]; [|sender_failure e]
       end.
  all: py_step; py_step; rewrite run_bind.
  all: match goal with
       | |- context [calculate_file_hash ?fp ?w0] =>
           let e := fresh "e" in let d := fresh "d" in
           destruct (calculate_file_hash_cases fp w0) as [[d ->] | [e ->]];
           [|sender_failure e]
       end.
  all: right.
  all: match goal with
       | |- context [prepend [EvHash _] ?o] =>
           let e := fresh "e" in
           destruct o as [[?|e|] ? ?]; cbn [prepend];
           [ | destruct (is_socket_timeout e);
               [|destruct (is_connection_refused e); [|destruct (is_os_error e)]];
               py_step; cbn [prepend]
             | ]
       end.
  all: match goal with
       | |- context [close_if_created ?w0] =>
           destruct (close_if_created w0) as [[[]|?|] ? ?]
       end.
  all: cbn [prepend tr app].
  all: eexists [_;_;_;_;_;_;_;_], _; split;
       [reflexivity | split; [repeat constructor | cbn; auto 10]].
Qed.

Lemma calm_no_transfer path t :
  Forall (fun ev => calm path ev = true) t ->
  Forall (fun ev => is_transfer ev = false) t /\
  Forall (fun ev => is_hash_of path ev = false) t.
Proof.
  intros H. split; eapply Forall_impl; try exact H; intros ev Hev;
    unfold calm in Hev; apply andb_true_iff in Hev as [H1 H2];
    apply negb_true_iff in H1, H2; assumption.
Qed.

(** C3, as the code has it.  In every run of [send_file], every send and
    every receive on the socket happens after [calculate_file_hash] has
    returned; the hash itself is computed only after the socket has been
    connected. *)
Theorem send_file_hash_before_transfer (filepath : string) (w : world) :
  let t := tr (send_file filepath w) in
  preceded_by (is_hash_of filepath) is_transfer t /\
  preceded_by is_connect (is_hash_of filepath) t.
Proof.
  intros t. subst t.
  destruct (send_file_trace_shape filepath w) as [Hq | (q & r & -> & Hq & Hc)];
    apply calm_no_transfer in Hq as [Ht Hh].
  - split; apply preceded_by_none; assumption.
  - split.
    + change (q ++ EvHash filepath :: r) with (q ++ [EvHash filepath] ++ r).
      rewrite app_assoc. apply preceded_by_prefix.
      * apply Forall_app. split; [exact Ht | repeat constructor].
      * exists (EvHash filepath). split; [apply in_or_app; right; left; reflexivity|].
        simpl. apply String.eqb_refl.
    + apply preceded_by_prefix; [exact Hh|].
      exists EvConnect. split; [exact Hc | reflexivity].
Qed.

End SenderOrder.

(** C3, counterexample.  Sending [a.txt] to a receiver that accepts it
    succeeds, and the socket is connected before the hash of the file has
    been computed: the events before the connect contain no hash. *)
Lemma send_file_connects_before_hash :
  res example_send_run = Ret true /\
  ~ preceded_by (is_hash_of "a.txt") is_network_io (tr example_send_run).
Proof.
  split; [vm_compute; reflexivity|].
  intros H.
  destruct (H (take 5 (tr example_send_run)) EvConnect (drop 6 (tr example_send_run)))
    as (ev' & Hin & Hh); [vm_compute; reflexivity | reflexivity |].
  vm_compute in Hin.
  repeat (destruct Hin as [<- | Hin]; [discriminate Hh|]).
  exact Hin.
Qed.

(** ** What the socket operations leave alone *)

Lemma only_socket_changed_refl w : only_socket_changed w w.
Proof. destruct w; reflexivity. Qed.

Lemma only_socket_changed_trans w1 w2 w3 :
  only_socket_changed w1 w2 -> only_socket_changed w2 w3 -> only_socket_changed w1 w3.
Proof.
  unfold only_socket_changed. intros H12 H23. rewrite H23 at 1. rewrite H12.
  destruct w1; reflexivity.
Qed.

Lemma only_socket_changed_set s w : only_socket_changed w (set_sock s w).
Proof. destruct w; reflexivity. Qed.

Lemma only_socket_changed_fs w w' : only_socket_changed w w' -> w_fs w' = w_fs w.
Proof. intros ->. reflexivity. Qed.


Lemma sock_recv_frame entry n w :
  only_socket_changed w (st (sock_recv entry n w)).
Proof.
  unfold sock_recv. destruct (n <? 0); [apply only_socket_changed_refl|].
  destruct (rx_take _ _) as [[e|d] rest]; apply only_socket_changed_set.
Qed.

(** The outcomes of a write on the socket. *)
Lemma sock_send_cases entry data w :
  exists w' r ok,
    sock_send entry data w = Outcome r w' [EvSend entry data ok] /\
    (if ok then r = Ret tt else exists e, r = Raise e) /\
    only_socket_changed w w' /\
    sk_inbox (w_sock w') = sk_inbox (w_sock w) /\
    sk_timeout (w_sock w') = sk_timeout (w_sock w) /\
    sk_closed (w_sock w') = sk_closed (w_sock w).
Proof.
  unfold sock_send. destruct (sk_tx_faults (w_sock w)) as [|[e|] rest].
  - eexists _, _, true. split; [reflexivity|]. repeat split.
  - eexists _, _, false. split; [reflexivity|]. repeat split; eauto.
  - eexists _, _, true. split; [reflexivity|]. repeat split.
Qed.



(** ** The handshake of the receiver *)



Section Handshake.
Context `{cfg : Config} `{libs : Libs}.






End Handshake.

(** ** The sender after [MISMATCH] *)




Section SenderMismatch.
Context `{cfg : Config} `{libs : Libs}.





End SenderMismatch.



(** ** Paths *)

Lemma string_length_append (a b : string) :
  String.length (a +:+ b) = (String.length a + String.length b)%nat.
Proof. induction a as [|c a IH]; simpl; [reflexivity | rewrite IH; reflexivity]. Qed.

(** The temporary name is longer than the final one, hence different. *)
Lemma temp_path_longer (d name r : string) :
  (String.length (path_join d name) <
   String.length (path_join d (("." +:+ name +:+ "_") +:+ r +:+ ".tmp")))%nat.
Proof.
  unfold path_join.
  change (String.prefix "/" (("." +:+ name +:+ "_") +:+ r +:+ ".tmp")) with false.
  cbv iota.
  destruct (String.prefix "/" name), (String.eqb d ""), (ends_with_slash d);
    rewrite ?string_length_append; simpl; rewrite ?string_length_append; simpl; lia.
Qed.

Lemma temp_path_differs (d name r : string) :
  path_join d (("." +:+ name +:+ "_") +:+ r +:+ ".tmp") <> path_join d name.
Proof.
  intros H. pose proof (temp_path_longer d name r) as Hl. rewrite H in Hl. lia.
Qed.

(** A name picked by [mkstemp] was free and has the shape of a candidate. *)
Lemma fresh_name_spec fs dir pre suf names p rest :
  fresh_name fs dir pre suf names = Some (p, rest) ->
  fs !! p = None /\ exists r, p = path_join dir (pre +:+ r +:+ suf).
Proof.
  revert p rest. induction names as [|r names IH]; simpl; intros p rest H; [discriminate|].
  destruct (fs !! path_join dir (pre +:+ r +:+ suf)) eqn:E.
  - apply IH in H. exact H.
  - inversion H; subst. split; [exact E | eauto].
Qed.

(** ** Receiving one file *)

Lemma snapshots_app P t1 t2 :
  snapshots P t1 -> snapshots P t2 -> snapshots P (t1 ++ t2).
Proof.
  intros H1 H2 fs Hin. apply in_app_or in Hin as [Hin|Hin]; auto.
Qed.

Lemma snapshots_none P t :
  Forall (fun ev => match ev with EvFs _ => False | _ => True end) t -> snapshots P t.
Proof.
  intros H fs Hin. rewrite Forall_forall in H. apply list_elem_of_In in Hin.
  destruct (H _ Hin).
Qed.

Lemma snapshots_cons P ev t :
  match ev with EvFs fs => P fs | _ => True end -> snapshots P t -> snapshots P (ev :: t).
Proof.
  intros H1 H2 fs [-> | Hin]; [exact H1 | auto].
Qed.

Lemma snapshots_impl (P Q : gmap string node -> Prop) t :
  (forall fs, P fs -> Q fs) -> snapshots P t -> snapshots Q t.
Proof. intros HPQ H fs Hin. auto. Qed.

(** The outcomes of [f.write]. *)
Lemma file_write_cases p chunk w :
  (exists c,
     w_fs w !! p = Some (File c) /\
     file_write p chunk w =
       Outcome (Ret tt)
         (set_fs (<[p := File (c ++ chunk)]> (w_fs w))
                 (set_disk_free (w_disk_free w - len chunk) w))
         [EvWrite p chunk; EvFs (<[p := File (c ++ chunk)]> (w_fs w))]) \/
  (exists e, file_write p chunk w = Outcome (Raise e) w []).
Proof.
  unfold file_write. py_step. py_step.
  destruct (w_fs w !! p) as [[c|]|]; try (right; eexists; reflexivity).
  destruct (w_disk_free w <? len chunk); [right; eexists; reflexivity|].
  left. exists c. split; [reflexivity|].
  py_step. py_step. autorewrite with run. reflexivity.
Qed.

Section ReceiveFile.
Context `{cfg : Config} `{libs : Libs}.
Variables (fs0 : gmap string node) (temp : string) (size : Z).

(** The receive loop only appends what it reads to the temporary file. *)
Lemma receive_file_loop_spec fuel : forall got w data,
  w_fs w = <[temp := File data]> fs0 ->
  got = len data ->
  size - got <= Z.of_nat fuel ->
  let o := receive_file_loop fuel size temp got w in
  res o <> Fuel /\
  (exists data', w_fs (st o) = <[temp := File data']> fs0 /\
     (res o = Ret tt ->
      data' = data ++ received_bytes_of o /\ len data' = Z.max got size)) /\
  snapshots (fun fs => exists d, fs = <[temp := File d]> fs0) (tr o) /\
  Forall (fun ev => is_send ev = false) (tr o) /\
  w_frame (st o) = w_frame w /\ w_failed (st o) = w_failed w /\
  sk_tx_faults (w_sock (st o)) = sk_tx_faults (w_sock w) /\
  sk_outbox (w_sock (st o)) = sk_outbox (w_sock w).
Proof.
  unfold received_bytes_of.
  induction fuel as [|fuel IH]; intros got w data Hfs Hrec Hfuel; simpl.
  - destruct (got <? size) eqn:E; [apply Z.ltb_lt in E; lia|].
    apply Z.ltb_ge in E. simpl.
    split; [discriminate|]. split.
    { exists data. split; [exact Hfs|]. intros _. rewrite app_nil_r. split; [reflexivity|lia]. }
    repeat split; try constructor. intros fs [].
  - destruct (got <? size) eqn:E.
    2:{ apply Z.ltb_ge in E. simpl.
        split; [discriminate|]. split.
        { exists data. split; [exact Hfs|]. intros _. rewrite app_nil_r.
          split; [reflexivity|lia]. }
        repeat split; try constructor. intros fs []. }
    apply Z.ltb_lt in E. rewrite run_bind.
    pose proof (sock_recv_frame None (Z.min BUFFER_SIZE (size - got)) w) as Hf.
    assert (Htx : sk_tx_faults (w_sock (st (sock_recv None (Z.min BUFFER_SIZE (size - got)) w)))
                  = sk_tx_faults (w_sock w) /\
                  sk_outbox (w_sock (st (sock_recv None (Z.min BUFFER_SIZE (size - got)) w)))
                  = sk_outbox (w_sock w)).
    { unfold sock_recv. destruct (_ <? 0); [split; reflexivity|].
      destruct (rx_take _ _) as [[e|d] rest]; split; reflexivity. }
    destruct (sock_recv_cases None (Z.min BUFFER_SIZE (size - got)) w) as
      [(chunk & w' & Hr & Hlen & Hn & _) | [(e & w' & Hr & _) | (e & Hr & _)]];
      rewrite Hr in *; simpl in Hf, Htx; destruct Htx as [Htx1 Htx2].
    + assert (Hfs' : w_fs w' = <[temp := File data]> fs0)
        by (rewrite (only_socket_changed_fs _ _ Hf); exact Hfs).
      assert (Hfr : w_frame w' = w_frame w /\ w_failed w' = w_failed w)
        by (rewrite Hf; split; reflexivity).
      destruct Hfr as [Hfr1 Hfr2].
      destruct (is_empty chunk) eqn:Hc.
      * autorewrite with run. cbn [prepend st tr res app].
        split; [discriminate|]. split.
        { exists data. split; [exact Hfs'|]. discriminate. }
        repeat split; try congruence; try (repeat constructor; fail).
        intros fs [H|[]]; discriminate H.
      * apply is_empty_false_len in Hc. rewrite run_bind.
        destruct (file_write_cases temp chunk w') as [(c & Hc0 & ->) | (e & ->)].
        -- rewrite Hfs', lookup_insert_eq in Hc0. inversion Hc0; subst c.
           set (w2 := set_fs _ _).
           assert (Hfs2 : w_fs w2 = <[temp := File (data ++ chunk)]> fs0).
           { subst w2. destruct w'; simpl in *. rewrite Hfs'.
             apply insert_insert_eq. }
           specialize (IH (got + len chunk) w2 (data ++ chunk) Hfs2).
           rewrite len_app in IH.
           destruct IH as (I1 & (data' & I2 & I3) & I4 & I5 & I6 & I7 & I8 & I9);
             [lia | lia |].
           rewrite !res_prepend, !st_prepend, !tr_prepend.
           split; [exact I1|]. split.
           { exists data'. split; [exact I2|]. intros Hret.
             destruct (I3 Hret) as [Hd Hl]. split; [|lia].
             rewrite Hd. cbn [app received]. rewrite <- app_assoc. reflexivity. }
           split.
           { apply snapshots_cons; [exact I|]. apply snapshots_cons; [exact I|].
             apply snapshots_cons; [|exact I4].
             exists (data ++ chunk). rewrite Hfs'. apply insert_insert_eq. }
           split; [repeat (constructor; [reflexivity|]); exact I5|].
           subst w2. destruct w'; simpl in *.
           repeat split; congruence.
        -- cbn [prepend st tr res app].
           split; [discriminate|]. split.
           { exists data. split; [exact Hfs'|]. discriminate. }
           repeat split; try congruence; try (repeat constructor; fail).
           intros fs [H|[]]; discriminate H.
    + cbn [prepend st tr res app].
      assert (Hfr : w_frame w' = w_frame w /\ w_failed w' = w_failed w)
        by (rewrite Hf; split; reflexivity).
      destruct Hfr as [Hfr1 Hfr2].
      split; [discriminate|]. split.
      { exists data. split; [|discriminate].
        rewrite (only_socket_changed_fs _ _ Hf). exact Hfs. }
      repeat split; try congruence; try (repeat constructor; fail).
      intros fs [H|[]]; discriminate H.
    + cbn [prepend st tr res app].
      split; [discriminate|]. split.
      { exists data. split; [exact Hfs|]. discriminate. }
      repeat split; try congruence; try (repeat constructor; fail).
      intros fs [].
Qed.

End ReceiveFile.

Lemma visible_ok_same fs0 final size fs :
  fs !! final = fs0 !! final -> visible_ok fs0 final size fs.
Proof. intros H d Hd. left. rewrite <- H. exact Hd. Qed.

Lemma visible_ok_delete fs0 final size fs p :
  visible_ok fs0 final size fs -> visible_ok fs0 final size (delete p fs).
Proof.
  intros H d Hd. destruct (decide (p = final)) as [->|Hne].
  - rewrite lookup_delete_eq in Hd. discriminate.
  - rewrite lookup_delete_ne in Hd by exact Hne. auto.
Qed.

Lemma visible_ok_insert_other fs0 final size fs p n :
  p <> final -> visible_ok fs0 final size fs -> visible_ok fs0 final size (<[p := n]> fs).
Proof.
  intros Hne H d Hd. rewrite lookup_insert_ne in Hd by exact Hne. auto.
Qed.

Lemma visible_ok_insert_complete fs0 final size fs p c :
  len c = Z.max 0 size ->
  visible_ok fs0 final size fs -> visible_ok fs0 final size (<[p := File c]> fs).
Proof.
  intros Hc H d Hd. destruct (decide (p = final)) as [->|Hne].
  - rewrite lookup_insert_eq in Hd. inversion Hd; subst. right. exact Hc.
  - rewrite lookup_insert_ne in Hd by exact Hne. auto.
Qed.

(** The outcomes of [shutil.move] of a regular file. *)
Lemma shutil_move_file_cases src dst c w :
  w_fs w !! src = Some (File c) ->
  let real_dst := if is_dir (w_fs w !! dst)
                  then path_join dst (basename src) else dst in
  shutil_move src dst w =
    Outcome (Ret tt)
      (set_fs (<[real_dst := File c]> (delete src (w_fs w))) w)
      [EvMove src real_dst; EvFs (<[real_dst := File c]> (delete src (w_fs w)))] \/
  (shutil_move src dst w = Outcome (Raise EEXIST) w [] /\ is_dir (w_fs w !! dst) = true).
Proof.
  intros Hsrc real_dst. unfold shutil_move. py_step. rewrite Hsrc. fold real_dst.
  destruct (is_dir (w_fs w !! dst)) eqn:Hd; cbn [andb].
  - destruct (bool_decide (is_Some (w_fs w !! real_dst))).
    + right. split; reflexivity.
    + left. py_step. autorewrite with run. reflexivity.
  - left. py_step. autorewrite with run. reflexivity.
Qed.

Section ReceiveFileFlow.
Context `{cfg : Config} `{libs : Libs}.

(** Verifying the hash reads and reports; it changes neither the
    filesystem nor the socket. *)
Lemma verify_file_hash_frame (p expected : string) (w : world) :
  let o := _verify_file_hash p expected w in
  res o <> Fuel /\
  w_fs (st o) = w_fs w /\ w_sock (st o) = w_sock w /\ w_frame (st o) = w_frame w /\
  Forall (fun ev => match ev with EvUi _ | EvHash _ => True | _ => False end) (tr o).
Proof.
  unfold _verify_file_hash. destruct SKIP_HASH_VERIFICATION.
  { autorewrite with run. simpl. repeat split; [discriminate | constructor]. }
  py_step. rewrite run_bind.
  destruct (calculate_file_hash_cases p w) as [[d ->] | [e ->]].
  - destruct (String.eqb d expected); [autorewrite with run | py_step; autorewrite with run];
      cbn [prepend res st tr app]; (repeat split; [discriminate | repeat constructor]).
  - cbn [prepend res st tr app]. repeat split; [discriminate | repeat constructor].
Qed.


(** [try: os.remove(p)  except: pass]. *)
Lemma ignore_remove_cases p w :
  (exists c, w_fs w !! p = Some (File c) /\
     ignore_errors (os_remove p) w =
       Outcome (Ret tt)
         (set_fs (delete p (w_fs w)) (set_disk_free (w_disk_free w + len c) w))
         [EvRemove p; EvFs (delete p (w_fs w))]) \/
  (is_file (w_fs w !! p) = false /\ ignore_errors (os_remove p) w = Outcome (Ret tt) w []).
Proof.
  unfold ignore_errors, os_remove. rewrite run_try_except. py_step.
  destruct (w_fs w !! p) as [[c|]|].
  - left. exists c. split; [reflexivity|]. py_step. py_step. autorewrite with run.
    reflexivity.
  - right. split; [reflexivity|]. autorewrite with run. reflexivity.
  - right. split; [reflexivity|]. autorewrite with run. reflexivity.
Qed.

(** The handler of [receive_file]: whatever state the guarded block left,
    no regular file remains under the final name. *)
Lemma receive_file_cleanup_spec fs0 size final e w :
  visible_ok fs0 final size (w_fs w) ->
  let o := receive_file_cleanup final e w in
  res o = Ret tt /\
  snapshots (visible_ok fs0 final size) (tr o) /\
  is_file (w_fs (st o) !! final) = false /\
  Forall (fun ev => is_send ev = false) (tr o) /\
  In (EvUi ("Error receiving file: " +:+ exn_text e)) (tr o).
Proof.
  intros HV. unfold receive_file_cleanup. py_step. py_step.
  assert (H1 : exists w1 t1,
    match temp_filepath (w_frame w) with
    | Some p =>
        ex <- os_path_exists p ;;
        when (negb (String.eqb p "") && ex) (ignore_errors (os_remove p))
    | None => ret tt
    end w = Outcome (Ret tt) w1 t1 /\
    visible_ok fs0 final size (w_fs w1) /\
    snapshots (visible_ok fs0 final size) t1 /\
    Forall (fun ev => is_send ev = false) t1).
  { destruct (temp_filepath (w_frame w)) as [p|].
    - py_step. rewrite prepend_nil.
      destruct (negb (String.eqb p "") && _); cbn [when].
      + destruct (ignore_remove_cases p w) as [(c & _ & ->) | (_ & ->)].
        * eexists _, _. split; [reflexivity|].
          destruct w; simpl in *. split; [apply visible_ok_delete; exact HV|].
          split; [|repeat constructor].
          apply snapshots_cons; [exact I|]. apply snapshots_cons; [|intros ? []].
          apply visible_ok_delete; exact HV.
        * eexists _, _. split; [reflexivity|]. split; [exact HV|].
          split; [intros ? [] | constructor].
      + autorewrite with run. eexists _, _. split; [reflexivity|]. split; [exact HV|].
        split; [intros ? [] | constructor].
    - autorewrite with run. eexists _, _. split; [reflexivity|]. split; [exact HV|].
      split; [intros ? [] | constructor]. }
  destruct H1 as (w1 & t1 & Hrun & HV1 & Hs1 & Hq1).
  rewrite run_bind, Hrun. py_step.
  destruct (bool_decide (is_Some (w_fs w1 !! final))) eqn:Hex; cbn [when].
  - destruct (ignore_remove_cases final w1) as [(c & _ & ->) | (Hnf & ->)];
      cbn [prepend res st tr app].
    + split; [reflexivity|]. split.
      { apply snapshots_cons; [exact I|]. apply snapshots_app; [exact Hs1|].
        apply snapshots_cons; [exact I|]. apply snapshots_cons; [|intros ? []].
        apply visible_ok_delete; exact HV1. }
      split; [destruct w1; simpl; rewrite lookup_delete_eq; reflexivity|].
      split; [|left; reflexivity].
      constructor; [reflexivity|]. apply Forall_app. split; [exact Hq1|].
      repeat constructor.
    + rewrite !app_nil_r. split; [reflexivity|]. split.
      { apply snapshots_cons; [exact I | exact Hs1]. }
      split; [exact Hnf|]. split; [|left; reflexivity].
      constructor; [reflexivity | exact Hq1].
  - autorewrite with run. cbn [prepend res st tr app]. rewrite !app_nil_r.
    split; [reflexivity|]. split.
    { apply snapshots_cons; [exact I | exact Hs1]. }
    split.
    { apply bool_decide_eq_false in Hex. destruct (w_fs w1 !! final) as [n|]; [|reflexivity].
      exfalso. apply Hex. eauto. }
    split; [|left; reflexivity].
    constructor; [reflexivity | exact Hq1].
Qed.

Lemma flow_post_prepend V t (o : outcome unit) :
  snapshots V t -> flow_post V o -> flow_post V (prepend t o).
Proof.
  intros Ht (H1 & H2 & H3 & H4). unfold flow_post.
  rewrite res_prepend, st_prepend, tr_prepend.
  split; [exact H1|]. split; [apply snapshots_app; assumption|]. split; [exact H3|].
  intros Hr. destruct (H4 Hr) as [pre ->]. exists (t ++ pre). apply app_assoc.
Qed.

Lemma flow_post_raise V e w t :
  snapshots V t -> V (w_fs w) -> flow_post V (Outcome (Raise e) w t).
Proof. intros Ht Hw. repeat split; try discriminate; assumption. Qed.

(** The guarded block of [receive_file]: nothing partial ever shows under
    the final name, and a normal end means [DONE] was written last. *)
Lemma receive_file_guarded_spec (fi : metadata) (w : world) :
  let final := path_join RECEIVED_DIR (md_name fi) in
  flow_post (visible_ok (w_fs w) final (md_size fi)) (receive_file_guarded fi final w).
Proof.
  intros final. set (V := visible_ok (w_fs w) final (md_size fi)).
  unfold receive_file_guarded.
  assert (HV0 : V (w_fs w)) by (apply visible_ok_same; reflexivity).
  rewrite run_bind. unfold mkstemp. py_step. py_step.
  destruct (fresh_name _ _ _ _ _) as [[p rest]|] eqn:Hfresh.
  2:{ py_step. cbn [prepend app]. apply flow_post_raise; [intros ? [] | exact HV0]. }
  apply fresh_name_spec in Hfresh as [Hfree [r ->]].
  set (p := path_join RECEIVED_DIR (("." +:+ md_name fi +:+ "_") +:+ r +:+ ".tmp")) in *.
  assert (Hpf : p <> final) by apply temp_path_differs.
  assert (HVp : forall d, V (<[p := File d]> (w_fs w))).
  { intros d. apply visible_ok_insert_other; assumption. }
  py_step. py_step. py_step. cbn [prepend app fst snd].
  py_step. py_step. py_step. rewrite run_bind. rewrite !prepend_nil.
  apply flow_post_prepend.
  { apply snapshots_cons; [exact I|]. apply snapshots_cons; [apply HVp | intros ? []]. }
  match goal with
  | |- context [receive_file_loop ?f ?s ?t ?g ?w0] =>
      destruct (receive_file_loop_spec (w_fs w) p (md_size fi) f 0 w0 [])
        as (L1 & (data & L2 & L3) & L4 & _ & L5 & _);
      [ reflexivity | reflexivity | lia | ];
      destruct (receive_file_loop f s t g w0) as [[[]|e|] w1 t1]
  end; cbn [res st tr] in *; [ | | congruence].
  2:{ apply flow_post_raise.
      - eapply snapshots_impl; [|exact L4]. intros fs [d ->]. apply HVp.
      - rewrite L2. apply HVp. }
  destruct (L3 eq_refl) as [_ Hlen]. clear L3.
  apply flow_post_prepend.
  { eapply snapshots_impl; [|exact L4]. intros fs [d ->]. apply HVp. }
  rewrite run_bind.
  destruct (verify_file_hash_frame p (md_hash fi) w1) as (F1 & F2 & F3 & F4 & F5).
  assert (F6 : snapshots V (tr (_verify_file_hash p (md_hash fi) w1))).
  { apply snapshots_none. eapply Forall_impl; [exact F5|]. intros []; auto. }
  destruct (_verify_file_hash p (md_hash fi) w1) as [[hash_valid|e|] w2 t2];
    cbn [res st tr] in *; [ | | congruence].
  2:{ apply flow_post_raise; [exact F6|]. rewrite F2, L2. apply HVp. }
  apply flow_post_prepend; [exact F6|].
  rewrite run_bind.
  assert (Hsrc : w_fs w2 !! p = Some (File data))
    by (rewrite F2, L2; apply lookup_insert_eq).
  destruct (shutil_move_file_cases p final data w2 Hsrc) as [-> | [-> _]].
  2:{ apply flow_post_raise; [intros ? []|]. rewrite F2, L2. apply HVp. }
  set (real_dst := if is_dir (w_fs w2 !! final) then _ else final).
  assert (HVm : V (<[real_dst := File data]> (delete p (w_fs w2)))).
  { apply visible_ok_insert_complete; [exact Hlen|]. apply visible_ok_delete.
    rewrite F2, L2. apply HVp. }
  apply flow_post_prepend.
  { apply snapshots_cons; [exact I|]. apply snapshots_cons; [exact HVm | intros ? []]. }
  py_step. rewrite prepend_nil.
  assert (Hui : forall msg1 msg2 (k : Py unit) w0,
            flow_post V (k w0) ->
            flow_post V (((if hash_valid then ui msg1 else ui msg2) ;; k) w0)).
  { intros msg1 msg2 k w0 Hk. destruct hash_valid; py_step;
      (apply flow_post_prepend; [apply snapshots_cons; [exact I | intros ? []] | exact Hk]). }
  apply Hui.
  match goal with
  | |- context [sock_send None DONE ?w0] =>
      destruct (sock_send_cases None DONE w0) as (w3 & r3 & ok & -> & Hr & Hf & _)
  end.
  assert (Hfs3 : w_fs w3 = <[real_dst := File data]> (delete p (w_fs w2))).
  { rewrite (only_socket_changed_fs _ _ Hf). destruct w2; reflexivity. }
  destruct ok.
  - subst r3. repeat split; try discriminate.
    + apply snapshots_cons; [exact I | intros ? []].
    + cbn [st]. rewrite Hfs3. exact HVm.
    + intros _. exists []. reflexivity.
  - destruct Hr as [e ->]. apply flow_post_raise.
    + apply snapshots_cons; [exact I | intros ? []].
    + rewrite Hfs3. exact HVm.
Qed.

End ReceiveFileFlow.

(** ** [ensure_directory] *)

Lemma w_fs_set_fs fs w : w_fs (set_fs fs w) = fs.
Proof. reflexivity. Qed.

Lemma w_fs_set_disk_free n w : w_fs (set_disk_free n w) = w_fs w.
Proof. reflexivity. Qed.

(** The write probe of [ensure_directory]: it ends, and what it raises
    carries no error number. *)
Lemma write_probe_cases path (w : world) :
  let o := try_except
             (open_wb None (path_join path ".write_test") ;;
              file_write (path_join path ".write_test") (b_ "test") ;;
              os_remove (path_join path ".write_test"))
             (fun e =>
                if is_os_error e
                then raise (Exn OSError None ("Directory not writable: " +:+ path))
                else raise e) w in
  res o = Ret tt \/ exists e, res o = Raise e /\ exn_errno e = None.
Proof.
  intros o. subst o. set (p := path_join path ".write_test").
  rewrite run_try_except, run_bind. unfold open_wb. py_step.
  assert (Hrest : forall w0 t0,
    w_fs w0 !! p = Some (File []) ->
    let o := match prepend t0 ((file_write p (b_ "test");; os_remove p) w0) with
             | Outcome (Raise e) w1 t1 =>
                 prepend t1
                   ((if is_os_error e
                     then raise (Exn OSError None ("Directory not writable: " +:+ path))
                     else raise e) w1)
             | o => o
             end in
    res o = Ret tt \/ exists e, res o = Raise e /\ exn_errno e = None).
  { intros w0 t0 Hp. rewrite run_bind.
    destruct (file_write_cases p (b_ "test") w0) as [(c & Hc & ->) | (e & He)].
    - unfold os_remove. py_step. rewrite !w_fs_set_fs, lookup_insert_eq.
      py_step. py_step. autorewrite with run.
      cbn [prepend app]. left. reflexivity.
    - revert He. unfold file_write. py_step. py_step. rewrite Hp.
      destruct (_ <? _); [|py_step; py_step; autorewrite with run; discriminate].
      autorewrite with run. intros He. inversion He; subst. cbn [prepend app].
      right. eexists. split; reflexivity. }
  destruct (w_fs w !! p) as [[c|]|] eqn:Hp.
  - py_step. py_step. autorewrite with run. cbn [prepend app].
    rewrite ?prepend_prepend. apply Hrest. rewrite w_fs_set_fs. apply lookup_insert_eq.
  - autorewrite with run. cbn [prepend app]. right. eexists. split; reflexivity.
  - py_step. autorewrite with run. cbn [prepend app].
    rewrite ?prepend_prepend. apply Hrest. rewrite w_fs_set_fs. apply lookup_insert_eq.
Qed.

(** [ensure_directory] ends within its budget: no operation of the model
    raises error 3, so the recursion on the parent is never entered. *)
Lemma ensure_directory_rec_ends fuel path w :
  res (ensure_directory_rec fuel path w) <> Fuel.
Proof.
  assert (Hbody : forall w0,
    let o := (ex <- os_path_exists path ;;
              when (negb ex) (os_makedirs path) ;;
              isd <- os_path_isdir path ;;
              if negb isd
              then raise (Exn OSError None ("Path exists but is not a directory: " +:+ path))
              else
                try_except
                  (open_wb None (path_join path ".write_test") ;;
                   file_write (path_join path ".write_test") (b_ "test") ;;
                   os_remove (path_join path ".write_test"))
                  (fun e =>
                     if is_os_error e
                     then raise (Exn OSError None ("Directory not writable: " +:+ path))
                     else raise e)) w0 in
    res o = Ret tt \/ exists e, res o = Raise e /\ exn_errno e <> Some 3).
  { intros w0. cbv zeta. py_step. rewrite prepend_nil. rewrite run_bind.
    assert (Hmk : exists w1 t1 r,
              when (negb (bool_decide (is_Some (w_fs w0 !! path)))) (os_makedirs path) w0
              = Outcome r w1 t1 /\
              (r = Ret tt \/ r = Raise EEXIST)).
    { destruct (negb _); cbn [when].
      - unfold os_makedirs. py_step. destruct (w_fs w0 !! path) as [[c|]|];
          autorewrite with run; cbn [prepend app]; eauto 10.
      - autorewrite with run. eauto 10. }
    destruct Hmk as (w1 & t1 & r & -> & [-> | ->]).
    2:{ right. eexists. split; [reflexivity | discriminate]. }
    py_step. rewrite res_prepend, prepend_nil.
    destruct (negb (is_dir (w_fs w1 !! path))).
    - autorewrite with run. right. eexists. split; [reflexivity | discriminate].
    - destruct (write_probe_cases path w1) as [H | (e & H & He)]; [left; exact H|].
      right. exists e. split; [exact H | congruence]. }
  assert (Hmain : forall k : Py unit,
    res (try_except
           (ex <- os_path_exists path ;;
            when (negb ex) (os_makedirs path) ;;
            isd <- os_path_isdir path ;;
            if negb isd
            then raise (Exn OSError None ("Path exists but is not a directory: " +:+ path))
            else
              try_except
                (open_wb None (path_join path ".write_test") ;;
                 file_write (path_join path ".write_test") (b_ "test") ;;
                 os_remove (path_join path ".write_test"))
                (fun e =>
                   if is_os_error e
                   then raise (Exn OSError None ("Directory not writable: " +:+ path))
                   else raise e))
           (fun e =>
              if is_file_exists_error e then ret tt
              else if is_os_error e then
                if bool_decide (exn_errno e = Some 3) then
                  if negb (String.eqb (dirname path) "")
                     && negb (String.eqb (dirname path) path)
                  then k
                  else raise (Exn OSError None ("Cannot create directory: " +:+ path))
                else raise (Exn OSError None ("Cannot create directory: " +:+ path))
              else raise (Exception ("Unexpected error creating directory " +:+ path))) w)
    <> Fuel).
  { intros k. rewrite run_try_except. specialize (Hbody w). cbv zeta in Hbody.
    match goal with
    | |- context [match ?X with Outcome _ _ _ => _ end] =>
        destruct X as [[[]|e|] w1 t1]
    end; cbn [res] in *.
    - discriminate.
    - destruct Hbody as [H|(e' & H & He)]; [discriminate|]. inversion H; subst e'.
      rewrite res_prepend.
      destruct (is_file_exists_error e); [discriminate|].
      destruct (is_os_error e); [|discriminate].
      rewrite bool_decide_eq_false_2 by exact He. discriminate.
    - destruct Hbody as [H|(e' & H & _)]; discriminate. }
  destruct fuel; simpl; (destruct (String.eqb path ""); [discriminate | apply Hmain]).
Qed.

Lemma ensure_directory_ends path w : res (ensure_directory path w) <> Fuel.
Proof. apply ensure_directory_rec_ends. Qed.

(** ** [receive_file] as a whole *)

Section ReceiveFileWhole.
Context `{cfg : Config} `{libs : Libs}.

Lemma w_fs_set_temp_fd x w : w_fs (set_temp_fd x w) = w_fs w.
Proof. reflexivity. Qed.

(** The [finally] clause of [receive_file] touches only the descriptor. *)
Lemma receive_file_finalizer_run w :
  exists w', (fd <- gets (fun w => temp_fd (w_frame w)) ;;
              match fd with
              | Some _ => modify (set_temp_fd None)
              | None => ret tt
              end) w = Outcome (Ret tt) w' [] /\
             w_fs w' = w_fs w /\ w_failed w' = w_failed w.
Proof.
  py_step. destruct (temp_fd (w_frame w)); autorewrite with run; cbn [prepend app];
    eexists; repeat split; reflexivity.
Qed.

(** Lines 330-385: the block never lets an exception out; when the guarded
    part raises, the handler leaves no regular file under the final name. *)
Lemma receive_file_flow_spec (fi : metadata) (w : world) :
  let final := path_join RECEIVED_DIR (md_name fi) in
  let o := receive_file_flow fi final w in
  res o = Ret tt /\
  snapshots (visible_ok (w_fs w) final (md_size fi)) (tr o) /\
  visible_ok (w_fs w) final (md_size fi) (w_fs (st o)) /\
  match res (receive_file_guarded fi final w) with
  | Ret _ => exists pre, tr o = pre ++ [EvSend None DONE true]
  | Raise e =>
      is_file (w_fs (st o) !! final) = false /\
      In (EvUi ("Error receiving file: " +:+ exn_text e)) (tr o)
  | Fuel => False
  end.
Proof.
  intros final o. subst o. unfold receive_file_flow.
  rewrite run_try_finally, run_try_except.
  destruct (receive_file_guarded_spec fi w) as (G1 & G2 & G3 & G4).
  fold final in G1, G2, G3, G4.
  destruct (receive_file_guarded fi final w) as [[[]|e|] w1 t1] eqn:Hg;
    cbn [res st tr] in *; [ | | congruence].
  - destruct (receive_file_finalizer_run w1) as (w' & -> & Hfs & _).
    cbn [prepend res st tr]. rewrite app_nil_r, Hfs.
    split; [reflexivity|]. split; [exact G2|]. split; [exact G3|].
    apply G4. reflexivity.
  - destruct (receive_file_cleanup_spec (w_fs w) (md_size fi) final e w1 G3)
      as (C1 & C2 & C3 & C4 & C5).
    destruct (receive_file_cleanup final e w1) as [r w2 t2]; cbn [res st tr] in *.
    subst r. cbn [prepend].
    destruct (receive_file_finalizer_run w2) as (w' & -> & Hfs & _).
    cbn [prepend res st tr]. rewrite app_nil_r, Hfs.
    split; [reflexivity|]. split; [apply snapshots_app; assumption|].
    split.
    { intros d Hd. rewrite Hd in C3. discriminate. }
    split; [exact C3|]. apply in_or_app; right; exact C5.
Qed.


End ReceiveFileWhole.

(** ** What the per-connection handler sees of a failed receive *)

Section Propagation.
Context `{cfg : Config} `{libs : Libs}.

(** Once the directory check has passed, [receive_file] is its guarded
    block run with both staging variables unset. *)
Lemma receive_file_after_directory (fi : metadata) (w w1 : world) t1 :
  ensure_directory RECEIVED_DIR w = Outcome (Ret tt) w1 t1 ->
  receive_file fi w =
  prepend (t1 ++ [EvUi ("Receiving: " +:+ md_name fi)])
    (receive_file_flow fi (path_join RECEIVED_DIR (md_name fi))
       (set_temp_filepath None (set_temp_fd None w1))).
Proof.
  intros Hdir. unfold receive_file. rewrite run_bind, Hdir.
  py_step. py_step. py_step. rewrite !prepend_prepend, ?app_nil_r. reflexivity.
Qed.

(** C7. A failure inside the guarded block of [receive_file] does not reach
    [handle_client]: the [except] block reports it, removes the staging
    file and the final path, and ends without raising, so the transfer
    phase of the handler goes on to [Transfer completed] and returns
    normally.  The claim says the error is propagated after the cleanup;
    the code cleans up and swallows it. *)
Theorem receive_failure_reported_as_completed (md : metadata) (w w1 : world) t1 e :
  String.eqb (md_type md) TRANSFER_TYPES_FILE = true ->
  ensure_directory RECEIVED_DIR w = Outcome (Ret tt) w1 t1 ->
  res (receive_file_guarded md (path_join RECEIVED_DIR (md_name md))
         (set_temp_filepath None (set_temp_fd None w1))) = Raise e ->
  let o := dispatch md w in
  res o = Ret tt /\
  is_file (w_fs (st o) !! path_join RECEIVED_DIR (md_name md)) = false /\
  exists pre,
    tr o = pre ++ [EvUi "Transfer completed"] /\
    In (EvUi ("Error receiving file: " +:+ exn_text e)) pre.
Proof.
  intros Hty Hdir Hraise o. subst o. unfold dispatch.
  rewrite run_try_except, run_bind, Hty, (receive_file_after_directory _ _ _ _ Hdir).
  destruct (receive_file_flow_spec md (set_temp_filepath None (set_temp_fd None w1)))
    as (F1 & _ & _ & F4).
  rewrite Hraise in F4. destruct F4 as [F4 F5].
  destruct (receive_file_flow md _ _) as [r w2 t2]; cbn [res st tr] in *. subst r.
  autorewrite with run. cbn [prepend res st tr].
  split; [reflexivity|]. split; [exact F4|].
  exists ((t1 ++ [EvUi ("Receiving: " +:+ md_name md)]) ++ t2).
  split; [reflexivity|]. apply in_or_app. right. exact F5.
Qed.

End Propagation.

(** The peer closes after two of three announced bytes: the guarded block
    raises, and the transfer phase still ends with [Transfer completed]. *)
Lemma receive_failure_reported_as_completed_witness :
  let md := three_byte_manifest "x" in
  let o := @dispatch example_config (example_libs md) md (staged_world [RxSeg (b_ "ab")]) in
  res o = Ret tt /\
  is_file (w_fs (st o) !! "received/a.txt") = false /\
  exists pre,
    tr o = pre ++ [EvUi "Transfer completed"] /\
    In (EvUi "Error receiving file: Connection lost during file transfer") pre.
Proof.
  eapply (@receive_failure_reported_as_completed example_config
            (example_libs (three_byte_manifest "x")) (three_byte_manifest "x")
            (staged_world [RxSeg (b_ "ab")]) _ _
            (Exception "Connection lost during file transfer")).
  - reflexivity.
  - vm_compute. reflexivity.
  - vm_compute. reflexivity.
Defined.

(** The whole handler on that connection: the failure is shown, then the
    transfer is reported as completed, [handle_client] returns normally and
    nothing is left under [received/]. *)
Lemma truncated_transfer_reported_completed :
  res truncated_transfer = Ret tt /\
  ui_messages (tr truncated_transfer) =
    ["Connected"; "Receiving: a.txt"; "Receiving: a.txt";
     "Error receiving file: Connection lost during file transfer";
     "Transfer completed"] /\
  map_to_list (w_fs (st truncated_transfer)) = [("received", Dir)].
Proof. vm_compute. repeat split. Qed.

(** ** A complete payload whose digest differs *)

(** A read of [n > 0] bytes while payload is pending returns a non-empty
    prefix of it. *)
Lemma rx_take_payload n inbox :
  (0 < n)%nat -> payload_of inbox <> [] ->
  exists chunk inbox',
    rx_take n inbox = (inr chunk, inbox') /\
    chunk <> [] /\ (length chunk <= n)%nat /\
    payload_of inbox = chunk ++ payload_of inbox'.
Proof.
  intros Hn. induction inbox as [|[data|e] rest IH]; cbn [payload_of]; intros Hp.
  - congruence.
  - destruct data as [|b data].
    + cbn [rx_take app] in *. apply IH. exact Hp.
    + cbn [rx_take]. destruct (Nat.leb (length (b :: data)) n) eqn:E.
      * apply Nat.leb_le in E. eexists _, _. split; [reflexivity|].
        split; [discriminate|]. split; [exact E | reflexivity].
      * apply Nat.leb_gt in E. eexists _, _. split; [reflexivity|].
        split; [destruct n; [lia | discriminate]|].
        split; [rewrite length_take; lia|].
        cbn [payload_of]. rewrite app_assoc, take_drop. reflexivity.
  - congruence.
Qed.

Section CompletePayload.
Context `{cfg : Config} `{libs : Libs}.
Variables (temp : string) (size : Z).
Hypothesis buffer_positive : 0 < BUFFER_SIZE.

(** With the payload pending and room on the disk, the receive loop ends
    normally having read exactly the bytes still due. *)
Lemma receive_file_loop_completes fuel : forall got w data,
  w_fs w !! temp = Some (File data) ->
  size - got <= Z.of_nat fuel ->
  size - got <= len (payload_of (sk_inbox (w_sock w))) ->
  size - got <= w_disk_free w ->
  let o := receive_file_loop fuel size temp got w in
  res o = Ret tt /\
  received_bytes_of o = take (Z.to_nat (size - got)) (payload_of (sk_inbox (w_sock w))).
Proof.
  unfold received_bytes_of.
  induction fuel as [|fuel IH]; intros got w data Hfs Hfuel Hpay Hdisk; cbn [receive_file_loop].
  - destruct (got <? size) eqn:E; [apply Z.ltb_lt in E; lia|].
    apply Z.ltb_ge in E. autorewrite with run. cbn [res tr received].
    split; [reflexivity|]. replace (Z.to_nat (size - got)) with 0%nat by lia. reflexivity.
  - destruct (got <? size) eqn:E.
    2:{ apply Z.ltb_ge in E. autorewrite with run. cbn [res tr received].
        split; [reflexivity|]. replace (Z.to_nat (size - got)) with 0%nat by lia.
        reflexivity. }
    apply Z.ltb_lt in E.
    set (n := Z.min BUFFER_SIZE (size - got)).
    assert (Hn : 0 < n) by (unfold n; lia).
    destruct (rx_take_payload (Z.to_nat n) (sk_inbox (w_sock w))) as
      (chunk & inbox' & Htake & Hne & Hlen & Hsplit).
    { lia. }
    { intros Hnil. rewrite Hnil in Hpay. unfold len in Hpay. simpl in Hpay. lia. }
    set (w' := set_sock (set_inbox inbox' (w_sock w)) w).
    assert (Hrecv : sock_recv None n w =
                    Outcome (Ret chunk) w' [EvRecv None n (sk_timeout (w_sock w)) chunk]).
    { unfold sock_recv. destruct (n <? 0) eqn:En; [apply Z.ltb_lt in En; lia|].
      rewrite Htake. reflexivity. }
    assert (Hc : len chunk <= n) by (unfold len; lia).
    set (fs2 := <[temp := File (data ++ chunk)]> (w_fs w)).
    set (w2 := set_fs fs2 (set_disk_free (w_disk_free w - len chunk) w')).
    assert (Hwrite : file_write temp chunk w' =
                     Outcome (Ret tt) w2 [EvWrite temp chunk; EvFs fs2]).
    { unfold file_write. py_step. py_step.
      change (w_fs w') with (w_fs w). rewrite Hfs.
      change (w_disk_free w') with (w_disk_free w).
      destruct (w_disk_free w <? len chunk) eqn:Ed;
        [apply Z.ltb_lt in Ed; unfold n in Hc; lia|].
      py_step. py_step. reflexivity. }
    rewrite run_bind, Hrecv.
    destruct chunk as [|b chunk]; [congruence|]. cbn [is_empty].
    set (c := b :: chunk) in *.
    rewrite run_bind, Hwrite. cbn [prepend].
    destruct (IH (got + len c) w2 (data ++ c)) as [IH1 IH2].
    { apply lookup_insert_eq. }
    { pose proof (len_nonneg c). unfold len, c in *. simpl in *. lia. }
    { cbn. rewrite Hsplit, len_app in Hpay. lia. }
    { cbn. unfold n in Hc. lia. }
    rewrite !res_prepend, !tr_prepend. split; [exact IH1|].
    rewrite !received_app. cbn [received app]. rewrite app_nil_r.
    rewrite IH2. cbn [w2 w_sock set_fs set_disk_free w' set_sock sk_inbox set_inbox].
    rewrite Hsplit.
    replace (Z.to_nat (size - got)) with (length c + Z.to_nat (size - (got + len c)))%nat
      by (unfold len in *; lia).
    rewrite firstn_app_2. reflexivity.
Qed.

End CompletePayload.

(** ** The hash of a complete payload differs *)

Section HashMismatch.
Context `{cfg : Config} `{libs : Libs}.



End HashMismatch.


(** ** The product [required_space * 1.1] in binary64 *)

Lemma digits2_pos_bounds (m : positive) :
  2 ^ (Z.pos (digits2_pos m) - 1) <= Z.pos m < 2 ^ Z.pos (digits2_pos m).
Proof.
  induction m as [m IH|m IH|]; cbn [digits2_pos].
  - rewrite Pos2Z.inj_succ, Z.pow_succ_r by lia.
    replace (Z.succ (Z.pos (digits2_pos m)) - 1) with (Z.succ (Z.pos (digits2_pos m) - 1)) by lia.
    rewrite Z.pow_succ_r by lia. lia.
  - rewrite Pos2Z.inj_succ, Z.pow_succ_r by lia.
    replace (Z.succ (Z.pos (digits2_pos m)) - 1) with (Z.succ (Z.pos (digits2_pos m) - 1)) by lia.
    rewrite Z.pow_succ_r by lia. lia.
  - simpl. lia.
Qed.

Lemma digits2_pos_unique (m : positive) (k : Z) :
  2 ^ (k - 1) <= Z.pos m < 2 ^ k -> Z.pos (digits2_pos m) = k.
Proof.
  intros [Hlo Hhi]. pose proof (digits2_pos_bounds m) as [Dlo Dhi].
  set (d := Z.pos (digits2_pos m)) in *.
  assert (0 < k).
  { destruct (Z_lt_le_dec 0 k); [assumption|]. exfalso.
    assert (2 ^ k <= 1).
    { destruct (Z.eq_dec k 0) as [->|]; [simpl; lia|]. rewrite Z.pow_neg_r by lia. lia. }
    lia. }
  destruct (Z_lt_le_dec d k).
  - assert (2 ^ d <= 2 ^ (k - 1)) by (apply Z.pow_le_mono_r; lia). lia.
  - destruct (Z_lt_le_dec k d); [|lia].
    assert (2 ^ k <= 2 ^ (d - 1)) by (apply Z.pow_le_mono_r; lia). lia.
Qed.

Lemma iter_xO_pow (m d : positive) :
  Z.pos (Pos.iter xO m d) = Z.pos m * 2 ^ Z.pos d.
Proof.
  induction d as [|d IH] using Pos.peano_ind.
  - simpl. lia.
  - rewrite Pos.iter_succ, Pos2Z.inj_xO, IH, Pos2Z.inj_succ, Z.pow_succ_r by lia. lia.
Qed.

Lemma shr_1_m mrs : 0 <= shr_m mrs -> shr_m (shr_1 mrs) = shr_m mrs / 2.
Proof.
  destruct mrs as [m r s]. cbn [shr_m]. intros Hm.
  destruct m as [|[p|p|]|p]; cbn [shr_1 shr_m]; try lia.
  - reflexivity.
  - rewrite Pos2Z.inj_xI. apply Z.div_unique with 1; lia.
  - rewrite Pos2Z.inj_xO. apply Z.div_unique with 0; lia.
  - reflexivity.
Qed.

Lemma iter_shr_1_m (n : positive) : forall mrs,
  0 <= shr_m mrs ->
  shr_m (SpecFloat.iter_pos shr_1 n mrs) = shr_m mrs / 2 ^ Z.pos n.
Proof.
  induction n as [n IH|n IH|]; intros mrs Hm; cbn [SpecFloat.iter_pos].
  - assert (H1 : 0 <= shr_m (shr_1 mrs)) by (rewrite shr_1_m by assumption; apply Z.div_pos; lia).
    assert (H2 : 0 <= shr_m (SpecFloat.iter_pos shr_1 n (shr_1 mrs)))
      by (rewrite IH by assumption; apply Z.div_pos; [assumption | apply Z.pow_pos_nonneg; lia]).
    rewrite IH, IH, shr_1_m by assumption.
    rewrite !Z.div_div by (try apply Z.pow_pos_nonneg; lia).
    f_equal. rewrite Pos2Z.inj_xI, <- Z.pow_add_r, <- Z.pow_succ_r by lia. f_equal. lia.
  - assert (H2 : 0 <= shr_m (SpecFloat.iter_pos shr_1 n mrs))
      by (rewrite IH by assumption; apply Z.div_pos; [assumption | apply Z.pow_pos_nonneg; lia]).
    rewrite IH, IH by assumption.
    rewrite !Z.div_div by (try apply Z.pow_pos_nonneg; lia).
    f_equal. rewrite Pos2Z.inj_xO, <- Z.pow_add_r by lia. f_equal. lia.
  - rewrite shr_1_m by assumption. reflexivity.
Qed.

Lemma shr_record_of_loc_m m l : shr_m (shr_record_of_loc m l) = m.
Proof. destruct l as [|[]]; reflexivity. Qed.

(** The first step of rounding drops the digits beyond the 53rd. *)
Lemma shr_fexp_spec (M : positive) (E : Z) l :
  53 <= Z.pos (digits2_pos M) ->
  -1074 <= Z.pos (digits2_pos M) + E - 53 ->
  exists mrs,
    shr_fexp 53 1024 (Z.pos M) E l = (mrs, E + (Z.pos (digits2_pos M) - 53)) /\
    shr_m mrs = Z.pos M / 2 ^ (Z.pos (digits2_pos M) - 53).
Proof.
  intros HD HE. unfold shr_fexp, fexp, emin. cbn [Zdigits2].
  set (D := Z.pos (digits2_pos M)) in *.
  replace (Z.max (D + E - 53) (3 - 1024 - 53) - E) with (D - 53) by lia.
  destruct (D - 53) as [|n|n] eqn:Hn; try lia.
  - cbn [shr]. eexists. split; [rewrite Z.add_0_r; reflexivity|].
    rewrite shr_record_of_loc_m, Z.pow_0_r, Z.div_1_r. reflexivity.
  - cbn [shr]. eexists. split; [reflexivity|].
    rewrite iter_shr_1_m by (rewrite shr_record_of_loc_m; lia).
    rewrite shr_record_of_loc_m. reflexivity.
Qed.

Lemma round_nearest_even_cases m l :
  round_nearest_even m l = m \/ round_nearest_even m l = m + 1.
Proof. destruct l as [|[]]; cbn; try destruct (Z.even m); auto. Qed.

(** Rounding a positive product of at least 53 digits whose exponent is in
    range: the result is finite and within one unit of the dropped
    digits. *)
Lemma binary_round_aux_bounds (M : positive) (E : Z) :
  let D := Z.pos (digits2_pos M) in
  53 <= D -> -1074 <= D + E - 53 -> D + E <= 1000 ->
  exists (m : positive) (k : Z),
    binary_round_aux 53 1024 false (Z.pos M) E loc_Exact = S754_finite false m (E + k) /\
    D - 53 <= k <= D - 52 /\
    Z.pos M - 2 ^ (D - 53) < Z.pos m * 2 ^ k <= Z.pos M + 2 ^ (D - 53).
Proof.
  intros D HD HE Hmax. unfold binary_round_aux.
  destruct (shr_fexp_spec M E loc_Exact HD HE) as (mrs & -> & Hm). fold D in Hm |- *.
  set (n := D - 53) in *.
  assert (Hn : 0 <= n) by (unfold n; lia).
  assert (Hpow : 0 < 2 ^ n) by (apply Z.pow_pos_nonneg; lia).
  pose proof (digits2_pos_bounds M) as [Dlo Dhi]. fold D in Dlo, Dhi.
  assert (Hm1 : 2 ^ 52 <= shr_m mrs < 2 ^ 53).
  { rewrite Hm. split.
    - apply Z.div_le_lower_bound; [lia|]. rewrite Z.mul_comm, <- Z.pow_add_r by lia.
      replace (52 + n) with (D - 1) by (unfold n; lia). exact Dlo.
    - apply Z.div_lt_upper_bound; [lia|]. rewrite <- Z.pow_add_r by lia.
      replace (n + 53) with D by (unfold n; lia). exact Dhi. }
  assert (Hm2 : Z.pos M - 2 ^ n < shr_m mrs * 2 ^ n <= Z.pos M).
  { rewrite Hm. pose proof (Z.div_mod (Z.pos M) (2 ^ n)) as Hdm.
    pose proof (Z.mod_pos_bound (Z.pos M) (2 ^ n) Hpow). lia. }
  set (m'' := round_nearest_even (shr_m mrs) (loc_of_shr_record mrs)).
  assert (Hr : m'' = shr_m mrs \/ m'' = shr_m mrs + 1) by apply round_nearest_even_cases.
  assert (Hm3 : 2 ^ 52 <= m'' <= 2 ^ 53) by lia.
  assert (Hm4 : Z.pos M - 2 ^ n < m'' * 2 ^ n <= Z.pos M + 2 ^ n) by nia.
  destruct m'' as [|q|q] eqn:Hq; try lia.
  destruct (Z.eq_dec (Z.pos q) (2 ^ 53)) as [Htop | Hlow].
  - assert (Hd : Z.pos (digits2_pos q) = 54) by (apply digits2_pos_unique; lia).
    destruct (shr_fexp_spec q (E + n) loc_Exact) as (mrs2 & -> & Hm5); try lia.
    rewrite Hd in Hm5 |- *. rewrite Htop in Hm5. change (54 - 53) with 1 in *.
    change (2 ^ 53 / 2 ^ 1) with (Z.pos 4503599627370496) in Hm5. rewrite Hm5.
    replace (E + n + 1 <=? 1024 - 53) with true by (symmetry; apply Z.leb_le; unfold n; lia).
    exists 4503599627370496%positive, (n + 1). split; [f_equal; lia|].
    split; [unfold n; lia|].
    rewrite Z.pow_add_r by lia. rewrite Htop in Hm4.
    change (Z.pos 4503599627370496) with (2 ^ 52). change (2 ^ 53) with (2 ^ 52 * 2 ^ 1) in Hm4. lia.
  - assert (Hd : Z.pos (digits2_pos q) = 53) by (apply digits2_pos_unique; lia).
    destruct (shr_fexp_spec q (E + n) loc_Exact) as (mrs2 & -> & Hm5); try lia.
    rewrite Hd in Hm5 |- *. change (53 - 53) with 0 in *.
    rewrite Z.pow_0_r, Z.div_1_r in Hm5. rewrite Hm5.
    replace (E + n + 0 <=? 1024 - 53) with true by (symmetry; apply Z.leb_le; unfold n; lia).
    exists q, n. split; [f_equal; lia|]. split; [unfold n; lia | exact Hm4].
Qed.

(** A mantissa of exactly 53 digits with an exponent in range is kept. *)
Lemma binary_round_aux_exact (M : positive) (E : Z) :
  Z.pos (digits2_pos M) = 53 -> -1074 <= E <= 971 ->
  binary_round_aux 53 1024 false (Z.pos M) E loc_Exact = S754_finite false M E.
Proof.
  intros HD HE.
  assert (Hs : shr_fexp 53 1024 (Z.pos M) E loc_Exact = (Build_shr_record (Z.pos M) false false, E)).
  { unfold shr_fexp, fexp, emin. cbn [Zdigits2]. rewrite HD.
    replace (Z.max (53 + E - 53) (3 - 1024 - 53) - E) with 0 by lia. reflexivity. }
  unfold binary_round_aux. rewrite Hs. cbn [shr_m loc_of_shr_record round_nearest_even].
  rewrite Hs. cbn [shr_m].
  replace (E <=? 1024 - 53) with true by (symmetry; apply Z.leb_le; lia). reflexivity.
Qed.

(** The conversion of an integer below [2^53] is exact. *)
Lemma float_of_int_small (t : positive) :
  Z.pos t < 2 ^ 53 ->
  exists (mz : positive) (a : Z),
    float_of_int (Z.pos t) = S754_finite false mz (- a) /\
    0 <= a <= 52 /\
    Z.pos mz = Z.pos t * 2 ^ a /\
    2 ^ 52 <= Z.pos mz < 2 ^ 53.
Proof.
  intros Ht. pose proof (digits2_pos_bounds t) as [Dlo Dhi].
  remember (Z.pos (digits2_pos t)) as d eqn:Hdd.
  assert (Hd : 1 <= d <= 53).
  { split; [lia|]. destruct (Z_lt_le_dec 53 d); [|lia].
    assert (2 ^ 53 <= 2 ^ (d - 1)) by (apply Z.pow_le_mono_r; lia). lia. }
  unfold float_of_int, binary_normalize, binary_round, fexp, emin, shl_align. rewrite <- Hdd.
  replace (Z.max (d + 0 - 53) (3 - 1024 - 53) - 0) with (d - 53) by lia.
  replace (Z.max (d + 0 - 53) (3 - 1024 - 53)) with (d - 53) by lia.
  destruct (d - 53) as [|n|n] eqn:Hn; try lia.
  - exists t, 0. rewrite binary_round_aux_exact by lia.
    assert (E53 : d = 53) by lia. rewrite E53 in Dlo. change (53 - 1) with 52 in Dlo.
    simpl Z.opp. rewrite Z.pow_0_r. repeat split; lia.
  - assert (Hmz : Z.pos (Pos.iter xO t n) = Z.pos t * 2 ^ (53 - d)).
    { rewrite iter_xO_pow. f_equal. f_equal. lia. }
    assert (Hb : 2 ^ 52 <= Z.pos (Pos.iter xO t n) < 2 ^ 53).
    { assert (Hp : 0 < 2 ^ (53 - d)) by (apply Z.pow_pos_nonneg; lia).
      assert (H52 : 2 ^ 52 = 2 ^ (d - 1) * 2 ^ (53 - d))
        by (rewrite <- Z.pow_add_r by lia; f_equal; lia).
      assert (H53 : 2 ^ 53 = 2 ^ d * 2 ^ (53 - d))
        by (rewrite <- Z.pow_add_r by lia; f_equal; lia).
      rewrite Hmz, H52, H53. split.
      - apply Z.mul_le_mono_nonneg_r; lia.
      - apply Z.mul_lt_mono_pos_r; lia. }
    exists (Pos.iter xO t n), (53 - d).
    rewrite binary_round_aux_exact.
    + split; [f_equal; lia|]. split; [lia|]. split; [exact Hmz | exact Hb].
    + apply digits2_pos_unique. exact Hb.
    + lia.
Qed.

(** The product of a size below [2^48] with the float [1.1]: finite, with
    a negative exponent, above every integer below eleven tenths of the
    size and not above any integer from eleven tenths plus one on. *)
Lemma times_1_1_bounds (t : positive) :
  Z.pos t < 2 ^ 48 ->
  exists (m : positive) (e : Z),
    float_mul (float_of_int (Z.pos t)) float_1_1 = S754_finite false m e /\
    e < 0 /\
    forall free,
      (10 * free < 11 * Z.pos t -> free * 2 ^ (- e) < Z.pos m) /\
      (11 * Z.pos t + 10 <= 10 * free -> Z.pos m <= free * 2 ^ (- e)).
Proof.
  intros Ht.
  destruct (float_of_int_small t) as (mz & a & -> & Ha & Hmz & Hb); [lia|].
  assert (Ha5 : 5 <= a).
  { destruct (Z_lt_le_dec a 5) as [Hlt|]; [|assumption]. exfalso.
    assert (2 ^ a <= 2 ^ 4) by (apply Z.pow_le_mono_r; lia).
    change (2 ^ 4) with 16 in *. nia. }
  assert (HP : 32 <= 2 ^ a).
  { change 32 with (2 ^ 5). apply Z.pow_le_mono_r; lia. }
  unfold float_mul, float_1_1, SFmul. cbn [xorb].
  set (M := (mz * 4953959590107546)%positive).
  assert (HM : Z.pos M = Z.pos mz * 4953959590107546) by reflexivity.
  assert (HMb : 2 ^ 104 <= Z.pos M < 2 ^ 106) by lia.
  assert (HD : Z.pos (digits2_pos M) = 105 \/ Z.pos (digits2_pos M) = 106).
  { destruct (Z_lt_le_dec (Z.pos M) (2 ^ 105)).
    - left. apply digits2_pos_unique. change (105 - 1) with 104. lia.
    - right. apply digits2_pos_unique. change (106 - 1) with 105. lia. }
  destruct (binary_round_aux_bounds M (- a + -52)) as (m & k & -> & Hk & Hmk); try lia.
  exists m, (- a + -52 + k). split; [reflexivity|]. split; [lia|].
  assert (Hrad : 2 ^ (Z.pos (digits2_pos M) - 53) <= 2 ^ 53).
  { apply Z.pow_le_mono_r; lia. }
  set (R := 2 ^ (Z.pos (digits2_pos M) - 53)) in *.
  assert (Hk0 : 0 < 2 ^ k) by (apply Z.pow_pos_nonneg; lia).
  intros free.
  set (G := free * 2 ^ (- (- a + -52 + k))).
  assert (HG : G * 2 ^ k = free * 2 ^ a * 2 ^ 52).
  { unfold G. rewrite <- !Z.mul_assoc, <- !Z.pow_add_r by lia. f_equal. f_equal. lia. }
  set (P := 2 ^ a) in *. set (Q := 2 ^ k) in *.
  split; intros Hf.
  - destruct (Z_lt_le_dec G (Z.pos m)) as [|Hge]; [assumption|]. exfalso.
    assert (Z.pos m * Q <= G * Q) by (apply Z.mul_le_mono_nonneg_r; lia).
    assert (10 * (free * P) <= 11 * (Z.pos t * P) - P) by nia.
    lia.
  - destruct (Z_lt_le_dec G (Z.pos m)) as [Hlt|]; [|assumption]. exfalso.
    assert (G * Q < Z.pos m * Q) by (apply Z.mul_lt_mono_pos_r; lia).
    assert (11 * (Z.pos t * P) + 10 * P <= 10 * (free * P)) by nia.
    lia.
Qed.

(** The comparison [free < total * 1.1] of the disk space check, for
    declared sizes below [2^48] bytes. *)
Lemma space_check_bounds (total free : Z) :
  0 <= total < 2 ^ 48 ->
  (10 * free < 11 * total ->
   int_lt_float free (float_mul (float_of_int total) float_1_1) = true) /\
  (11 * total + 10 <= 10 * free ->
   int_lt_float free (float_mul (float_of_int total) float_1_1) = false).
Proof.
  intros [H0 Ht]. destruct total as [|t|t]; [ | | lia].
  - change (int_lt_float free (float_mul (float_of_int 0) float_1_1)) with (free <? 0).
    split; intros; [apply Z.ltb_lt | apply Z.ltb_ge]; lia.
  - destruct (times_1_1_bounds t Ht) as (m & e & -> & He & Hb).
    destruct (Hb free) as [Hlo Hhi]. cbn [int_lt_float].
    replace (0 <=? e) with false by (symmetry; apply Z.leb_gt; lia).
    split; intros; [apply Z.ltb_lt | apply Z.ltb_ge]; auto.
Qed.

(** ** What a computation can emit *)

Section Emits.
Context {P : event -> Prop}.

Lemma emits_ret {A} (a : A) : emits P (ret a).
Proof. intros w. constructor. Qed.

Lemma emits_raise {A} e : emits P (@raise A e).
Proof. intros w. constructor. Qed.

Lemma emits_out_of_fuel {A} : emits P (@out_of_fuel A).
Proof. intros w. constructor. Qed.

Lemma emits_gets {A} (f : world -> A) : emits P (gets f).
Proof. intros w. constructor. Qed.

Lemma emits_modify f : emits P (modify f).
Proof. intros w. constructor. Qed.

Lemma emits_emit ev : P ev -> emits P (emit ev).
Proof. intros H w. repeat constructor. exact H. Qed.

Lemma emits_ui msg : P (EvUi msg) -> emits P (ui msg).
Proof. apply emits_emit. Qed.

Lemma emits_bind {A B} (m : Py A) (k : A -> Py B) :
  emits P m -> (forall a, emits P (k a)) -> emits P (bind m k).
Proof.
  intros Hm Hk w. rewrite run_bind. specialize (Hm w).
  destruct (m w) as [[a|e|] w1 t1]; cbn [tr] in *; try exact Hm.
  rewrite tr_prepend. apply Forall_app_2; [exact Hm | apply Hk].
Qed.

Lemma emits_try_except {A} (m : Py A) h :
  emits P m -> (forall e, emits P (h e)) -> emits P (try_except m h).
Proof.
  intros Hm Hh w. rewrite run_try_except. specialize (Hm w).
  destruct (m w) as [[a|e|] w1 t1]; cbn [tr] in *; try exact Hm.
  rewrite tr_prepend. apply Forall_app_2; [exact Hm | apply Hh].
Qed.

Lemma emits_ignore_errors m : emits P m -> emits P (ignore_errors m).
Proof. intros Hm. apply emits_try_except; [exact Hm | intros e; apply emits_ret]. Qed.

Lemma emits_try_finally {A} (m : Py A) f :
  emits P m -> emits P f -> emits P (try_finally m f).
Proof.
  intros Hm Hf w. rewrite run_try_finally. specialize (Hm w).
  destruct (m w) as [r w1 t1]; cbn [tr] in *. rewrite tr_prepend.
  apply Forall_app_2; [exact Hm|]. specialize (Hf w1).
  destruct (f w1) as [[[]|e|] w2 t2]; exact Hf.
Qed.

Lemma emits_when c m : emits P m -> emits P (when c m).
Proof. intros Hm. destruct c; [exact Hm | apply emits_ret]. Qed.

Lemma emits_put_fs fs : P (EvFs fs) -> emits P (put_fs fs).
Proof.
  intros H. apply emits_bind; [apply emits_modify | intros _; apply emits_emit; exact H].
Qed.

Lemma emits_sock_settimeout t : P (EvSetTimeout t) -> emits P (sock_settimeout t).
Proof.
  intros H. apply emits_bind; [apply emits_modify | intros _; apply emits_emit; exact H].
Qed.

Lemma emits_sock_recv entry n :
  (forall tmo data, P (EvRecv entry n tmo data)) ->
  (forall tmo e, P (EvRecvFault entry n tmo e)) ->
  emits P (sock_recv entry n).
Proof.
  intros H1 H2 w. unfold sock_recv. destruct (n <? 0); [constructor|].
  destruct (rx_take _ _) as [[e|d] rest]; repeat constructor; auto.
Qed.

Lemma emits_sock_send entry data :
  (forall ok, P (EvSend entry data ok)) -> emits P (sock_send entry data).
Proof.
  intros H w. unfold sock_send.
  destruct (sk_tx_faults (w_sock w)) as [|[e|] rest]; repeat constructor; auto.
Qed.

End Emits.

Lemma emits_impl {A} (P Q : event -> Prop) (m : Py A) :
  (forall ev, P ev -> Q ev) -> emits P m -> emits Q m.
Proof. intros H Hm w. eapply Forall_impl; [apply Hm | exact H]. Qed.

(** The combinators are handled by [emits_go]; what is left are the
    conditions on the events of the primitives. *)
Ltac emits_go :=
  repeat first
    [ apply emits_ret | apply emits_raise | apply emits_out_of_fuel
    | apply emits_gets | apply emits_modify
    | apply emits_ui | apply emits_emit | apply emits_put_fs
    | apply emits_sock_settimeout
    | apply emits_sock_send; intros ?
    | apply emits_sock_recv; intros ? ?
    | apply emits_when | apply emits_ignore_errors
    | apply emits_bind; [|intros ?]
    | apply emits_try_except; [|intros ?]
    | apply emits_try_finally
    | match goal with
      | |- emits _ (if ?c then _ else _) => destruct c
      | |- emits _ (match ?x with _ => _ end) => destruct x
      end ].

Section EmitsFiles.
Context `{cfg : Config} `{libs : Libs}.

Lemma emits_os_makedirs path : emits (fun ev => is_probe ev = true) (os_makedirs path).
Proof. unfold os_makedirs. apply emits_bind; [apply emits_gets|]. intros fs. emits_go; reflexivity. Qed.

Lemma emits_open_wb path : emits (fun ev => is_probe ev = true) (open_wb None path).
Proof. unfold open_wb. apply emits_bind; [apply emits_gets|]. intros fs. emits_go; reflexivity. Qed.

Lemma emits_file_write path chunk : emits (fun ev => is_probe ev = true) (file_write path chunk).
Proof.
  unfold file_write. apply emits_bind; [apply emits_gets|]. intros fs.
  apply emits_bind; [apply emits_gets|]. intros free. emits_go; reflexivity.
Qed.

Lemma emits_os_remove path : emits (fun ev => is_probe ev = true) (os_remove path).
Proof. unfold os_remove. apply emits_bind; [apply emits_gets|]. intros fs. emits_go; reflexivity. Qed.

Lemma emits_ensure_directory_rec fuel : forall path,
  emits (fun ev => is_probe ev = true) (ensure_directory_rec fuel path).
Proof.
  induction fuel as [|fuel IH]; intros path; cbn [ensure_directory_rec];
    (destruct (String.eqb path ""); [apply emits_ret|]);
    (apply emits_try_except;
     [ apply emits_bind; [apply emits_gets|]; intros ex;
       apply emits_bind; [apply emits_when, emits_os_makedirs|]; intros _;
       apply emits_bind; [apply emits_gets|]; intros isd;
       destruct (negb isd); [apply emits_raise|];
       apply emits_try_except;
       [ apply emits_bind; [apply emits_open_wb|]; intros _;
         apply emits_bind; [apply emits_file_write|]; intros _; apply emits_os_remove
       | intros e; destruct (is_os_error e); apply emits_raise ]
     | intros e; destruct (is_file_exists_error e); [apply emits_ret|];
       destruct (is_os_error e); [|apply emits_raise];
       destruct (bool_decide _); [|apply emits_raise];
       destruct (_ && _); [|apply emits_raise] ]).
  - apply emits_out_of_fuel.
  - apply emits_bind; [apply IH | intros _; apply emits_os_makedirs].
Qed.

Lemma emits_ensure_directory path :
  emits (fun ev => is_probe ev = true) (ensure_directory path).
Proof. apply emits_ensure_directory_rec. Qed.

Lemma emits_get_disk_usage path :
  emits (fun ev => is_probe ev = true) (get_disk_usage path).
Proof.
  unfold get_disk_usage.
  apply emits_bind; [apply emits_try_except; [apply emits_ensure_directory | intros; apply emits_ret]|].
  intros _. unfold shutil_disk_usage. emits_go.
Qed.

Lemma emits_verify_file_hash p expected :
  emits (fun ev => match ev with EvUi _ | EvHash _ => True | _ => False end)
        (_verify_file_hash p expected).
Proof. intros w. apply verify_file_hash_frame. Qed.

End EmitsFiles.

(** ** The disk space check of [receive_directory] *)

Lemma times_1_1_small (size : Z) :
  0 <= size < 2 ^ 48 ->
  times_1_1 size = Some (float_mul (float_of_int size) float_1_1).
Proof.
  intros [H0 Hs]. unfold times_1_1. destruct size as [|t|t]; [reflexivity | | lia].
  destruct (float_of_int_small t) as (mz & a & -> & _); [lia | reflexivity].
Qed.

Lemma probe_not_mkdtemp ev : is_probe ev = true -> is_mkdtemp ev = false.
Proof. destruct ev; try discriminate; reflexivity. Qed.

Lemma probe_not_send ev : is_probe ev = true -> is_send ev = false.
Proof. destruct ev; try discriminate; reflexivity. Qed.

Section DiskSpace.
Context `{cfg : Config} `{libs : Libs}.

(** The check once the free space is known. *)
Lemma check_disk_space_run (dir_info : metadata) (w w1 w2 : world) t1 t2 total used free :
  ensure_directory RECEIVED_DIR w = Outcome (Ret tt) w1 t1 ->
  get_disk_usage RECEIVED_DIR w1 = Outcome (Ret (Some (total, used, free))) w2 t2 ->
  0 <= md_total_size dir_info < 2 ^ 48 ->
  if int_lt_float free (float_mul (float_of_int (md_total_size dir_info)) float_1_1)
  then exists w3 ok,
         check_disk_space dir_info w =
           Outcome (Ret false) w3
             (t1 ++ t2 ++ [EvUi "Insufficient disk space"; EvSend None SPACE_ERROR ok])
  else check_disk_space dir_info w =
         Outcome (Ret true) w2 (t1 ++ t2 ++ [EvUi "Available space"]).
Proof.
  intros Hdir Huse Hsize. unfold check_disk_space.
  rewrite run_try_except, run_bind, Hdir. cbn [prepend].
  rewrite run_bind, Huse. cbn [prepend]. rewrite (times_1_1_small _ Hsize).
  destruct (int_lt_float _ _).
  - py_step. rewrite run_bind. unfold ignore_errors. rewrite run_try_except.
    destruct (sock_send_cases None SPACE_ERROR w2) as (w3 & r & ok & -> & Hr & _).
    destruct ok.
    + subst r. autorewrite with run. cbn [prepend app]. eexists _, true. reflexivity.
    + destruct Hr as [e ->]. autorewrite with run. cbn [prepend app]. eexists _, false.
      reflexivity.
  - py_step. cbn [prepend app]. reflexivity.
Qed.

(** C4. The disk space check of [receive_directory], when the free space
    is known: the transfer is refused -- [SPACE_ERROR] is written, the
    function returns and no temporary directory is created -- exactly when
    Python's [free_space < required_space * 1.1] holds, a comparison of the
    integer with the binary64 product.  For declared sizes below [2^48]
    bytes this refuses every free space below eleven tenths of the size and
    lets through every free space of at least eleven tenths plus one byte;
    between the two the rounding of the product decides. *)
Theorem disk_space_check_boundary (dir_info : metadata) (w w1 w2 : world) t1 t2
    total used free :
  let size := md_total_size dir_info in
  let start := set_temp_dir None w in
  ensure_directory RECEIVED_DIR start = Outcome (Ret tt) w1 t1 ->
  get_disk_usage RECEIVED_DIR w1 = Outcome (Ret (Some (total, used, free))) w2 t2 ->
  0 <= size < 2 ^ 48 ->
  let short := int_lt_float free (float_mul (float_of_int size) float_1_1) in
  let o := receive_directory dir_info w in
  (10 * free < 11 * size -> short = true) /\
  (11 * size + 10 <= 10 * free -> short = false) /\
  (short = true ->
     res o = Ret tt /\
     Forall (fun ev => is_mkdtemp ev = false) (tr o) /\
     exists pre ok,
       tr o = pre ++ [EvUi "Insufficient disk space"; EvSend None SPACE_ERROR ok]) /\
  (short = false ->
     exists t,
       check_disk_space dir_info start = Outcome (Ret true) w2 t /\
       Forall (fun ev => is_send ev = false) t).
Proof.
  intros size start Hdir Huse Hsize short o.
  destruct (space_check_bounds size free Hsize) as [Hlo Hhi].
  split; [exact Hlo|]. split; [exact Hhi|].
  pose proof (check_disk_space_run dir_info start w1 w2 t1 t2 total used free
                Hdir Huse Hsize) as Hrun.
  fold size in Hrun. fold short in Hrun.
  assert (Hq1 : Forall (fun ev => is_probe ev = true) t1).
  { pose proof (emits_ensure_directory RECEIVED_DIR start) as H. rewrite Hdir in H. exact H. }
  assert (Hq2 : Forall (fun ev => is_probe ev = true) t2).
  { pose proof (emits_get_disk_usage RECEIVED_DIR w1) as H. rewrite Huse in H. exact H. }
  split; intros Hs; rewrite Hs in Hrun.
  - destruct Hrun as (w3 & ok & Hrun). subst o. unfold receive_directory.
    py_step. py_step. rewrite run_bind. fold start. rewrite Hrun.
    cbn [prepend negb]. autorewrite with run. cbn [prepend res tr app].
    split; [reflexivity|]. split.
    + constructor; [reflexivity|]. rewrite app_nil_r.
      apply Forall_app_2; [eapply Forall_impl; [exact Hq1 | apply probe_not_mkdtemp]|].
      apply Forall_app_2; [eapply Forall_impl; [exact Hq2 | apply probe_not_mkdtemp]|].
      repeat constructor.
    + exists (EvUi ("Receiving Directory: " +:+ md_name dir_info) :: t1 ++ t2), ok.
      rewrite app_nil_r. cbn [app]. rewrite <- app_assoc. reflexivity.
  - eexists. split; [exact Hrun|].
    apply Forall_app_2; [eapply Forall_impl; [exact Hq1 | apply probe_not_send]|].
    apply Forall_app_2; [eapply Forall_impl; [exact Hq2 | apply probe_not_send]|].
    repeat constructor.
Qed.

End DiskSpace.

(** Ten bytes announced, eleven free. *)
Lemma disk_space_check_boundary_witness :
  let cfg := example_config in
  let dir_info := sized_manifest 10 in
  let w := roomy_world 11 in
  let checked := ensure_directory (@RECEIVED_DIR cfg) (set_temp_dir None w) in
  let usage := get_disk_usage (@RECEIVED_DIR cfg) (st checked) in
  let short := int_lt_float 11 (float_mul (float_of_int (md_total_size dir_info)) float_1_1) in
  let o := @receive_directory cfg (example_libs dir_info) dir_info w in
  (10 * 11 < 11 * md_total_size dir_info -> short = true) /\
  (11 * md_total_size dir_info + 10 <= 10 * 11 -> short = false) /\
  (short = true ->
     res o = Ret tt /\
     Forall (fun ev => is_mkdtemp ev = false) (tr o) /\
     exists pre ok,
       tr o = pre ++ [EvUi "Insufficient disk space"; EvSend None SPACE_ERROR ok]) /\
  (short = false ->
     exists t,
       @check_disk_space cfg dir_info (set_temp_dir None w) = Outcome (Ret true) (st usage) t /\
       Forall (fun ev => is_send ev = false) t).
Proof.
  intros cfg dir_info w checked usage.
  apply (@disk_space_check_boundary cfg (example_libs dir_info) dir_info w
           (st checked) (st usage) (tr checked) (tr usage) 11 0 11).
  - vm_compute. reflexivity.
  - vm_compute. reflexivity.
  - change (0 <= 10 < 2 ^ 48). lia.
Defined.

(** Free space exactly at eleven tenths of the announced size: with ten
    bytes announced and eleven free the transfer goes on (no [SPACE_ERROR],
    the temporary directory is created), the product being [11.0]; with
    fifty announced and fifty-five free it is refused, the product being
    the float just above [55]. *)
Lemma disk_space_boundary_depends_on_rounding :
  10 * 11 = 11 * 10 /\
  existsb is_space_error (tr (boundary_run 10 11)) = false /\
  existsb is_mkdtemp (tr (boundary_run 10 11)) = true /\
  10 * 55 = 11 * 50 /\
  existsb is_space_error (tr (boundary_run 50 55)) = true /\
  existsb is_mkdtemp (tr (boundary_run 50 55)) = false.
Proof. vm_compute. repeat split. Qed.

(** ** Directory transfers, entry by entry *)

Lemma received_in_app i t1 t2 :
  received_in i (t1 ++ t2) = received_in i t1 ++ received_in i t2.
Proof.
  induction t1 as [|ev t1 IH]; [reflexivity|].
  destruct ev as [| | |[j|] n tmo data| | | | | | | | | | | | | |]; cbn [app received_in];
    try exact IH.
  destruct (Nat.eqb i j); [rewrite IH, app_assoc; reflexivity | exact IH].
Qed.

(** Events of other entries carry no byte of entry [i]. *)
Lemma received_in_other i k t :
  Forall (within_entry k) t -> i <> k -> received_in i t = [].
Proof.
  intros Ht Hik. induction Ht as [|ev t Hev _ IH]; [reflexivity|].
  destruct ev as [| | |[j|] n tmo data| | | | | | | | | | | | | |]; cbn [received_in];
    try exact IH.
  destruct (Nat.eqb_spec i j) as [->|]; [|exact IH].
  destruct Hev as [Hev|Hev]; cbn in Hev; congruence.
Qed.

(** The only write on the socket of a trace that ends with it. *)
Lemma last_send_unique Q s tail pre ev post :
  Forall (fun ev => is_send ev = false) Q ->
  Forall (fun ev => is_send ev = false) tail ->
  Q ++ s :: tail = pre ++ ev :: post -> is_send ev = true ->
  pre = Q /\ ev = s /\ post = tail.
Proof.
  intros HQ Htail. revert pre. induction HQ as [|q Q Hq _ IH]; intros pre Heq Hev.
  - destruct pre as [|x pre]; cbn in Heq.
    + inversion Heq; subst. auto.
    + inversion Heq; subst. rewrite List.Forall_forall in Htail.
      rewrite Htail in Hev; [discriminate|]. apply in_elt.
  - destruct pre as [|x pre]; cbn in Heq.
    + inversion Heq; subst. congruence.
    + inversion Heq; subst. destruct (IH pre H1 Hev) as (-> & -> & ->). auto.
Qed.

(** One more entry at the front of an ordered loop. *)
Lemma in_entry_order_step (done : nat -> event -> Prop) lo t1 t2 :
  Forall (within_entry lo) t1 ->
  (t2 <> [] -> exists ev, In ev t1 /\ done lo ev) ->
  in_entry_order done (S lo) t2 ->
  in_entry_order done lo (t1 ++ t2).
Proof.
  intros Ht1 Hdone Ht2 pre ev post j Heq Hj.
  apply app_eq_app in Heq as [l [[-> Hl] | [-> Hl]]].
  - (* the event is in [t1], or is the first of [t2] *)
    destruct l as [|x l]; cbn in Hl.
    + rewrite app_nil_r in *. destruct (Ht2 [] ev post j (eq_sym Hl) Hj) as [Hle Hbefore].
      split; [lia|]. intros i Hi.
      destruct (Nat.eq_dec i lo) as [->|Hne].
      * apply Hdone. rewrite <- Hl. discriminate.
      * destruct (Hbefore i) as (ev' & [] & _). lia.
    + inversion Hl; subst x post. clear Hl.
      assert (Hin : within_entry lo ev).
      { rewrite List.Forall_forall in Ht1. apply Ht1.
        apply in_or_app. right. left. reflexivity. }
      destruct Hin as [Hn|Hs]; [congruence|].
      assert (j = lo) by congruence. subst j. split; [lia|]. intros i Hi. lia.
  - (* the event is in [t2] *)
    destruct (Ht2 l ev post j Hl Hj) as [Hle Hbefore].
    split; [lia|]. intros i Hi.
    destruct (Nat.eq_dec i lo) as [->|Hne].
    + destruct Hdone as (ev' & Hin & Hd).
      { rewrite Hl. destruct l; discriminate. }
      exists ev'. split; [apply in_or_app; left; exact Hin | exact Hd].
    + destruct (Hbefore i) as (ev' & Hin & Hd); [lia|].
      exists ev'. split; [apply in_or_app; right; exact Hin | exact Hd].
Qed.

Lemma in_entry_order_nil done lo : in_entry_order done lo [].
Proof. intros [|x pre] ev post j Heq; discriminate Heq. Qed.

Lemma probe_within i ev : is_probe ev = true -> within_entry i ev.
Proof. destruct ev as [| | | | | | | | | |[e|] p| | | | | | |]; try discriminate; left; reflexivity. Qed.

Lemma hash_event_within i ev :
  match ev with EvUi _ | EvHash _ => True | _ => False end -> within_entry i ev.
Proof. destruct ev; intros []; left; reflexivity. Qed.

Lemma hash_event_not_send ev :
  match ev with EvUi _ | EvHash _ => True | _ => False end -> is_send ev = false.
Proof. destruct ev; intros []; reflexivity. Qed.

Ltac within_solve := first [left; reflexivity | right; reflexivity | reflexivity].

Section ReceiverOrder.
Context `{cfg : Config} `{libs : Libs}.
Variables (tmp : string) (i : nat) (file_info : file_entry).

Lemma emits_receive_entry_loop (P : event -> Prop) fuel :
  (forall ev, within_entry i ev -> is_send ev = false -> P ev) ->
  forall file_path got, emits P (receive_entry_loop fuel i file_info file_path got).
Proof.
  intros HP. induction fuel as [|fuel IH]; intros file_path got; cbn [receive_entry_loop];
    (destruct (got <? fe_size file_info); [|apply emits_ret]).
  - apply emits_out_of_fuel.
  - apply emits_bind; [|intros data; apply IH].
    apply emits_try_except.
    + apply emits_bind; [apply emits_sock_settimeout; apply HP; within_solve|]. intros _.
      apply emits_bind; [apply emits_sock_recv; intros; apply HP; within_solve|]. intros data.
      destruct (is_empty data); [apply emits_raise|].
      apply emits_bind; [|intros _; apply emits_ret].
      eapply emits_impl; [|apply emits_file_write].
      intros ev Hev. apply HP; [apply probe_within | apply probe_not_send]; exact Hev.
    + intros e. emits_go.
Qed.

(** A handler that always raises lets only the results of the guarded
    block through. *)
Lemma try_except_ret_inv {A} (m : Py A) h w a w' t' :
  (forall e w0 a0, res (h e w0) <> Ret a0) ->
  try_except m h w = Outcome (Ret a) w' t' ->
  m w = Outcome (Ret a) w' t'.
Proof.
  intros Hh. rewrite run_try_except. destruct (m w) as [[a1|e|] w1 t1]; auto.
  intros H. exfalso. apply (Hh e w1 a). rewrite <- (res_prepend t1), H. reflexivity.
Qed.

(** One iteration of the loop: a chunk is returned only after it has been
    appended to the file. *)
Lemma receive_chunk_ret (file_path : string) (got : Z) (w : world) c data w' t' :
  w_fs w !! file_path = Some (File c) ->
  try_except
    (sock_settimeout (Some 30) ;;
     data <- sock_recv (Some i) (Z.min BUFFER_SIZE (fe_size file_info - got)) ;;
     if is_empty data
     then raise (Exception ("Connection lost during " +:+ fe_path file_info
                            +:+ " transfer at " +:+ pretty got
                            +:+ "/" +:+ pretty (fe_size file_info) +:+ " bytes"))
     else file_write file_path data ;; ret data)
    (fun e =>
       if is_socket_timeout e
       then raise (Exn SocketTimeout None ("Timeout receiving " +:+ fe_path file_info))
       else if is_os_error e
       then
         if bool_decide (exn_errno e = Some 10054)
         then raise (Exception ("Sender forcibly closed connection during "
                                +:+ fe_path file_info))
         else raise (Exn OSError None
                       ("Network error receiving " +:+ fe_path file_info
                        +:+ " (error " +:+ error_code_text e +:+ "): "
                        +:+ exn_text e))
       else raise e) w = Outcome (Ret data) w' t' ->
  w_fs w' !! file_path = Some (File (c ++ data)) /\ received_in i t' = data.
Proof.
  intros Hc H. apply try_except_ret_inv in H.
  2:{ intros e w0 a0. destruct (is_socket_timeout e); [discriminate|].
      destruct (is_os_error e); [|discriminate]. destruct (bool_decide _); discriminate. }
  rewrite run_bind in H. autorewrite with run in H. cbv beta iota in H.
  rewrite run_bind in H.
  set (n := Z.min BUFFER_SIZE (fe_size file_info - got)) in *.
  set (w1 := set_sock _ w) in *.
  destruct (sock_recv_cases (Some i) n w1) as
    [(chunk & w2 & Hr & _) | [(e & w2 & Hr & _) | (e & Hr & _)]]; rewrite Hr in H;
    cbn [prepend] in H; try discriminate.
  assert (Hfs2 : w_fs w2 = w_fs w).
  { assert (Hf : only_socket_changed w1 w2).
    { pose proof (sock_recv_frame (Some i) n w1) as Hf. rewrite Hr in Hf. exact Hf. }
    rewrite (only_socket_changed_fs _ _ Hf). reflexivity. }
  destruct (is_empty chunk); [autorewrite with run in H; discriminate|].
  rewrite run_bind in H.
  destruct (file_write_cases file_path chunk w2) as [(c' & Hc' & Hw) | (e & Hw)];
    rewrite Hw in H; [|discriminate].
  rewrite Hfs2, Hc in Hc'. inversion Hc'; subst c'.
  autorewrite with run in H. cbn [prepend app] in H.
  inversion H; subst. rewrite w_fs_set_fs. split; [apply lookup_insert_eq|].
  cbn [received_in]. rewrite Nat.eqb_refl, app_nil_r. reflexivity.
Qed.

(** The loop leaves in the file what it read for the entry. *)
Lemma receive_entry_loop_content fuel : forall file_path got w c w' t',
  w_fs w !! file_path = Some (File c) ->
  receive_entry_loop fuel i file_info file_path got w = Outcome (Ret tt) w' t' ->
  w_fs w' !! file_path = Some (File (c ++ received_in i t')).
Proof.
  induction fuel as [|fuel IH]; intros file_path got w c w' t' Hc H;
    cbn [receive_entry_loop] in H; destruct (got <? fe_size file_info).
  - discriminate.
  - inversion H; subst. cbn [received_in]. rewrite app_nil_r. exact Hc.
  - rewrite run_bind in H.
    match type of H with
    | context [match ?x with _ => _ end] => destruct x as [[data|e|] w1 t1] eqn:Hin
    end; try discriminate.
    destruct (receive_chunk_ret _ _ _ _ _ _ _ Hc Hin) as [Hfs Hrec].
    destruct (receive_entry_loop fuel i file_info file_path (got + len data) w1)
      as [r w2 t2] eqn:Hl.
    cbn [prepend] in H. inversion H; subst.
    rewrite (IH _ _ _ _ _ _ Hfs Hl), received_in_app, app_assoc. reflexivity.
  - inversion H; subst. cbn [received_in]. rewrite app_nil_r. exact Hc.
Qed.

Lemma received_in_probe t : Forall (fun ev => is_probe ev = true) t -> received_in i t = [].
Proof.
  induction 1 as [|ev t Hev _ IH]; [reflexivity|].
  destruct ev; try discriminate; exact IH.
Qed.

Lemma received_in_hash t :
  Forall (fun ev => match ev with EvUi _ | EvHash _ => True | _ => False end) t ->
  received_in i t = [].
Proof.
  induction 1 as [|ev t Hev _ IH]; [reflexivity|].
  destruct ev; try contradiction; exact IH.
Qed.

(** A handler that reports and raises again. *)
Lemma report_and_raise_run {A} (m : Py A) (msg : exn -> string) w :
  try_except m (fun e => ui (msg e) ;; raise e) w =
  match m w with
  | Outcome (Raise e) w1 t1 => Outcome (Raise e) w1 (t1 ++ [EvUi (msg e)])
  | o => o
  end.
Proof.
  rewrite run_try_except. destruct (m w) as [[a|e|] w1 t1]; reflexivity.
Qed.

Lemma open_wb_cases entry p w :
  (exists w' fs', open_wb entry p w = Outcome (Ret tt) w' [EvOpen entry p; EvFs fs'] /\
                  w_fs w' !! p = Some (File [])) \/
  (exists e, open_wb entry p w = Outcome (Raise e) w []).
Proof.
  unfold open_wb. py_step. destruct (w_fs w !! p) as [[c|]|].
  - left. eexists _, _. py_step. py_step. split; [reflexivity | apply lookup_insert_eq].
  - right. eexists. autorewrite with run. reflexivity.
  - left. eexists _, _. py_step. split; [reflexivity | apply lookup_insert_eq].
Qed.

Ltac no_send :=
  rewrite ?app_nil_r;
  repeat first [ assumption
               | apply Forall_nil_2
               | apply Forall_cons_2; [reflexivity|]
               | apply Forall_app_2 ].

(** One entry of the receiving loop has the shape [entry_shape]. *)
Lemma receive_entry_shape (w : world) :
  exists r w' t',
    receive_entry tmp i file_info w = Outcome r w' t' /\ entry_shape tmp i file_info r t'.
Proof.
  unfold receive_entry. set (p := path_join tmp (fe_path file_info)).
  py_step. rewrite run_bind.
  (* the directory of the entry *)
  match goal with
  | |- context [try_except (ensure_directory ?d) ?h w] =>
      assert (Hd : Forall (fun ev => is_probe ev = true)
                          (tr (try_except (ensure_directory d) h w)))
        by (apply emits_try_except; [apply emits_ensure_directory | intros e; apply emits_raise]);
      destruct (try_except (ensure_directory d) h w) as [[[]|e0|] w0 t0]
  end; cbn [tr] in Hd.
  2,3: eexists _, _, _; split; [reflexivity|]; left; split; [discriminate|];
       constructor; [reflexivity|]; eapply Forall_impl; [exact Hd | apply probe_not_send].
  assert (Hd' : Forall (fun ev => is_send ev = false) t0)
    by (eapply Forall_impl; [exact Hd | apply probe_not_send]).
  rewrite report_and_raise_run, run_bind.
  destruct (open_wb_cases (Some i) p w0) as [(w1 & fs1 & -> & Hp1) | (e1 & ->)].
  2:{ eexists _, _, _. split; [reflexivity|]. left. split; [discriminate|]. no_send. }
  cbn [prepend]. rewrite run_bind.
  pose proof (emits_receive_entry_loop (fun ev => is_send ev = false)
                (Z.to_nat (fe_size file_info)) (fun ev _ H => H) p 0 w1) as Hl.
  pose proof (receive_entry_loop_content (Z.to_nat (fe_size file_info)) p 0 w1 [] ) as Hc.
  destruct (receive_entry_loop _ i file_info p 0 w1) as [[[]|e2|] w2 t2]; cbn [tr] in Hl.
  2,3: eexists _, _, _; split; [reflexivity|]; left; split; [discriminate|]; no_send.
  specialize (Hc w2 t2 Hp1 eq_refl). cbn [app] in Hc.
  cbn [prepend]. rewrite run_bind. unfold os_path_getsize. py_step. rewrite Hc.
  py_step. autorewrite with run. cbn [prepend app].
  destruct (len (received_in i t2) =? fe_size file_info) eqn:Hsz; cbn [negb].
  2:{ autorewrite with run. cbn [prepend app].
      eexists _, _, _. split; [reflexivity|]. left. split; [discriminate|]. no_send. }
  apply Z.eqb_eq in Hsz. rewrite run_bind.
  match goal with
  | |- context [match ?hv w2 with _ => _ end] =>
      assert (Hh : Forall (fun ev => match ev with EvUi _ | EvHash _ => True | _ => False end)
                          (tr (hv w2)));
      [ destruct (fe_hash file_info) as [h|];
        [ destruct (negb SKIP_HASH_VERIFICATION); [apply emits_verify_file_hash | constructor]
        | constructor ]
      | destruct (hv w2) as [[hash_valid|e3|] w3 t3] ]
  end; cbn [tr] in Hh.
  2,3: cbn [prepend app]; eexists _, _, _; split; [reflexivity|]; left;
       split; [discriminate|]; no_send;
       eapply Forall_impl; [exact Hh | apply hash_event_not_send].
  assert (Hh' : Forall (fun ev => is_send ev = false) t3)
    by (eapply Forall_impl; [exact Hh | apply hash_event_not_send]).
  set (verdict := if hash_valid then "Hash Verified: " +:+ fe_path file_info
                  else "Failed hash check: " +:+ fe_path file_info).
  assert (Hui : forall (k : Py unit) w0,
            ((if hash_valid then ui ("Hash Verified: " +:+ fe_path file_info)
              else ui ("Failed hash check: " +:+ fe_path file_info)) ;; k) w0
            = prepend [EvUi verdict] (k w0)).
  { intros k w0'. unfold verdict. destruct hash_valid; py_step; reflexivity. }
  cbn [prepend]. rewrite Hui, run_try_except. py_step.
  match goal with
  | |- context [sock_send (Some i) ACK2 ?w4] =>
      destruct (sock_send_cases (Some i) ACK2 w4) as (w5 & r5 & ok & -> & Hr & _)
  end.
  destruct ok.
  - subst r5. cbn [prepend app].
    eexists _, _, _. split; [reflexivity|]. right.
    exists (EvUi ("[" +:+ pretty i +:+ "] " +:+ fe_path file_info)
              :: t0 ++ EvOpen (Some i) p :: EvFs fs1
              :: t2 ++ EvGetsize (Some i) p (len (received_in i t2))
              :: t3 ++ [EvUi verdict; EvSetTimeout (Some 10)]), true, [].
    split.
    { cbn [app]. f_equal. rewrite <- !app_assoc. cbn [app]. f_equal. f_equal. f_equal.
      rewrite <- !app_assoc. cbn [app]. f_equal. f_equal. rewrite <- !app_assoc. reflexivity. }
    split; [no_send|]. split; [constructor|]. split.
    { cbn [received_in]. rewrite received_in_app, (received_in_probe t0 Hd).
      cbn [app received_in]. rewrite received_in_app. cbn [received_in].
      rewrite received_in_app, (received_in_hash t3 Hh). cbn [received_in].
      rewrite !app_nil_r. exact Hsz. }
    split; [|reflexivity].
    right. apply in_or_app. right. right. right. apply in_or_app. right. left.
    rewrite Hsz. reflexivity.
  - destruct Hr as [e5 ->]. cbn [prepend app]. autorewrite with run. cbn [prepend app].
    eexists _, _, _. split; [reflexivity|]. right.
    exists (EvUi ("[" +:+ pretty i +:+ "] " +:+ fe_path file_info)
              :: t0 ++ EvOpen (Some i) p :: EvFs fs1
              :: t2 ++ EvGetsize (Some i) p (len (received_in i t2))
              :: t3 ++ [EvUi verdict; EvSetTimeout (Some 10)]), false.
    eexists.
    split.
    { cbn [app]. f_equal. rewrite <- !app_assoc. cbn [app]. f_equal. f_equal. f_equal.
      rewrite <- !app_assoc. cbn [app]. f_equal. f_equal. rewrite <- !app_assoc. cbn [app].
      reflexivity. }
    split; [no_send|]. split; [repeat constructor|]. split.
    { cbn [received_in]. rewrite received_in_app, (received_in_probe t0 Hd).
      cbn [app received_in]. rewrite received_in_app. cbn [received_in].
      rewrite received_in_app, (received_in_hash t3 Hh). cbn [received_in].
      rewrite !app_nil_r. exact Hsz. }
    split; [|discriminate].
    right. apply in_or_app. right. right. right. apply in_or_app. right. left.
    rewrite Hsz. reflexivity.
Qed.

Lemma emits_open_wb_entry p : emits (within_entry i) (open_wb (Some i) p).
Proof. unfold open_wb. apply emits_bind; [apply emits_gets|]. intros fs. emits_go; within_solve. Qed.

Lemma emits_os_path_getsize p : emits (within_entry i) (os_path_getsize (Some i) p).
Proof.
  unfold os_path_getsize. apply emits_bind; [apply emits_gets|]. intros fs.
  emits_go; within_solve.
Qed.

(** Everything one entry does belongs to it. *)
Lemma emits_receive_entry : emits (within_entry i) (receive_entry tmp i file_info).
Proof.
  unfold receive_entry.
  apply emits_bind; [apply emits_ui; within_solve|]. intros _.
  apply emits_bind.
  { apply emits_try_except; [|intros e; apply emits_raise].
    eapply emits_impl; [|apply emits_ensure_directory]. apply probe_within. }
  intros _. apply emits_try_except.
  2:{ intros e. emits_go. within_solve. }
  apply emits_bind; [apply emits_open_wb_entry|]. intros _.
  apply emits_bind; [apply emits_receive_entry_loop; auto|]. intros _.
  apply emits_bind; [apply emits_os_path_getsize|]. intros actual_size.
  destruct (negb _); [apply emits_raise|].
  apply emits_bind.
  { destruct (fe_hash file_info) as [h|]; [|apply emits_ret].
    destruct (negb SKIP_HASH_VERIFICATION); [|apply emits_ret].
    eapply emits_impl; [|apply emits_verify_file_hash]. apply hash_event_within. }
  intros hash_valid. emits_go; within_solve.
Qed.

End ReceiverOrder.

Section ReceiverLoop.
Context `{cfg : Config} `{libs : Libs}.
Variable tmp : string.

(** An entry of the shape [entry_shape] in front of a validated loop. *)
Lemma ack_after_validation_step lo fi rest r t1 t2 :
  Forall (within_entry lo) t1 ->
  entry_shape tmp lo fi r t1 ->
  in_entry_order ack_sent (S lo) t2 ->
  ack_after_validation tmp (S lo) rest t2 ->
  ack_after_validation tmp lo (fi :: rest) (t1 ++ t2).
Proof.
  intros Hin Hshape Hord Hval pre data ok post i Heq.
  apply app_eq_app in Heq as [l [[-> Hl] | [-> Hl]]].
  - destruct l as [|x l]; cbn in Hl.
    + destruct (Hval [] data ok post i (eq_sym Hl)) as (_ & fi' & _ & _ & []).
    + inversion Hl; subst x post. clear Hl.
      destruct Hshape as [[_ Hq] | (Q & ok' & tail & HQ & Hq & Htail & Hlen & Hsize & _)].
      { rewrite List.Forall_forall in Hq.
        assert (Hbad : is_send (EvSend (Some i) data ok) = false)
          by (apply Hq, in_or_app; right; left; reflexivity).
        discriminate Hbad. }
      destruct (last_send_unique Q _ tail pre _ l Hq Htail (eq_sym HQ) eq_refl) as (-> & Hev & ->).
      inversion Hev; subst. split; [reflexivity|].
      exists fi. rewrite Nat.sub_diag. split; [reflexivity|]. split; assumption.
  - destruct (Hord l _ post i Hl eq_refl) as [Hle _].
    destruct (Hval l data ok post i Hl) as (Hdata & fi' & Hfi & Hlen & Hsize).
    split; [exact Hdata|]. exists fi'.
    replace (i - lo)%nat with (S (i - S lo)) by lia. split; [exact Hfi|].
    rewrite received_in_app, (received_in_other i lo t1 Hin) by lia.
    split; [exact Hlen|]. apply in_or_app. right. exact Hsize.
Qed.

(** The receiving loop: entries in order, each acknowledged after its
    bytes and its size check. *)
Lemma receive_entries_order files : forall lo w,
  in_entry_order ack_sent lo (tr (receive_entries tmp lo files w)) /\
  ack_after_validation tmp lo files (tr (receive_entries tmp lo files w)).
Proof.
  induction files as [|fi rest IH]; intros lo w; cbn [receive_entries].
  - split; [apply in_entry_order_nil|].
    intros [|x pre] data ok post i Heq; discriminate Heq.
  - rewrite run_bind.
    pose proof (emits_receive_entry tmp lo fi w) as Hin.
    destruct (receive_entry_shape tmp lo fi w) as (r & w1 & t1 & Heq & Hshape).
    rewrite Heq in Hin |- *. cbn [tr] in Hin.
    assert (Hsplit : exists t2,
      tr match r with
         | Ret _ => prepend t1 (receive_entries tmp (S lo) rest w1)
         | Raise e => Outcome (Raise e) w1 t1
         | Fuel => Outcome Fuel w1 t1
         end = t1 ++ t2 /\
      (t2 <> [] -> r = Ret tt) /\
      in_entry_order ack_sent (S lo) t2 /\
      ack_after_validation tmp (S lo) rest t2).
    { destruct r as [[]|e|].
      - exists (tr (receive_entries tmp (S lo) rest w1)). rewrite tr_prepend.
        split; [reflexivity|]. split; [reflexivity|]. apply IH.
      - exists []. cbn [tr]. rewrite app_nil_r. split; [reflexivity|].
        split; [congruence|]. split; [apply in_entry_order_nil|].
        intros [|x pre] data ok post i H; discriminate H.
      - exists []. cbn [tr]. rewrite app_nil_r. split; [reflexivity|].
        split; [congruence|]. split; [apply in_entry_order_nil|].
        intros [|x pre] data ok post i H; discriminate H. }
    destruct Hsplit as (t2 & -> & Hret & Hord & Hval). split.
    + apply in_entry_order_step; [exact Hin | | exact Hord].
      intros Hne. specialize (Hret Hne).
      destruct Hshape as [[Hr _] | (Q & ok & tail & -> & _ & _ & _ & _ & Hok)];
        [congruence|].
      rewrite (Hok Hret). exists (EvSend (Some lo) ACK2 true).
      split; [apply in_elt | reflexivity].
    + apply (ack_after_validation_step lo fi rest r); assumption.
Qed.

End ReceiverLoop.

(** *** The sender's loop *)

Section SenderOrder2.
Context `{cfg : Config} `{libs : Libs}.
Variables (i : nat) (file_info : file_entry).

Lemma emits_receive_acknowledgment_entry expected timeout :
  emits (within_entry i) (_receive_acknowledgment (Some i) expected timeout).
Proof.
  unfold _receive_acknowledgment, sock_gettimeout, restore_timeout.
  apply emits_bind; [apply emits_gets|]. intros original_timeout.
  emits_go; within_solve.
Qed.

Lemma emits_send_entry_loop fuel : forall content file_sent chunk_count,
  emits (within_entry i) (send_entry_loop fuel i file_info content file_sent chunk_count).
Proof.
  induction fuel as [|fuel IH]; intros content file_sent chunk_count; cbn [send_entry_loop];
    (destruct (file_sent <? fe_size file_info); [|apply emits_ret]).
  - apply emits_out_of_fuel.
  - destruct (is_empty _); [apply emits_ret|].
    apply emits_bind; [|intros _; apply IH].
    emits_go; within_solve.
Qed.

(** Everything the sender does for one entry belongs to it. *)
Lemma emits_send_entry : emits (within_entry i) (send_entry i file_info).
Proof.
  unfold send_entry.
  apply emits_bind; [apply emits_ui; within_solve|]. intros _.
  apply emits_bind.
  { apply emits_try_except; [|intros e; emits_go].
    apply emits_bind; [emits_go; within_solve|]. intros _.
    apply emits_bind; [unfold open_rb; emits_go|]. intros content.
    apply emits_send_entry_loop. }
  intros _. apply emits_try_except; [|intros e; apply emits_raise].
  apply emits_bind; [apply emits_receive_acknowledgment_entry|]. intros ack.
  emits_go.
Qed.

(** An entry ends normally only when its acknowledgment has been read. *)
Lemma send_entry_ack w w' t' :
  send_entry i file_info w = Outcome (Ret tt) w' t' ->
  exists ev, In ev t' /\ ack_read i ev.
Proof.
  unfold send_entry. intros H.
  rewrite run_bind in H. autorewrite with run in H. cbv beta iota in H.
  rewrite run_bind in H.
  match type of H with
  | context [match ?x with _ => _ end] => destruct x as [[[]|e1|] w1 t1]
  end; cbn [prepend] in H; try discriminate.
  match type of H with
  | context [try_except ?m ?h w1] => destruct (try_except m h w1) as [r2 w2 t2] eqn:H2
  end.
  cbn [prepend] in H. inversion H; subst r2 w2 t'. clear H.
  apply try_except_ret_inv in H2; [|discriminate].
  rewrite run_bind, receive_acknowledgment_run in H2 by discriminate.
  destruct (rx_take _ _) as [[e|data] rest].
  - cbn [fst snd negb prepend] in H2. destruct (bytes_eqb _ _); discriminate.
  - cbn [find] in H2. destruct (startswith data ACK2) eqn:Hs.
    + cbn [fst snd negb prepend] in H2. autorewrite with run in H2. cbn [prepend] in H2.
      inversion H2; subst.
      exists (EvRecv (Some i) (Z.min (max_len [ACK2]) 1024) (Some 60) data). split.
      * right. apply in_or_app. right. right. left. reflexivity.
      * eexists _, _, _. split; [reflexivity | exact Hs].
    + cbn [fst snd negb prepend] in H2. destruct (bytes_eqb _ _); discriminate.
Qed.

End SenderOrder2.

Section SenderLoop.
Context `{cfg : Config} `{libs : Libs}.

(** The sending loop: nothing of an entry is sent before the
    acknowledgments of the entries before it have been read. *)
Lemma send_entries_order files : forall lo w,
  in_entry_order ack_read lo (tr (send_entries lo files w)).
Proof.
  induction files as [|fi rest IH]; intros lo w; cbn [send_entries].
  - apply in_entry_order_nil.
  - rewrite run_bind.
    pose proof (emits_send_entry lo fi w) as Hin.
    pose proof (send_entry_ack lo fi w) as Hack.
    destruct (send_entry lo fi w) as [[[]|e|] w1 t1]; cbn [tr] in *.
    + rewrite tr_prepend. apply in_entry_order_step; [exact Hin | | apply IH].
      intros _. apply (Hack w1 t1 eq_refl).
    + rewrite <- (app_nil_r t1).
      apply in_entry_order_step; [exact Hin | congruence | apply in_entry_order_nil].
    + rewrite <- (app_nil_r t1).
      apply in_entry_order_step; [exact Hin | congruence | apply in_entry_order_nil].
Qed.

End SenderLoop.

(** C5. Directory transfers go entry by entry, in the order of the
    manifest, the entries being numbered from 1 as the loops number them.
    In the receiving loop of [receive_directory], from any state: an event
    of entry [j] happens only after [ACK2] has been written successfully
    for every entry before [j]; and whenever something is written for entry
    [i] it is [ACK2], the bytes read for entry [i] until then number the
    size the manifest declares for it, and the size of the file on disk has
    been read and is the declared one.  In the sending loop of
    [send_directory], from any state: an event of entry [j] -- a write of
    its bytes in particular -- happens only after a reply starting with
    [ACK2] has been read for every entry before [j]. *)
Theorem directory_entries_acknowledged_in_order `{cfg : Config} `{libs : Libs}
    (tmp : string) (files : list file_entry) (receiver sender : world) :
  in_entry_order ack_sent 1 (tr (receive_entries tmp 1 files receiver)) /\
  ack_after_validation tmp 1 files (tr (receive_entries tmp 1 files receiver)) /\
  in_entry_order ack_read 1 (tr (send_entries 1 files sender)).
Proof.
  split; [apply receive_entries_order|].
  split; [apply receive_entries_order | apply send_entries_order].
Qed.

(** * Further properties of the engines *)

(** ** The length prefix of a manifest *)

Lemma byte_of_Z_value (z : Z) : Z.of_N (Byte.to_N (byte_of_Z z)) = z mod 256.
Proof.
  unfold byte_of_Z.
  assert (Hr : 0 <= z mod 256 < 256) by (apply Z.mod_pos_bound; lia).
  destruct (Byte.of_N (Z.to_N (z mod 256))) as [b|] eqn:E.
  - apply Byte.to_of_N in E. simpl. rewrite E. lia.
  - apply Byte.of_N_None_iff in E. lia.
Qed.

Lemma struct_pack_I_some (n : Z) (hdr : bytes) :
  struct_pack_I n = Some hdr ->
  length hdr = 4%nat /\ struct_unpack_I hdr = n /\ 0 <= n < 2 ^ 32.
Proof.
  unfold struct_pack_I.
  destruct (0 <=? n) eqn:H0; destruct (n <? 2 ^ 32) eqn:H1; cbn [andb]; try discriminate.
  intros H. inversion H; subst hdr. clear H.
  apply Z.leb_le in H0. apply Z.ltb_lt in H1.
  split; [reflexivity|]. split; [|lia].
  unfold struct_unpack_I. cbn [fold_left]. rewrite !byte_of_Z_value.
  change (2 ^ 24) with 16777216. change (2 ^ 16) with 65536. change (2 ^ 8) with 256.
  change (2 ^ 32) with 4294967296 in H1.
  Z.div_mod_to_equations. lia.
Qed.

(** X1. The four-byte length prefix: [struct.pack('!I', n)] of a number
    that fits 32 bits has four bytes, and [struct.unpack('!I', ...)] reads
    the number back; a number that does not fit has no encoding. *)
Theorem length_prefix_round_trip (n : Z) :
  match struct_pack_I n with
  | Some hdr => length hdr = 4%nat /\ struct_unpack_I hdr = n /\ 0 <= n < 2 ^ 32
  | None => n < 0 \/ 2 ^ 32 <= n
  end.
Proof.
  destruct (struct_pack_I n) as [hdr|] eqn:E; [apply struct_pack_I_some; exact E|].
  unfold struct_pack_I in E.
  destruct (0 <=? n) eqn:H0; destruct (n <? 2 ^ 32) eqn:H1; cbn [andb] in E;
    try discriminate; try (apply Z.leb_gt in H0; lia); try (apply Z.ltb_ge in H1; lia).
Qed.

(** ** Messages split across segments *)

Section Reassembly.
Context `{cfg : Config} `{libs : Libs}.

Lemma recv_exact_loop_completes (size : Z) fuel : forall data w,
  size - len data <= Z.of_nat fuel ->
  size - len data <= len (payload_of (sk_inbox (w_sock w))) ->
  exists w' t,
    recv_exact_loop fuel size data w =
      Outcome (Ret (Some (data ++ take (Z.to_nat (size - len data))
                                       (payload_of (sk_inbox (w_sock w)))))) w' t /\
    payload_of (sk_inbox (w_sock w')) =
      drop (Z.to_nat (size - len data)) (payload_of (sk_inbox (w_sock w))) /\
    only_socket_changed w w'.
Proof.
  induction fuel as [|fuel IH]; intros data w Hfuel Hpay; cbn [recv_exact_loop].
  - destruct (len data <? size) eqn:E; [apply Z.ltb_lt in E; lia|].
    apply Z.ltb_ge in E. replace (Z.to_nat (size - len data)) with 0%nat by lia.
    eexists _, _. autorewrite with run. rewrite take_0, app_nil_r, drop_0.
    split; [reflexivity|]. split; [reflexivity | apply only_socket_changed_refl].
  - destruct (len data <? size) eqn:E.
    2:{ apply Z.ltb_ge in E. replace (Z.to_nat (size - len data)) with 0%nat by lia.
        eexists _, _. autorewrite with run. rewrite take_0, app_nil_r, drop_0.
        split; [reflexivity|]. split; [reflexivity | apply only_socket_changed_refl]. }
    apply Z.ltb_lt in E. set (n := size - len data) in *.
    destruct (rx_take_payload (Z.to_nat n) (sk_inbox (w_sock w))) as
      (chunk & inbox' & Htake & Hne & Hlen & Hsplit).
    { lia. }
    { intros Hnil. rewrite Hnil in Hpay. unfold len in Hpay. simpl in Hpay. lia. }
    set (w1 := set_sock (set_inbox inbox' (w_sock w)) w).
    assert (Hrecv : sock_recv None n w =
                    Outcome (Ret chunk) w1 [EvRecv None n (sk_timeout (w_sock w)) chunk]).
    { unfold sock_recv. destruct (n <? 0) eqn:En; [apply Z.ltb_lt in En; lia|].
      rewrite Htake. reflexivity. }
    rewrite run_bind, Hrecv.
    destruct chunk as [|b chunk]; [congruence|]. cbn [is_empty].
    set (c := b :: chunk) in *.
    destruct (IH (data ++ c) w1) as (w' & t & Hrun & Hrest & Hframe).
    { rewrite len_app. pose proof (len_nonneg c). unfold len, c in *. simpl in *. lia. }
    { rewrite len_app. cbn. rewrite Hsplit, len_app in Hpay. unfold n in *. lia. }
    rewrite Hrun. cbn [prepend]. eexists _, _. split; [|split].
    + f_equal. f_equal. f_equal. change (sk_inbox (w_sock w1)) with inbox'.
      rewrite Hsplit, <- app_assoc. f_equal.
      replace (Z.to_nat n) with (length c + Z.to_nat (size - len (data ++ c)))%nat
        by (rewrite len_app; unfold n, len in *; lia).
      rewrite firstn_app_2. reflexivity.
    + rewrite Hrest. change (sk_inbox (w_sock w1)) with inbox'. rewrite Hsplit.
      replace (Z.to_nat n) with (length c + Z.to_nat (size - len (data ++ c)))%nat
        by (rewrite len_app; unfold n, len in *; lia).
      rewrite drop_app_add'; reflexivity.
    + eapply only_socket_changed_trans; [apply only_socket_changed_set | exact Hframe].
Qed.

(** X2. [recv_exact] reassembles a message from the stream: when at least
    [size] bytes are pending before any fault or the end of the stream,
    however they are cut into segments, it returns exactly the first
    [size] of them, leaves the others pending, and changes nothing but the
    socket. *)
Theorem recv_exact_reassembles (size : Z) (w : world) :
  size <= len (payload_of (sk_inbox (w_sock w))) ->
  exists w' t,
    recv_exact size w =
      Outcome (Ret (Some (take (Z.to_nat size) (payload_of (sk_inbox (w_sock w)))))) w' t /\
    payload_of (sk_inbox (w_sock w')) =
      drop (Z.to_nat size) (payload_of (sk_inbox (w_sock w))) /\
    only_socket_changed w w'.
Proof.
  intros Hpay.
  destruct (recv_exact_loop_completes size (Z.to_nat size) [] w) as (w' & t & H1 & H2 & H3).
  { change (len (@nil byte)) with 0. lia. }
  { change (len (@nil byte)) with 0. lia. }
  change (len (@nil byte)) with 0 in *. rewrite Z.sub_0_r in *. cbn [app] in H1.
  exists w', t. split; [exact H1|]. split; [exact H2 | exact H3].
Qed.

End Reassembly.

(** Four bytes out of [ab], [cde]. *)
Lemma recv_exact_reassembles_witness :
  let w := with_socket None [RxSeg (b_ "ab"); RxSeg (b_ "cde")] empty_world in
  exists w' t,
    recv_exact 4 w =
      Outcome (Ret (Some (take (Z.to_nat 4) (payload_of (sk_inbox (w_sock w)))))) w' t /\
    payload_of (sk_inbox (w_sock w')) =
      drop (Z.to_nat 4) (payload_of (sk_inbox (w_sock w))) /\
    only_socket_changed w w'.
Proof.
  intros w. apply (recv_exact_reassembles 4 w). vm_compute. discriminate.
Defined.

(** ** The manifest on the wire *)

Section Framing.
Context `{cfg : Config} `{libs : Libs}.

(** X3. The framing of the manifest: when the stream starts with the
    four-byte length prefix of a non-empty body of at most 10 MiB that
    decodes to [md], followed by the body -- however the bytes are cut
    into segments -- the manifest phase of [handle_client] returns [md],
    leaves what follows the body pending, and changes nothing but the
    socket. *)
Theorem manifest_framing_round_trip (md : metadata) (hdr body rest : bytes) (w : world) :
  struct_pack_I (len body) = Some hdr ->
  body <> [] ->
  len body <= 10 * 1024 * 1024 ->
  json_loads body = Some md ->
  payload_of (sk_inbox (w_sock w)) = hdr ++ body ++ rest ->
  exists w' t,
    receive_metadata w = Outcome (Ret md) w' t /\
    payload_of (sk_inbox (w_sock w')) = rest /\
    only_socket_changed w w'.
Proof.
  intros Hpack Hbody Hmax Hjson Hpay.
  destruct (struct_pack_I_some _ _ Hpack) as (Hlen & Hunpack & _).
  unfold receive_metadata. py_step. py_step. rewrite run_bind.
  set (w1 := set_sock (set_timeout (Some 30) (w_sock w)) w).
  assert (Hpay1 : payload_of (sk_inbox (w_sock w1)) = hdr ++ body ++ rest) by exact Hpay.
  destruct (recv_exact_reassembles 4 w1) as (w2 & t2 & -> & Hrest2 & Hf2).
  { rewrite Hpay1, len_app. pose proof (len_nonneg (body ++ rest)). unfold len in *. lia. }
  rewrite Hpay1 in Hrest2 |- *.
  replace (Z.to_nat 4) with (length hdr) in * by lia.
  rewrite take_app_length. rewrite drop_app_length in Hrest2.
  destruct hdr as [|b0 hdr']; [discriminate Hlen|].
  cbn [prepend]. rewrite Hunpack.
  replace (10 * 1024 * 1024 <? len body) with false by (symmetry; apply Z.ltb_ge; lia).
  rewrite run_bind.
  destruct (recv_exact_reassembles (len body) w2) as (w3 & t3 & -> & Hrest3 & Hf3).
  { rewrite Hrest2, len_app. pose proof (len_nonneg rest). lia. }
  rewrite Hrest2 in Hrest3 |- *.
  replace (Z.to_nat (len body)) with (length body) in * by (unfold len; lia).
  rewrite take_app_length. rewrite drop_app_length in Hrest3.
  destruct body as [|c0 body']; [congruence|].
  cbn [prepend]. rewrite Hjson. autorewrite with run. cbn [prepend].
  eexists _, _. split; [reflexivity|]. split; [exact Hrest3|].
  eapply only_socket_changed_trans; [apply only_socket_changed_set|].
  eapply only_socket_changed_trans; eassumption.
Qed.

End Framing.

(** The manifest of [a.txt] followed by three bytes of payload, cut in the
    middle of the prefix and of the body. *)
Lemma manifest_framing_round_trip_witness :
  let md := three_byte_manifest "x" in
  let hdr := ["000"%byte; "000"%byte; "000"%byte; "005"%byte] in
  let w := with_socket None [RxSeg (take 2 hdr); RxSeg (drop 2 hdr ++ b_ "a.");
                             RxSeg (b_ "txtabc")] empty_world in
  exists w' t,
    @receive_metadata (example_libs md) w = Outcome (Ret md) w' t /\
    payload_of (sk_inbox (w_sock w')) = b_ "abc" /\
    only_socket_changed w w'.
Proof.
  intros md hdr w.
  apply (@manifest_framing_round_trip (example_libs md) md hdr (b_ "a.txt") (b_ "abc") w).
  - reflexivity.
  - discriminate.
  - vm_compute. discriminate.
  - reflexivity.
  - reflexivity.
Defined.

(** ** Computations that end, and computations that raise nothing *)

Section Ends.

Lemma ends_ret {A} (a : A) : ends (ret a).
Proof. intros w. discriminate. Qed.

Lemma ends_raise {A} e : ends (@raise A e).
Proof. intros w. discriminate. Qed.

Lemma ends_gets {A} (f : world -> A) : ends (gets f).
Proof. intros w. discriminate. Qed.

Lemma ends_modify f : ends (modify f).
Proof. intros w. discriminate. Qed.

Lemma ends_emit ev : ends (emit ev).
Proof. intros w. discriminate. Qed.

Lemma ends_ui msg : ends (ui msg).
Proof. intros w. discriminate. Qed.

(** [k] only has to end on the values [m] can return. *)
Lemma ends_bind_post {A B} (Q : A -> Prop) (m : Py A) (k : A -> Py B) :
  ends m ->
  (forall w a w' t, m w = Outcome (Ret a) w' t -> Q a) ->
  (forall a, Q a -> ends (k a)) ->
  ends (bind m k).
Proof.
  intros Hm HQ Hk w. rewrite run_bind. specialize (Hm w). specialize (HQ w).
  destruct (m w) as [[a|e|] w1 t1]; cbn [res] in *; try discriminate; try congruence.
  rewrite res_prepend. apply Hk. eapply HQ. reflexivity.
Qed.

Lemma ends_bind {A B} (m : Py A) (k : A -> Py B) :
  ends m -> (forall a, ends (k a)) -> ends (bind m k).
Proof.
  intros Hm Hk. apply (ends_bind_post (fun _ => True)); auto.
Qed.

Lemma ends_try_except {A} (m : Py A) h :
  ends m -> (forall e, ends (h e)) -> ends (try_except m h).
Proof.
  intros Hm Hh w. rewrite run_try_except. specialize (Hm w).
  destruct (m w) as [[a|e|] w1 t1]; cbn [res] in *; try discriminate; try congruence.
  rewrite res_prepend. apply Hh.
Qed.

Lemma ends_ignore_errors m : ends m -> ends (ignore_errors m).
Proof. intros Hm. apply ends_try_except; [exact Hm | intros e; apply ends_ret]. Qed.

Lemma ends_try_finally {A} (m : Py A) f :
  ends m -> ends f -> ends (try_finally m f).
Proof.
  intros Hm Hf w. rewrite run_try_finally. specialize (Hm w).
  destruct (m w) as [r w1 t1]; cbn [res] in *. rewrite res_prepend.
  specialize (Hf w1). destruct (f w1) as [[[]|e|] w2 t2]; cbn [res] in *;
    try discriminate; congruence.
Qed.

Lemma ends_when c m : ends m -> ends (when c m).
Proof. intros Hm. destruct c; [exact Hm | apply ends_ret]. Qed.

Lemma ends_sock_recv entry n : ends (sock_recv entry n).
Proof.
  intros w. unfold sock_recv. destruct (n <? 0); [discriminate|].
  destruct (rx_take _ _) as [[e|d] rest]; discriminate.
Qed.

Lemma ends_sock_send entry data : ends (sock_send entry data).
Proof.
  intros w. unfold sock_send.
  destruct (sk_tx_faults (w_sock w)) as [|[e|] rest]; discriminate.
Qed.

Lemma never_raises_ret {A} (a : A) : never_raises (ret a).
Proof. intros w e. discriminate. Qed.

Lemma never_raises_gets {A} (f : world -> A) : never_raises (gets f).
Proof. intros w e. discriminate. Qed.

Lemma never_raises_modify f : never_raises (modify f).
Proof. intros w e. discriminate. Qed.

Lemma never_raises_ui msg : never_raises (ui msg).
Proof. intros w e. discriminate. Qed.

Lemma never_raises_bind {A B} (m : Py A) (k : A -> Py B) :
  never_raises m -> (forall a, never_raises (k a)) -> never_raises (bind m k).
Proof.
  intros Hm Hk w e. rewrite run_bind. specialize (Hm w).
  destruct (m w) as [[a|e1|] w1 t1]; cbn [res] in *; try discriminate.
  - rewrite res_prepend. apply Hk.
  - exfalso. apply (Hm e1). reflexivity.
Qed.

(** A handler that raises nothing shields its block. *)
Lemma never_raises_try_except {A} (m : Py A) h :
  (forall e, never_raises (h e)) -> never_raises (try_except m h).
Proof.
  intros Hh w e. rewrite run_try_except.
  destruct (m w) as [[a|e1|] w1 t1]; cbn [res]; try discriminate.
  rewrite res_prepend. apply Hh.
Qed.

Lemma never_raises_ignore_errors m : never_raises (ignore_errors m).
Proof. apply never_raises_try_except. intros e. apply never_raises_ret. Qed.

Lemma never_raises_try_finally {A} (m : Py A) f :
  never_raises m -> never_raises f -> never_raises (try_finally m f).
Proof.
  intros Hm Hf w e. rewrite run_try_finally. specialize (Hm w).
  destruct (m w) as [r w1 t1]; cbn [res] in *. rewrite res_prepend.
  specialize (Hf w1). destruct (f w1) as [[[]|e2|] w2 t2]; cbn [res] in *.
  - apply Hm.
  - exfalso. apply (Hf e2). reflexivity.
  - discriminate.
Qed.

Lemma never_raises_when c m : never_raises m -> never_raises (when c m).
Proof. intros Hm. destruct c; [exact Hm | apply never_raises_ret]. Qed.

(** A computation of type [unit] that ends and raises nothing returns. *)
Lemma returns_unit (m : Py unit) w : ends m -> never_raises m -> res (m w) = Ret tt.
Proof.
  intros He Hn. specialize (He w). specialize (Hn w).
  destruct (res (m w)) as [[]|e|]; [reflexivity | exfalso; apply (Hn e); reflexivity | congruence].
Qed.

End Ends.

Ltac ends_go :=
  repeat first
    [ apply ends_ret | apply ends_raise | apply ends_gets | apply ends_modify
    | apply ends_ui | apply ends_emit
    | apply ends_sock_recv | apply ends_sock_send
    | apply ends_when | apply ends_ignore_errors
    | apply ends_bind; [|intros ?]
    | apply ends_try_except; [|intros ?]
    | apply ends_try_finally
    | match goal with
      | |- ends (if ?c then _ else _) => destruct c
      | |- ends (match ?x with _ => _ end) => destruct x
      end ].

Ltac never_raises_go :=
  repeat first
    [ apply never_raises_ret | apply never_raises_gets | apply never_raises_modify
    | apply never_raises_ui
    | apply never_raises_ignore_errors
    | apply never_raises_when
    | apply never_raises_try_except; intros ?
    | apply never_raises_bind; [|intros ?]
    | apply never_raises_try_finally
    | match goal with
      | |- never_raises (if ?c then _ else _) => destruct c
      | |- never_raises (match ?x with _ => _ end) => destruct x
      end ].

(** ** The receiver always comes back *)

Section ReceiverEnds.
Context `{cfg : Config} `{libs : Libs}.

Lemma ends_put_fs fs : ends (put_fs fs).
Proof. unfold put_fs. ends_go. Qed.

Lemma ends_os_makedirs p : ends (os_makedirs p).
Proof. unfold os_makedirs. apply ends_bind; [apply ends_gets|]. intros fs. ends_go; apply ends_put_fs. Qed.

Lemma ends_open_wb entry p : ends (open_wb entry p).
Proof. unfold open_wb. apply ends_bind; [apply ends_gets|]. intros fs. ends_go; apply ends_put_fs. Qed.

Lemma ends_file_write p chunk : ends (file_write p chunk).
Proof.
  unfold file_write. apply ends_bind; [apply ends_gets|]. intros fs.
  apply ends_bind; [apply ends_gets|]. intros free. ends_go; apply ends_put_fs.
Qed.

Lemma ends_os_remove p : ends (os_remove p).
Proof. unfold os_remove. apply ends_bind; [apply ends_gets|]. intros fs. ends_go; apply ends_put_fs. Qed.

Lemma ends_os_path_getsize entry p : ends (os_path_getsize entry p).
Proof. unfold os_path_getsize. apply ends_bind; [apply ends_gets|]. intros fs. ends_go. Qed.

Lemma ends_mkdtemp d pre suf : ends (mkdtemp d pre suf).
Proof.
  unfold mkdtemp. apply ends_bind; [apply ends_gets|]. intros fs.
  apply ends_bind; [apply ends_gets|]. intros names. ends_go; apply ends_put_fs.
Qed.

Lemma ends_shutil_move src dst : ends (shutil_move src dst).
Proof. unfold shutil_move. apply ends_bind; [apply ends_gets|]. intros fs. ends_go; apply ends_put_fs. Qed.

Lemma ends_shutil_rmtree p : ends (shutil_rmtree p).
Proof. unfold shutil_rmtree. apply ends_bind; [apply ends_gets|]. intros fs. ends_go; apply ends_put_fs. Qed.

Lemma ends_sock_settimeout t : ends (sock_settimeout t).
Proof. unfold sock_settimeout. ends_go. Qed.

Lemma ends_sock_close : ends sock_close.
Proof. unfold sock_close. ends_go. Qed.

Lemma ends_ensure_directory p : ends (ensure_directory p).
Proof. intros w. apply ensure_directory_ends. Qed.

Lemma ends_get_disk_usage p : ends (get_disk_usage p).
Proof.
  unfold get_disk_usage, shutil_disk_usage.
  apply ends_bind; [apply ends_try_except; [apply ends_ensure_directory | intros; apply ends_ret]|].
  intros _. ends_go.
Qed.

Lemma ends_check_disk_space d : ends (check_disk_space d).
Proof.
  unfold check_disk_space. apply ends_try_except; [|intros e; ends_go].
  apply ends_bind; [apply ends_ensure_directory|]. intros _.
  apply ends_bind; [apply ends_get_disk_usage|]. intros usage. ends_go.
Qed.

Lemma ends_verify_file_hash p expected : ends (_verify_file_hash p expected).
Proof. intros w. apply verify_file_hash_frame. Qed.

Lemma ends_recv_exact size : ends (recv_exact size).
Proof.
  intros w. pose proof (recv_exact_loop_spec (Z.to_nat size) size [] w) as H.
  unfold recv_exact. unfold recv_exact_post in H.
  destruct (res _) as [[d|]|e|]; try discriminate.
  exfalso. apply H. change (len (@nil byte)) with 0. lia.
Qed.

Lemma ends_receive_metadata : ends receive_metadata.
Proof.
  unfold receive_metadata.
  apply ends_bind; [apply ends_sock_settimeout|]. intros _.
  apply ends_bind; [apply ends_ui|]. intros _.
  apply ends_bind; [apply ends_recv_exact|]. intros [[|b size_data]|]; try apply ends_raise.
  destruct (_ <? _); [apply ends_raise|].
  apply ends_bind; [apply ends_recv_exact|]. intros [[|c body]|]; try apply ends_raise.
  ends_go.
Qed.

Lemma ends_negotiate md : ends (negotiate md).
Proof. unfold negotiate, _handle_hash_mismatch_non_blocking. ends_go. Qed.

Lemma ends_receive_file fi : ends (receive_file fi).
Proof.
  unfold receive_file.
  apply ends_bind; [apply ends_ensure_directory|]. intros _.
  apply ends_bind; [apply ends_modify|]. intros _.
  apply ends_bind; [apply ends_modify|]. intros _.
  apply ends_bind; [apply ends_ui|]. intros _.
  intros w. destruct (receive_file_flow_spec fi w) as [H _]. rewrite H. discriminate.
Qed.

(** A chunk handed to the loop of an entry is never empty. *)
Lemma receive_chunk_nonempty (i : nat) (n : Z) (file_path : string) (msg : string)
    (h : exn -> Py bytes) w data w' t' :
  (forall e w0 a0, res (h e w0) <> Ret a0) ->
  try_except
    (sock_settimeout (Some 30) ;;
     data <- sock_recv (Some i) n ;;
     if is_empty data then raise (Exception msg)
     else file_write file_path data ;; ret data) h w = Outcome (Ret data) w' t' ->
  data <> [].
Proof.
  intros Hh H. apply try_except_ret_inv in H; [|exact Hh].
  rewrite run_bind in H. autorewrite with run in H. cbv beta iota in H.
  rewrite run_bind in H.
  destruct (sock_recv _ _ _) as [[chunk|e|] w2 t2]; cbn [prepend] in H; try discriminate.
  destruct chunk as [|b chunk]; cbn [is_empty] in H.
  - autorewrite with run in H. discriminate.
  - rewrite run_bind in H.
    destruct (file_write _ _ _) as [[[]|e|] w3 t3]; cbn [prepend] in H; try discriminate.
    autorewrite with run in H. cbn [prepend] in H. intros ->. discriminate H.
Qed.

Lemma ends_receive_entry_loop i fi p fuel : forall got,
  fe_size fi - got <= Z.of_nat fuel ->
  ends (receive_entry_loop fuel i fi p got).
Proof.
  induction fuel as [|fuel IH]; intros got Hfuel; cbn [receive_entry_loop].
  - destruct (got <? fe_size fi) eqn:E; [apply Z.ltb_lt in E; lia | apply ends_ret].
  - destruct (got <? fe_size fi) eqn:E; [|apply ends_ret].
    apply Z.ltb_lt in E.
    apply (ends_bind_post (fun data : bytes => data <> [])).
    + apply ends_try_except; [|intros e; ends_go].
      apply ends_bind; [apply ends_sock_settimeout|]. intros _.
      apply ends_bind; [apply ends_sock_recv|]. intros data.
      destruct (is_empty data); [apply ends_raise|].
      apply ends_bind; [apply ends_file_write | intros _; apply ends_ret].
    + intros w a w' t H. eapply receive_chunk_nonempty; [|exact H].
      intros e w0 a0. cbv beta. destruct (is_socket_timeout e); [discriminate|].
      destruct (is_os_error e); [|discriminate]. destruct (bool_decide _); discriminate.
    + intros data Hdata. apply IH.
      destruct data as [|b data]; [congruence|]. unfold len. cbn [length]. lia.
Qed.

Lemma ends_receive_entry tmp i fi : ends (receive_entry tmp i fi).
Proof.
  unfold receive_entry.
  apply ends_bind; [apply ends_ui|]. intros _.
  apply ends_bind.
  { apply ends_try_except; [apply ends_ensure_directory | intros e; apply ends_raise]. }
  intros _. apply ends_try_except; [|intros e; ends_go].
  apply ends_bind; [apply ends_open_wb|]. intros _.
  apply ends_bind; [apply ends_receive_entry_loop; lia|]. intros _.
  apply ends_bind; [apply ends_os_path_getsize|]. intros actual_size.
  destruct (negb _); [apply ends_raise|].
  apply ends_bind.
  { destruct (fe_hash fi) as [h|]; [|apply ends_ret].
    destruct (negb SKIP_HASH_VERIFICATION); [apply ends_verify_file_hash | apply ends_ret]. }
  intros hash_valid.
  apply ends_bind; [destruct hash_valid; apply ends_ui|]. intros _.
  apply ends_try_except; [|intros e; apply ends_raise].
  apply ends_bind; [apply ends_sock_settimeout | intros _; apply ends_sock_send].
Qed.

Lemma ends_receive_entries tmp files : forall i, ends (receive_entries tmp i files).
Proof.
  induction files as [|fi rest IH]; intros i; cbn [receive_entries]; [apply ends_ret|].
  apply ends_bind; [apply ends_receive_entry | intros _; apply IH].
Qed.

Lemma ends_receive_directory d : ends (receive_directory d).
Proof.
  unfold receive_directory.
  apply ends_bind; [apply ends_modify|]. intros _.
  apply ends_bind; [apply ends_ui|]. intros _.
  apply ends_bind; [apply ends_check_disk_space|]. intros proceed.
  destruct (negb proceed); [apply ends_ret|].
  apply ends_try_finally.
  - apply ends_try_except; [|intros e; ends_go].
    apply ends_bind; [apply ends_mkdtemp|]. intros tmp.
    apply ends_bind; [apply ends_modify|]. intros _.
    apply ends_bind; [apply ends_receive_entries|]. intros _.
    apply ends_bind.
    { apply ends_try_except; [|intros e; apply ends_raise].
      apply ends_bind; [apply ends_gets|]. intros ex.
      apply ends_bind; [apply ends_when, ends_shutil_rmtree|]. intros _.
      apply ends_bind; [apply ends_shutil_move | intros _; apply ends_modify]. }
    intros _.
    apply ends_bind.
    { apply ends_try_except; [|intros e; ends_go].
      apply ends_bind; [apply ends_sock_settimeout|]. intros _.
      apply ends_bind; [apply ends_sock_send | intros _; apply ends_ret]. }
    intros sent. apply ends_when, ends_ui.
  - apply ends_bind; [apply ends_gets|]. intros [p|]; [|apply ends_ret].
    apply ends_bind; [apply ends_gets|]. intros ex.
    apply ends_when, ends_ignore_errors.
    apply ends_bind; [apply ends_shutil_rmtree | intros _; apply ends_ui].
Qed.




End ReceiverEnds.

(** ** The per-connection handler *)

Section HandlerEnds.
Context `{cfg : Config} `{libs : Libs}.

Lemma ends_dispatch md : ends (dispatch md).
Proof.
  unfold dispatch. apply ends_try_except; [|intros e; ends_go].
  apply ends_bind; [|intros _; apply ends_ui].
  destruct (String.eqb _ _); [apply ends_receive_file|].
  destruct (String.eqb _ _); [apply ends_receive_directory | apply ends_raise].
Qed.

Lemma ends_handle_client : ends handle_client.
Proof.
  unfold handle_client. apply ends_try_finally; [|apply ends_ignore_errors, ends_sock_close].
  apply ends_try_except; [|intros e; unfold handle_client_errors; ends_go].
  apply ends_bind; [apply ends_receive_metadata|]. intros md.
  apply ends_bind; [apply ends_ui|]. intros _.
  apply ends_bind; [apply ends_negotiate|]. intros proceed.
  destruct proceed; [apply ends_dispatch | apply ends_ret].
Qed.

Lemma never_raises_handle_client : never_raises handle_client.
Proof.
  unfold handle_client. apply never_raises_try_finally.
  - apply never_raises_try_except. intros e. unfold handle_client_errors. never_raises_go.
  - apply never_raises_ignore_errors.
Qed.

(** X5. [handle_client] always returns normally and always closes the
    client socket, as the last thing it does: a timeout, a network error or
    any other exception of the manifest phase or of the transfer ends on
    the screen, and the [finally] clause closes the connection. *)
Theorem handle_client_always_closes (w : world) :
  let o := handle_client w in
  res o = Ret tt /\
  sk_closed (w_sock (st o)) = true /\
  exists pre, tr o = pre ++ [EvClose].
Proof.
  intros o. split.
  { apply returns_unit; [apply ends_handle_client | apply never_raises_handle_client]. }
  subst o. unfold handle_client. rewrite run_try_finally.
  destruct (try_except _ _ w) as [r w1 t1].
  unfold ignore_errors. rewrite run_try_except, run_sock_close. cbn [prepend st tr].
  split; [reflexivity|]. exists t1. reflexivity.
Qed.


(** X7. The algorithm names are compared without regard to letter case: a
    manifest whose algorithm differs from the receiver's only in case is
    answered with [ACK1] alone, whether or not verification is skipped. *)
Theorem algorithm_compared_ignoring_case (md : metadata) (algo : string) (w : world) :
  md_hash_algorithm md = Some algo ->
  lower algo = lower HASH_ALGORITHM ->
  exists ok,
    tr (negotiate md w) = [EvSend None ACK1 ok] /\
    (if ok then res (negotiate md w) = Ret true
     else exists e, res (negotiate md w) = Raise e).
Proof.
  intros Halgo Hsame. unfold negotiate. rewrite Halgo.
  apply String.eqb_eq in Hsame. rewrite Hsame. rewrite andb_false_r.
  rewrite run_bind, run_try_except.
  destruct (sock_send_cases None ACK1 w) as (w1 & r & ok & -> & Hr & _).
  destruct ok.
  - subst r. autorewrite with run. cbn [prepend app res st tr].
    exists true. repeat split.
  - destruct Hr as [e ->]. autorewrite with run. cbn [prepend app res st tr].
    exists false. split; [reflexivity|]. eexists. reflexivity.
Qed.

End HandlerEnds.


(** [SHA256] announced to a receiver configured for [sha256]. *)
Lemma algorithm_compared_ignoring_case_witness :
  let md := example_manifest (Some "SHA256") 3 "x" in
  exists ok,
    tr (@negotiate example_config md blocking_world) = [EvSend None ACK1 ok] /\
    (if ok then res (@negotiate example_config md blocking_world) = Ret true
     else exists e, res (@negotiate example_config md blocking_world) = Raise e).
Proof.
  intros md.
  apply (@algorithm_compared_ignoring_case example_config md "SHA256" blocking_world);
    reflexivity.
Defined.

(** ** Hash verification of a received file *)

Section Verification.
Context `{cfg : Config} `{libs : Libs}.


End Verification.

(** ** The bounds on the size of a manifest *)

Section ManifestBounds.
Context `{cfg : Config} `{libs : Libs}.

(** X9. The announced size of the manifest is checked before anything
    else is read: after a length prefix of more than 10 MiB, or of zero,
    the manifest phase raises ([Metadata too large], resp. [Failed to
    receive metadata]) having consumed the four bytes of the prefix and
    nothing more. *)
Theorem manifest_size_checked (hdr rest : bytes) (w : world) :
  length hdr = 4%nat ->
  payload_of (sk_inbox (w_sock w)) = hdr ++ rest ->
  struct_unpack_I hdr = 0 \/ 10 * 1024 * 1024 < struct_unpack_I hdr ->
  exists w' t,
    receive_metadata w =
      Outcome (Raise (Exception
                 (if struct_unpack_I hdr =? 0 then "Failed to receive metadata"
                  else "Metadata too large: " +:+ pretty (struct_unpack_I hdr) +:+ " bytes")))
              w' t /\
    payload_of (sk_inbox (w_sock w')) = rest /\
    received t = hdr.
Proof.
  intros Hlen Hpay Hsize.
  unfold receive_metadata. py_step. py_step. rewrite run_bind.
  set (w1 := set_sock (set_timeout (Some 30) (w_sock w)) w).
  assert (Hpay1 : payload_of (sk_inbox (w_sock w1)) = hdr ++ rest) by exact Hpay.
  pose proof (recv_exact_loop_spec (Z.to_nat 4) 4 [] w1) as Hspec.
  destruct (recv_exact_reassembles 4 w1) as (w2 & t2 & Hrun & Hrest2 & _).
  { rewrite Hpay1, len_app. pose proof (len_nonneg rest). unfold len in *. lia. }
  unfold recv_exact in Hrun. rewrite Hrun in Hspec. unfold recv_exact_post in Hspec.
  cbn [res tr app] in Hspec. destruct Hspec as [Hrecv _].
  { change (len (@nil byte)) with 0. lia. }
  unfold recv_exact at 1. rewrite Hrun.
  rewrite Hpay1 in Hrest2, Hrecv |- *.
  replace (Z.to_nat 4) with (length hdr) in * by lia.
  rewrite take_app_length in Hrecv |- *. rewrite drop_app_length in Hrest2.
  destruct hdr as [|b0 hdr']; [discriminate Hlen|].
  cbn [prepend]. set (hdr := b0 :: hdr') in *.
  destruct Hsize as [Hzero | Hbig].
  - rewrite Hzero. change (10 * 1024 * 1024 <? 0) with false. cbn [Z.eqb].
    rewrite run_bind. change (recv_exact 0 w2) with (@ret (option bytes) (Some []) w2).
    autorewrite with run. cbn [prepend].
    eexists _, _. split; [reflexivity|]. split; [exact Hrest2|].
    cbn [app received]. rewrite !app_nil_r. symmetry. exact Hrecv.
  - replace (10 * 1024 * 1024 <? struct_unpack_I hdr) with true
      by (symmetry; apply Z.ltb_lt; exact Hbig).
    replace (struct_unpack_I hdr =? 0) with false by (symmetry; apply Z.eqb_neq; lia).
    autorewrite with run. cbn [prepend].
    eexists _, _. split; [reflexivity|]. split; [exact Hrest2|].
    cbn [app received]. rewrite !app_nil_r. symmetry. exact Hrecv.
Qed.

End ManifestBounds.

(** A prefix announcing 10 MiB and one byte, followed by two bytes. *)
Lemma manifest_size_checked_witness :
  let hdr := ["000"%byte; "160"%byte; "000"%byte; "001"%byte] in
  let w := with_socket None [RxSeg (hdr ++ b_ "{}")] empty_world in
  exists w' t,
    @receive_metadata (example_libs (three_byte_manifest "x")) w =
      Outcome (Raise (Exception
                 (if struct_unpack_I hdr =? 0 then "Failed to receive metadata"
                  else "Metadata too large: " +:+ pretty (struct_unpack_I hdr) +:+ " bytes")))
              w' t /\
    payload_of (sk_inbox (w_sock w')) = b_ "{}" /\
    received t = hdr.
Proof.
  intros hdr w.
  apply (@manifest_size_checked (example_libs (three_byte_manifest "x")) hdr (b_ "{}") w).
  - reflexivity.
  - reflexivity.
  - right. vm_compute. reflexivity.
Defined.

(** ** A complete payload with the announced digest *)

Section HappyPath.
Context `{cfg : Config} `{libs : Libs}.

(** The guarded block of [receive_file] when everything arrives and the
    check of the digest passes or is skipped. *)
Lemma receive_file_guarded_verified (fi : metadata) (w : world) h p rest :
  let final := path_join RECEIVED_DIR (md_name fi) in
  let data := take (Z.to_nat (md_size fi)) (payload_of (sk_inbox (w_sock w))) in
  SKIP_HASH_VERIFICATION = true \/ hashlib_new HASH_ALGORITHM = Some h ->
  0 < BUFFER_SIZE ->
  fresh_name (w_fs w) RECEIVED_DIR ("." +:+ md_name fi +:+ "_") ".tmp" (w_tmp_names w)
    = Some (p, rest) ->
  md_size fi <= len (payload_of (sk_inbox (w_sock w))) ->
  md_size fi <= w_disk_free w ->
  SKIP_HASH_VERIFICATION = true \/ h data = md_hash fi ->
  is_dir (w_fs w !! final) = false ->
  next_write_ok (w_sock w) = true ->
  exists w' pre fs',
    receive_file_guarded fi final w =
      Outcome (Ret tt) w'
        (pre ++ [EvMove p final; EvFs fs';
                 EvUi ("File received and verified: " +:+ final);
                 EvSend None DONE true]) /\
    w_fs w' !! final = Some (File data) /\
    w_fs w' !! p = None /\
    w_failed w' = w_failed w /\
    temp_fd (w_frame w') = None.
Proof.
  intros final data Hh Hbuf Hfresh Hpay Hdisk Heq Hdst Hsend.
  unfold receive_file_guarded.
  rewrite run_bind. unfold mkstemp. py_step. py_step. rewrite Hfresh.
  apply fresh_name_spec in Hfresh as [Hfree [r Hp]].
  assert (Hpf : p <> final) by (rewrite Hp; apply temp_path_differs).
  py_step. py_step. py_step. cbn [prepend app fst snd].
  py_step. py_step. py_step. rewrite run_bind. rewrite !prepend_nil.
  match goal with
  | |- context [receive_file_loop ?f ?s ?t ?g ?x] => set (w0 := x)
  end.
  destruct (receive_file_loop_completes p (md_size fi) Hbuf (Z.to_nat (md_size fi)) 0 w0 [])
    as [L1 L2].
  { apply lookup_insert_eq. }
  { lia. }
  { rewrite Z.sub_0_r. exact Hpay. }
  { rewrite Z.sub_0_r. exact Hdisk. }
  destruct (receive_file_loop_spec (w_fs w) p (md_size fi) (Z.to_nat (md_size fi)) 0 w0 [])
    as (_ & (data' & L3 & L4) & _ & _ & L5 & L6 & L7 & _);
    [ reflexivity | reflexivity | lia | ].
  destruct (L4 L1) as [L8 _]. clear L4.
  rewrite L2, Z.sub_0_r in L8. cbn [app] in L8. change (data' = data) in L8. subst data'.
  destruct (receive_file_loop _ _ _ _ w0) as [r1 w1 t1]; cbn [res st tr] in *. subst r1.
  rewrite run_bind.
  assert (Hver : exists tv,
            _verify_file_hash p (md_hash fi) w1 = Outcome (Ret true) w1 tv).
  { unfold _verify_file_hash. destruct SKIP_HASH_VERIFICATION eqn:Hskip.
    - eexists. autorewrite with run. reflexivity.
    - destruct Hh as [Hh|Hh]; [discriminate|]. destruct Heq as [Heq|Heq]; [discriminate|].
      unfold calculate_file_hash. rewrite Hh. py_step. rewrite run_bind. rewrite run_bind.
      unfold open_rb. py_step. rewrite L3, lookup_insert_eq. autorewrite with run.
      cbn [prepend app]. py_step. cbn [prepend app].
      apply String.eqb_eq in Heq. rewrite Heq. autorewrite with run.
      eexists. reflexivity. }
  destruct Hver as [tv ->].
  cbn [prepend].
  set (w2 := w1).
  rewrite run_bind.
  destruct (shutil_move_file_cases p final data w2) as [Hmv | [_ Hd]].
  { change (w_fs w2) with (w_fs w1). rewrite L3. apply lookup_insert_eq. }
  2:{ change (w_fs w2) with (w_fs w1) in Hd. rewrite L3, lookup_insert_ne in Hd by exact Hpf.
      congruence. }
  change (w_fs w2) with (w_fs w1) in Hmv.
  rewrite L3, lookup_insert_ne, Hdst in Hmv by exact Hpf.
  rewrite Hmv. cbn [prepend].
  py_step. rewrite prepend_nil. py_step.
  set (fs' := <[final := File data]> (delete p (<[p := File data]> (w_fs w)))) in *.
  set (w3 := set_temp_filepath None (set_fs fs' w2)).
  assert (Hsd : exists s', sock_send None DONE w3 =
                           Outcome (Ret tt) (set_sock s' w3) [EvSend None DONE true]).
  { unfold sock_send, next_write_ok in *.
    change (sk_tx_faults (w_sock w3)) with (sk_tx_faults (w_sock w1)).
    rewrite L7. change (sk_tx_faults (w_sock w0)) with (sk_tx_faults (w_sock w)).
    destruct (sk_tx_faults (w_sock w)) as [|[e|] tl]; [ | discriminate | ];
      eexists; reflexivity. }
  destruct Hsd as [s' ->].
  exists (set_sock s' w3),
         (EvMkstemp p :: EvFs (<[p:=File []]> (w_fs w))
            :: t1 ++ tv), fs'.
  cbn [prepend app].
  split; [rewrite <- !app_assoc; reflexivity|].
  change (w_fs (set_sock s' w3)) with fs'.
  split; [apply lookup_insert_eq|].
  split.
  { unfold fs'. rewrite lookup_insert_ne by congruence. apply lookup_delete_eq. }
  split.
  { change (w_failed (set_sock s' w3)) with (w_failed w1). rewrite L6. reflexivity. }
  change (temp_fd (w_frame (set_sock s' w3))) with (temp_fd (w_frame w1)).
  rewrite L5. reflexivity.
Qed.


(** X10. A complete file is published.  Let the directory check pass, a
    staging name [p] be free, the declared number of bytes be pending on
    the connection with room for them on the disk, the final path not be a
    directory and the next write on the socket succeed.  When the digest
    of the received bytes is the announced one, or verification is switched
    off, [receive_file] returns normally, the received bytes are the file
    under the final name, the staging name is gone, nothing is added to the
    list of failed validations, and the run ends with the move, the
    message and the write of [DONE]. *)
Theorem complete_file_published (fi : metadata) (w w1 : world) t1 h p rest :
  let final := path_join RECEIVED_DIR (md_name fi) in
  let data := take (Z.to_nat (md_size fi)) (payload_of (sk_inbox (w_sock w1))) in
  ensure_directory RECEIVED_DIR w = Outcome (Ret tt) w1 t1 ->
  SKIP_HASH_VERIFICATION = true \/ hashlib_new HASH_ALGORITHM = Some h ->
  0 < BUFFER_SIZE ->
  fresh_name (w_fs w1) RECEIVED_DIR ("." +:+ md_name fi +:+ "_") ".tmp" (w_tmp_names w1)
    = Some (p, rest) ->
  md_size fi <= len (payload_of (sk_inbox (w_sock w1))) ->
  md_size fi <= w_disk_free w1 ->
  SKIP_HASH_VERIFICATION = true \/ h data = md_hash fi ->
  is_dir (w_fs w1 !! final) = false ->
  next_write_ok (w_sock w1) = true ->
  let o := receive_file fi w in
  res o = Ret tt /\
  w_failed (st o) = w_failed w1 /\
  w_fs (st o) !! final = Some (File data) /\
  w_fs (st o) !! p = None /\
  exists pre fs',
    tr o = pre ++ [EvMove p final; EvFs fs';
                   EvUi ("File received and verified: " +:+ final);
                   EvSend None DONE true].
Proof.
  intros final data Hdir Hh Hbuf Hfresh Hpay Hdisk Heq Hdst Hsend o. subst o.
  rewrite (receive_file_after_directory _ _ _ _ Hdir). fold final.
  unfold receive_file_flow. rewrite run_try_finally, run_try_except.
  destruct (receive_file_guarded_verified fi (set_temp_filepath None (set_temp_fd None w1))
              h p rest Hh Hbuf Hfresh Hpay Hdisk Heq Hdst Hsend)
    as (w' & pre & fs' & Hg & G1 & G2 & G3 & _).
  fold final in Hg. rewrite Hg.
  destruct (receive_file_finalizer_run w') as (w'' & -> & Hfs & Hfl).
  cbn [prepend res st tr]. rewrite Hfs, Hfl.
  split; [reflexivity|]. split; [exact G3|]. split; [exact G1|]. split; [exact G2|].
  exists ((t1 ++ [EvUi ("Receiving: " +:+ md_name fi)]) ++ pre), fs'.
  rewrite app_nil_r, app_assoc. reflexivity.
Qed.

End HappyPath.

(** The peer sends the three announced bytes [abc] and their digest. *)
Lemma complete_file_published_witness :
  let md := three_byte_manifest (toy_digest (b_ "abc")) in
  let w := staged_world [RxSeg (b_ "abc")] in
  let checked := ensure_directory (@RECEIVED_DIR example_config) w in
  let data := take (Z.to_nat (md_size md)) (payload_of (sk_inbox (w_sock (st checked)))) in
  let final := path_join (@RECEIVED_DIR example_config) (md_name md) in
  let o := @receive_file example_config (example_libs md) md w in
  res o = Ret tt /\
  w_failed (st o) = w_failed (st checked) /\
  w_fs (st o) !! final = Some (File data) /\
  w_fs (st o) !! "received/.a.txt_r1.tmp" = None /\
  exists pre fs',
    tr o = pre ++ [EvMove "received/.a.txt_r1.tmp" final; EvFs fs';
                   EvUi ("File received and verified: " +:+ final);
                   EvSend None DONE true].
Proof.
  intros md w checked data final.
  apply (@complete_file_published example_config (example_libs md) md w
           (st checked) (tr checked) toy_digest "received/.a.txt_r1.tmp" []).
  - vm_compute. reflexivity.
  - right. reflexivity.
  - reflexivity.
  - vm_compute. reflexivity.
  - vm_compute. discriminate.
  - vm_compute. discriminate.
  - right. vm_compute. reflexivity.
  - vm_compute. reflexivity.
  - reflexivity.
Defined.

(** ** What [ensure_directory] leaves behind *)

Ltac py_step_in H := rewrite run_bind in H; autorewrite with run in H; cbv beta iota in H.

(** The write probe, when it passes, removes the probe file. *)
Lemma write_probe_ret (p : string) (h : exn -> Py unit) (w w' : world) t :
  (forall e w0 a0, res (h e w0) <> Ret a0) ->
  try_except
    (open_wb None p ;; file_write p (b_ "test") ;; os_remove p) h w
  = Outcome (Ret tt) w' t ->
  w_fs w' = delete p (w_fs w).
Proof.
  intros Hh H. apply try_except_ret_inv in H; [|exact Hh].
  rewrite run_bind in H.
  assert (Hopen : exists w1 t1,
            open_wb None p w = Outcome (Ret tt) w1 t1 /\
            w_fs w1 = <[p := File []]> (w_fs w)).
  { destruct (open_wb None p w) as [[[]|e|] w1 t1] eqn:E; try discriminate.
    exists w1, t1. split; [reflexivity|].
    unfold open_wb in E. py_step_in E.
    destruct (w_fs w !! p) as [[c|]|].
    - py_step_in E. py_step_in E. cbn [prepend] in E. inversion E. reflexivity.
    - autorewrite with run in E. discriminate.
    - py_step_in E. cbn [prepend] in E. inversion E. reflexivity. }
  destruct Hopen as (w1 & t1 & Ho & Hfs1). rewrite Ho in H. cbn [prepend] in H.
  rewrite run_bind in H.
  destruct (file_write_cases p (b_ "test") w1) as [(c & Hc & Hw) | (e & Hw)];
    rewrite Hw in H; [|discriminate].
  cbn [prepend] in H. unfold os_remove in H. py_step_in H.
  rewrite w_fs_set_fs, lookup_insert_eq in H. py_step_in H. py_step_in H.
  cbn [prepend] in H. inversion H.
  rewrite w_fs_set_fs, Hfs1. rewrite insert_insert_eq, delete_insert_eq. reflexivity.
Qed.

Section EnsureDirectory.
Context `{cfg : Config} `{libs : Libs}.

(** X11. When [ensure_directory] returns on a non-empty path, the path is
    a directory, the probe file [.write_test] is not there -- a file of
    that name that was in the directory before is gone too -- and the rest
    of the filesystem is as it was. *)
Theorem ensure_directory_leaves_directory (path : string) (w w' : world) t :
  path <> "" ->
  ensure_directory path w = Outcome (Ret tt) w' t ->
  w_fs w' = delete (path_join path ".write_test") (<[path := Dir]> (w_fs w)) /\
  is_file (w_fs w !! path) = false.
Proof.
  intros Hpath H. apply String.eqb_neq in Hpath.
  unfold ensure_directory in H.
  assert (Hbody : forall fuel,
    ensure_directory_rec fuel path w = Outcome (Ret tt) w' t ->
    w_fs w' = delete (path_join path ".write_test") (<[path := Dir]> (w_fs w)) /\
    is_file (w_fs w !! path) = false).
  { clear H. intros fuel H.
    assert (Hrun : exists k : Py unit,
      try_except
        (ex <- os_path_exists path ;;
         when (negb ex) (os_makedirs path) ;;
         isd <- os_path_isdir path ;;
         if negb isd
         then raise (Exn OSError None ("Path exists but is not a directory: " +:+ path))
         else
           try_except
             (open_wb None (path_join path ".write_test") ;;
              file_write (path_join path ".write_test") (b_ "test") ;;
              os_remove (path_join path ".write_test"))
             (fun e =>
                if is_os_error e
                then raise (Exn OSError None ("Directory not writable: " +:+ path))
                else raise e))
        (fun e =>
           if is_file_exists_error e then ret tt
           else if is_os_error e then
             if bool_decide (exn_errno e = Some 3) then
               if negb (String.eqb (dirname path) "")
                  && negb (String.eqb (dirname path) path)
               then k
               else raise (Exn OSError None ("Cannot create directory: " +:+ path))
             else raise (Exn OSError None ("Cannot create directory: " +:+ path))
           else raise (Exception ("Unexpected error creating directory " +:+ path))) w
      = Outcome (Ret tt) w' t).
    { destruct fuel; cbn [ensure_directory_rec] in H; rewrite Hpath in H;
        eexists; exact H. }
    clear H. destruct Hrun as [k H].
    assert (Hraise : forall e w1 t1,
      exn_errno e = None ->
      prepend t1
        ((if is_file_exists_error e then ret tt
          else if is_os_error e then
            if bool_decide (exn_errno e = Some 3) then
              if negb (String.eqb (dirname path) "")
                 && negb (String.eqb (dirname path) path)
              then k
              else raise (Exn OSError None ("Cannot create directory: " +:+ path))
            else raise (Exn OSError None ("Cannot create directory: " +:+ path))
          else raise (Exception ("Unexpected error creating directory " +:+ path))) w1)
      <> Outcome (Ret tt) w' t).
    { intros e w1 t1 He Hr. unfold is_file_exists_error in Hr. rewrite He in Hr.
      rewrite !bool_decide_eq_false_2, andb_false_r in Hr by discriminate.
      destruct (is_os_error e); autorewrite with run in Hr; discriminate. }
    assert (Hprobe : forall w0 t0,
      w_fs w0 = <[path := Dir]> (w_fs w) ->
      is_file (w_fs w !! path) = false ->
      match
        prepend t0
          (try_except
             (open_wb None (path_join path ".write_test") ;;
              file_write (path_join path ".write_test") (b_ "test") ;;
              os_remove (path_join path ".write_test"))
             (fun e =>
                if is_os_error e
                then raise (Exn OSError None ("Directory not writable: " +:+ path))
                else raise e) w0)
      with
      | Outcome (Raise e) w1 t1 =>
          prepend t1
            ((if is_file_exists_error e then ret tt
              else if is_os_error e then
                if bool_decide (exn_errno e = Some 3) then
                  if negb (String.eqb (dirname path) "")
                     && negb (String.eqb (dirname path) path)
                  then k
                  else raise (Exn OSError None ("Cannot create directory: " +:+ path))
                else raise (Exn OSError None ("Cannot create directory: " +:+ path))
              else raise (Exception ("Unexpected error creating directory " +:+ path))) w1)
      | o => o
      end = Outcome (Ret tt) w' t ->
      w_fs w' = delete (path_join path ".write_test") (<[path := Dir]> (w_fs w)) /\
      is_file (w_fs w !! path) = false).
    { intros w0 t0 Hfs0 Hnf Hr.
      destruct (try_except _ _ w0) as [[[]|e|] w1 t1] eqn:Hp in Hr; cbn [prepend] in Hr.
      - inversion Hr; subst. apply write_probe_ret in Hp.
        + rewrite Hp, Hfs0. split; [reflexivity | exact Hnf].
        + intros e w2 a0. destruct (is_os_error e); discriminate.
      - pose proof (write_probe_cases path w0) as Hc. cbv zeta in Hc. rewrite Hp in Hc.
        destruct Hc as [Hc | (e' & Hc & He)]; [discriminate|]. inversion Hc; subst e'.
        exfalso. exact (Hraise e w1 _ He Hr).
      - discriminate. }
    rewrite run_try_except, run_bind in H. autorewrite with run in H. cbv beta iota in H.
    rewrite prepend_nil, run_bind in H.
    destruct (w_fs w !! path) as [[c|]|] eqn:Ep.
    - (* a regular file *)
      rewrite bool_decide_eq_true_2 in H by eauto. cbn [negb when] in H.
      autorewrite with run in H. cbn [prepend] in H. py_step_in H.
      rewrite Ep in H. cbn [is_dir negb] in H. autorewrite with run in H.
      cbn [prepend] in H. exfalso.
      exact (Hraise (Exn OSError None ("Path exists but is not a directory: " +:+ path))
                    _ _ eq_refl H).
    - (* a directory already *)
      rewrite bool_decide_eq_true_2 in H by eauto. cbn [negb when] in H.
      autorewrite with run in H. cbn [prepend] in H. py_step_in H.
      rewrite Ep in H. cbn [is_dir negb] in H. rewrite prepend_prepend in H.
      apply Hprobe in H; [exact H | | reflexivity].
      symmetry. apply insert_id. exact Ep.
    - (* nothing there: the directory is made *)
      rewrite bool_decide_eq_false_2 in H by (intros [x Hx]; discriminate).
      cbn [negb when] in H. unfold os_makedirs in H. py_step_in H. rewrite Ep in H.
      autorewrite with run in H. cbn [prepend] in H. py_step_in H.
      rewrite w_fs_set_fs, lookup_insert_eq in H. cbn [is_dir negb] in H.
      rewrite prepend_prepend in H.
      apply Hprobe in H; [exact H | reflexivity | reflexivity]. }
  exact (Hbody _ H).
Qed.

(** X12. [ensure_directory] on the path of a regular file raises
    [OSError: Cannot create directory] and touches nothing. *)
Theorem ensure_directory_refuses_file (path : string) (c : bytes) (w : world) :
  path <> "" ->
  w_fs w !! path = Some (File c) ->
  ensure_directory path w =
    Outcome (Raise (Exn OSError None ("Cannot create directory: " +:+ path))) w [].
Proof.
  intros Hpath Ep. apply String.eqb_neq in Hpath. unfold ensure_directory.
  destruct (String.length path); cbn [ensure_directory_rec]; rewrite Hpath.
  all: rewrite run_try_except, run_bind; autorewrite with run; cbv beta iota.
  all: rewrite prepend_nil, run_bind, bool_decide_eq_true_2 by eauto.
  all: cbn [negb when]; autorewrite with run; cbn [prepend]; py_step.
  all: rewrite Ep; cbn [is_dir negb]; autorewrite with run; cbn [prepend].
  all: unfold is_file_exists_error; cbn [is_os_error exn_class_of exn_errno].
  all: rewrite !bool_decide_eq_false_2 by discriminate; cbn [andb].
  all: autorewrite with run; reflexivity.
Qed.

End EnsureDirectory.

(** A directory [received] that holds an older [.write_test]. *)
Lemma ensure_directory_leaves_directory_witness :
  let w := set_disk_free 10
             (set_fs (<["received/.write_test" := File (b_ "old")]>
                        (<["received" := Dir]> ∅)) empty_world) in
  let o := ensure_directory "received" w in
  w_fs (st o) = delete (path_join "received" ".write_test") (<["received" := Dir]> (w_fs w)) /\
  is_file (w_fs w !! "received") = false.
Proof.
  intros w o.
  apply (ensure_directory_leaves_directory "received" w (st o) (tr o));
    [discriminate | vm_compute; reflexivity].
Defined.

(** [received] is a regular file. *)
Lemma ensure_directory_refuses_file_witness :
  let w := set_fs (<["received" := File (b_ "x")]> ∅) empty_world in
  ensure_directory "received" w =
    Outcome (Raise (Exn OSError None ("Cannot create directory: " +:+ "received"))) w [].
Proof.
  intros w.
  apply (ensure_directory_refuses_file "received" (b_ "x") w); [discriminate | reflexivity].
Defined.

(** ** The sender always comes back *)

Lemma bind_ret_inv {A B} (m : Py A) (k : A -> Py B) w b w' t :
  bind m k w = Outcome (Ret b) w' t ->
  exists a w1 t1 t2,
    m w = Outcome (Ret a) w1 t1 /\ k a w1 = Outcome (Ret b) w' t2 /\ t = t1 ++ t2.
Proof.
  rewrite run_bind. destruct (m w) as [[a|e|] w1 t1]; try discriminate.
  destruct (k a w1) as [r w2 t2] eqn:Hk. cbn [prepend]. intros H. inversion H; subst.
  exists a, w1, t1, t2. auto.
Qed.

Lemma try_finally_ret_inv {A} (m : Py A) f w a w' t :
  try_finally m f w = Outcome (Ret a) w' t ->
  exists w1 t1 t2,
    m w = Outcome (Ret a) w1 t1 /\ f w1 = Outcome (Ret tt) w' t2 /\ t = t1 ++ t2.
Proof.
  rewrite run_try_finally. destruct (m w) as [r w1 t1].
  destruct (f w1) as [[[]|e|] w2 t2] eqn:Hf; cbn [prepend]; intros H; inversion H; subst.
  exists w1, t1, t2. repeat split. exact Hf.
Qed.

(** A handler that cannot produce [a] leaves [a] to the guarded block. *)
Lemma try_except_value_inv {A} (m : Py A) h w a w' t :
  (forall e w0, res (h e w0) <> Ret a) ->
  try_except m h w = Outcome (Ret a) w' t ->
  m w = Outcome (Ret a) w' t.
Proof.
  intros Hh. rewrite run_try_except. destruct (m w) as [[a1|e|] w1 t1]; auto.
  intros H. exfalso. apply (Hh e w1). rewrite <- (res_prepend t1), H. reflexivity.
Qed.

Section SenderEnds.
Context `{cfg : Config} `{libs : Libs}.

Lemma ends_create_socket : ends create_socket.
Proof. unfold create_socket. ends_go. Qed.

Lemma ends_sock_connect : ends sock_connect.
Proof. unfold sock_connect. ends_go. Qed.

Lemma ends_open_rb p : ends (open_rb p).
Proof. unfold open_rb. apply ends_bind; [apply ends_gets|]. intros fs. ends_go. Qed.

Lemma ends_calculate_file_hash p : ends (calculate_file_hash p).
Proof.
  unfold calculate_file_hash. destruct (hashlib_new HASH_ALGORITHM); [|apply ends_raise].
  apply ends_bind; [apply ends_open_rb|]. intros c. ends_go.
Qed.

Lemma ends_pack_length n : ends (pack_length n).
Proof. unfold pack_length. ends_go. Qed.

Lemma ends_receive_acknowledgment entry expected timeout :
  ends (_receive_acknowledgment entry expected timeout).
Proof.
  unfold _receive_acknowledgment, sock_gettimeout, restore_timeout.
  apply ends_bind; [apply ends_gets|]. intros original_timeout.
  apply ends_try_finally.
  - apply ends_try_except; [|intros e; ends_go].
    apply ends_bind; [apply ends_sock_settimeout|]. intros _.
    destruct expected; [apply ends_raise|].
    apply ends_bind; [apply ends_sock_recv|]. intros response.
    apply ends_bind; [destruct original_timeout; [apply ends_sock_settimeout | apply ends_ret]|].
    intros _. ends_go.
  - apply ends_ignore_errors.
    destruct original_timeout; [apply ends_sock_settimeout | apply ends_ret].
Qed.

Lemma ends_close_if_created : ends close_if_created.
Proof.
  unfold close_if_created. apply ends_bind; [apply ends_gets|]. intros created.
  apply ends_when, ends_ignore_errors, ends_sock_close.
Qed.

Lemma ends_send_file_loop content file_size fuel : forall sent,
  file_size - sent <= Z.of_nat fuel ->
  ends (send_file_loop fuel content file_size sent).
Proof.
  induction fuel as [|fuel IH]; intros sent Hfuel; cbn [send_file_loop].
  - destruct (sent <? file_size) eqn:E; [apply Z.ltb_lt in E; lia | apply ends_ret].
  - destruct (sent <? file_size) eqn:E; [|apply ends_ret].
    destruct (file_read content sent _) as [|b chunk] eqn:Hc; cbn [is_empty];
      [apply ends_ret|].
    apply ends_bind; [|intros _; apply IH; unfold len; cbn [length]; lia].
    apply ends_try_except; [apply ends_sock_send | intros e; ends_go].
Qed.

Lemma ends_send_file filepath : ends (send_file filepath).
Proof.
  unfold send_file.
  apply ends_bind; [apply ends_gets|]. intros ex.
  destruct (negb ex); [ends_go|].
  apply ends_bind; [apply ends_os_path_getsize|]. intros file_size.
  apply ends_bind; [apply ends_ui|]. intros _.
  apply ends_bind; [apply ends_modify|]. intros _.
  apply ends_try_finally; [|apply ends_close_if_created].
  apply ends_try_except; [|intros e; ends_go].
  apply ends_bind; [apply ends_create_socket|]. intros _.
  apply ends_bind; [apply ends_modify|]. intros _.
  apply ends_bind; [apply ends_sock_settimeout|]. intros _.
  apply ends_bind; [apply ends_ui|]. intros _.
  apply ends_bind; [apply ends_sock_connect|]. intros _.
  apply ends_bind; [apply ends_ui|]. intros _.
  apply ends_bind; [apply ends_ui|]. intros _.
  apply ends_bind; [apply ends_calculate_file_hash|]. intros file_hash.
  apply ends_bind; [apply ends_gets|]. intros now.
  apply ends_bind; [apply ends_pack_length|]. intros hdr.
  apply ends_bind; [apply ends_sock_send|]. intros _.
  apply ends_bind; [apply ends_sock_send|]. intros _.
  apply ends_bind; [apply ends_receive_acknowledgment|]. intros ack.
  destruct (negb (fst ack)); [ends_go|].
  destruct (bytes_eqb (snd ack) MISMATCH); [unfold _handle_hash_mismatch; ends_go|].
  apply ends_bind; [apply ends_open_rb|]. intros content.
  apply ends_bind; [apply ends_send_file_loop; lia|]. intros _.
  apply ends_bind; [apply ends_receive_acknowledgment|]. intros fin.
  ends_go.
Qed.

(** X13. [send_file] always returns a boolean: a missing file, a refused
    or lost connection, a timeout, an unreadable file, an unexpected reply
    -- every failure is turned into [False]; nothing is raised to the
    caller.  For a path that does not exist it returns [False] at once:
    no socket is created, nothing is hashed or sent. *)
Theorem send_file_always_returns (filepath : string) (w : world) :
  let o := send_file filepath w in
  (exists ok : bool, res o = Ret ok) /\
  (w_fs w !! filepath = None ->
   o = Outcome (Ret false) w [EvUi ("File not found: " +:+ filepath)]).
Proof.
  intros o. assert (Hnr : forall e, res o <> Raise e).
  { subst o. intros e. unfold send_file. py_step.
    destruct (w_fs w !! filepath) as [n|] eqn:Ep.
    2:{ rewrite bool_decide_eq_false_2 by (intros [x Hx]; discriminate).
        cbn [negb]. py_step. discriminate. }
    rewrite bool_decide_eq_true_2 by eauto. cbn [negb].
    rewrite run_bind. unfold os_path_getsize. py_step. rewrite Ep.
    assert (Hrest : forall (k : Z -> Py bool) size,
              never_raises (k size) ->
              forall t0, res (prepend t0 (k size w)) <> Raise e).
    { intros k size Hk t0. rewrite res_prepend. apply Hk. }
    destruct n as [c|]; py_step; cbn [prepend]; rewrite !res_prepend.
    all: apply never_raises_bind; [apply never_raises_ui|]; intros _.
    all: apply never_raises_bind; [apply never_raises_modify|]; intros _.
    all: apply never_raises_try_finally;
      [ apply never_raises_try_except; intros e0; never_raises_go
      | unfold close_if_created; never_raises_go ]. }
  split.
  - pose proof (ends_send_file filepath w) as He. fold o in He.
    destruct (res o) as [ok|e|]; [eauto | exfalso; apply (Hnr e); reflexivity | congruence].
  - intros Ep. subst o. unfold send_file. py_step. rewrite Ep.
    rewrite bool_decide_eq_false_2 by (intros [x Hx]; discriminate).
    cbn [negb]. py_step. reflexivity.
Qed.

End SenderEnds.
